(** * CARLA brewing optimiser: environment and Q-learning agent

    A shallow embedding of [carla/models.py], [carla/env.py] and
    [carla/agent.py].

    Numbers.  Python [int] is [Z].  Python [float] is IEEE-754 binary64,
    embedded as Rocq's primitive [float] (the same format, the same
    round-to-nearest-even operations), so that the truncation in
    [_discretize_*] and the exact value of an update can be computed.

    Failure.  A Python call either returns or raises; pure functions return
    [result A], and the methods of [BrewingAgent], which mutate [self] also
    on the way to an exception, live in the state-and-exception monad [M].

    Containers.  The outer Q-table [dict[str, dict[str, float]]] is a
    [gmap string row]; a row keeps Python's insertion order, on which
    [max] and [sorted] break ties, and is an association list. *)

From Stdlib Require Import ZArith List Bool Ascii String Floats Lia.
From stdpp Require Import base option list strings pretty gmap fin_maps.

Set Warnings "-inexact-float".

Local Open Scope string_scope.
Local Open Scope Z_scope.
Local Open Scope list_scope.

(* ===================================================================== *)
(** ** The Python runtime the three modules rely on                      *)
(* ===================================================================== *)

Module Py.

(** The exceptions the modelled code can raise. [except (ValueError,
    IndexError)] in [agent.py] catches only the first of them. *)
Inductive exn : Type :=
  | ValueError
  | OverflowError
  | ZeroDivisionError.

Inductive result (A : Type) : Type :=
  | Ok (a : A)
  | Raise (e : exn).
Arguments Ok {A} a.
Arguments Raise {A} e.

Definition rbind {A B} (r : result A) (k : A -> result B) : result B :=
  match r with
  | Ok a => k a
  | Raise e => Raise e
  end.

Definition raises {A} (r : result A) : Prop :=
  match r with Ok _ => False | Raise _ => True end.

(** [try: body except (ValueError, IndexError): handler] *)
Definition try_except_ValueError {A} (body handler : result A) : result A :=
  match body with
  | Raise ValueError => handler
  | r => r
  end.

(** *** Floats *)

(** A small integer constant used where Python mixes [int] and [float]:
    the conversion is exact below 2^53. *)
Definition fl (z : Z) : float := SF2Prim (binary_normalize prec emax z 0 false).

Definition is_inf (x : float) : bool :=
  match Prim2SF x with S754_infinity _ => true | _ => false end.

(** [float(z)] as done implicitly by [z - 5.5]: correctly rounded, and
    OverflowError when the integer is too large for a double. *)
Definition float_of_int (z : Z) : result float :=
  let x := fl z in if is_inf x then Raise OverflowError else Ok x.

(** [a / b] on two [int]s: the correctly rounded quotient. *)
Definition int_truediv (a b : Z) : result float :=
  if b =? 0 then Raise ZeroDivisionError
  else if a =? 0 then Ok (if b <? 0 then (-0)%float else 0%float)
  else
    let x := S754_finite (a <? 0) (Z.to_pos (Z.abs a)) 0 in
    let y := S754_finite (b <? 0) (Z.to_pos (Z.abs b)) 0 in
    let q := SF2Prim (SF64div x y) in
    if is_inf q then Raise OverflowError else Ok q.

(** [int(x)]: truncation towards zero. *)
Definition int_of_float (x : float) : result Z :=
  match Prim2SF x with
  | S754_zero _ => Ok 0
  | S754_infinity _ => Raise OverflowError
  | S754_nan => Raise ValueError
  | S754_finite s m e =>
      let a := if 0 <=? e then Z.shiftl (Zpos m) e else Z.shiftr (Zpos m) (- e) in
      Ok (if s then - a else a)
  end.

(** [round(x)] with one argument: the nearest integer, ties to even. *)
Definition round (x : float) : result Z :=
  match Prim2SF x with
  | S754_zero _ => Ok 0
  | S754_infinity _ => Raise OverflowError
  | S754_nan => Raise ValueError
  | S754_finite s m e =>
      let a :=
        if 0 <=? e then Z.shiftl (Zpos m) e
        else
          let d := Z.shiftl 1 (- e) in
          let q := Zpos m / d in
          let r := Zpos m mod d in
          match 2 * r ?= d with
          | Lt => q
          | Gt => q + 1
          | Eq => if Z.even q then q else q + 1
          end in
      Ok (if s then - a else a)
  end.

(** [max(a, b)] and [min(a, b)] keep the first argument unless the second
    compares strictly beyond it. *)
Definition max (a b : float) : float := if (a <? b)%float then b else a.
Definition min (a b : float) : float := if (b <? a)%float then b else a.

(** [sum(l)]: the start value is the int 0, and [0 + x] is [x] converted;
    the additions run from left to right. *)
Definition sum (l : list float) : float := fold_left PrimFloat.add l 0%float.

(** From CPython 3.12 on, [sum] carries the rounding errors of the
    additions after the first along in [c] and adds them at the end
    (Neumaier's summation). *)
Fixpoint sum_compensated_from (l : list float) (f_result c : float) : float :=
  match l with
  | [] => if (c =? 0)%float then f_result else (f_result + c)%float
  | x :: tl =>
      let t := (f_result + x)%float in
      let c' :=
        if (abs x <=? abs f_result)%float
        then (c + ((f_result - t) + x))%float
        else (c + ((x - t) + f_result))%float in
      sum_compensated_from tl t c'
  end.

Definition sum_compensated (l : list float) : float :=
  match l with
  | [] => 0%float
  | x :: tl => sum_compensated_from tl (0 + x)%float 0%float
  end.

(** *** Strings *)

Definition str_bool (b : bool) : string := if b then "True" else "False".

(** [str(z)] for an [int]: decimal digits, a leading minus sign. *)
Definition str_int (z : Z) : string := pretty z.

(** [s.split("_")] *)
Fixpoint split_underscore (s : string) : list string :=
  match s with
  | EmptyString => [EmptyString]
  | String c tl =>
      if Ascii.eqb c "_" then EmptyString :: split_underscore tl
      else match split_underscore tl with
           | h :: t => String c h :: t
           | [] => [String c EmptyString]
           end
  end.

(** [c.isspace()] for a character below 256. *)
Definition is_space (c : ascii) : bool :=
  let n := N_of_ascii c in
  ((9 <=? n) && (n <=? 13) || (28 <=? n) && (n <=? 32) || (n =? 133) || (n =? 160))%N.

Definition digit_of (c : ascii) : option Z :=
  let n := N_of_ascii c in
  if ((48 <=? n) && (n <=? 57))%N then Some (Z.of_N n - 48) else None.

Fixpoint lstrip (s : string) : string :=
  match s with
  | String c tl => if is_space c then lstrip tl else s
  | EmptyString => EmptyString
  end.

Fixpoint rstrip (s : string) : string :=
  match s with
  | EmptyString => EmptyString
  | String c tl =>
      match rstrip tl with
      | EmptyString => if is_space c then EmptyString else String c EmptyString
      | tl' => String c tl'
      end
  end.

Fixpoint digits (s : string) (acc : Z) : option Z :=
  match s with
  | EmptyString => Some acc
  | String c tl =>
      match digit_of c with
      | Some d => digits tl (10 * acc + d)
      | None => None
      end
  end.

Definition unsigned_digits (s : string) : result Z :=
  match s with
  | EmptyString => Raise ValueError
  | _ => match digits s 0 with Some z => Ok z | None => Raise ValueError end
  end.

(** White space for [int(s)]: the ASCII white space, and the no-break
    space and next-line characters that [int] turns into spaces before it
    parses.  The separators 0x1C to 0x1F, white space for [str.strip], are
    not. *)
Definition is_int_space (c : ascii) : bool :=
  let n := N_of_ascii c in
  ((9 <=? n) && (n <=? 13) || (n =? 32) || (n =? 133) || (n =? 160))%N.

Fixpoint int_lstrip (s : string) : string :=
  match s with
  | String c tl => if is_int_space c then int_lstrip tl else s
  | EmptyString => EmptyString
  end.

Fixpoint int_rstrip (s : string) : string :=
  match s with
  | EmptyString => EmptyString
  | String c tl =>
      match int_rstrip tl with
      | EmptyString => if is_int_space c then EmptyString else String c EmptyString
      | tl' => String c tl'
      end
  end.

(** [int(s)] in base ten for a string without underscores (the parts of
    [split("_")] have none): surrounding white space, an optional sign,
    then at least one digit. *)
Definition int_of_str (s : string) : result Z :=
  match int_lstrip (int_rstrip s) with
  | String "-" tl => rbind (unsigned_digits tl) (fun z => Ok (- z))
  | String "+" tl => unsigned_digits tl
  | t => unsigned_digits t
  end.

End Py.

Import Py.

Notation "'let*' x ':=' c1 'in' c2" := (rbind c1 (fun x => c2))
  (at level 10, x name, c1 at level 100, c2 at level 200).

(* ===================================================================== *)
(** ** models.py                                                         *)
(* ===================================================================== *)

Definition MIN_RATING : Z := 1.
Definition MAX_RATING : Z := 10.

(** [grind_size] is annotated [float] in the dataclass, but every producer
    ([random.randint], [_undiscretize_grind], the baseline) and the
    signature of [_discretize_grind] make it an [int]. *)
Record BrewAction : Type := mkBrewAction {
  grind_size : Z;
  brew_volume : float;
  coffee_dose : float
}.

Record BrewState : Type := mkBrewState {
  is_first_brew : bool;
  days_since_roast : Z
}.

(** A naive [datetime] is a point of the proleptic time line, counted in
    microseconds, and [(a - b).days] the [days] field of the normalised
    [timedelta]: its seconds and microseconds are never negative, so the
    days are the floor of the difference. *)
Definition MICROSECONDS_PER_DAY : Z := 86400000000.

Definition timedelta_days (a b : Z) : Z := (a - b) / MICROSECONDS_PER_DAY.

(** [BrewState.from_roast_date], with the value of [datetime.now()]. *)
Definition from_roast_date (now roast_date : Z) (is_first_brew : bool) : BrewState :=
  let days_since := timedelta_days now roast_date in
  mkBrewState is_first_brew days_since.

Record BrewEvaluation : Type := mkBrewEvaluation {
  bitterness : option Z;
  acidity : option Z;
  taste_strength : option Z;
  overall_experience : option Z;
  brew_time : option float;
  channeling : option Z
}.

(** One turn of the loop of [__post_init__]:
    [value is not None and not (MIN_RATING <= value <= MAX_RATING)]. *)
Definition rating_rejected (value : option Z) : bool :=
  match value with
  | None => false
  | Some v => negb ((MIN_RATING <=? v) && (v <=? MAX_RATING))
  end.

Fixpoint check_ratings (values : list (option Z)) : result unit :=
  match values with
  | [] => Ok tt
  | value :: rest =>
      if rating_rejected value then Raise ValueError else check_ratings rest
  end.

Definition brew_time_rejected (value : option float) : bool :=
  match value with
  | None => false
  | Some t => (t <=? 0)%float
  end.

Definition __post_init__ (self : BrewEvaluation) : result unit :=
  let* _ := check_ratings
      [bitterness self; acidity self; taste_strength self;
       overall_experience self; channeling self] in
  if brew_time_rejected (brew_time self) then Raise ValueError else Ok tt.

(** The constructor generated by [@dataclass]: store the six fields, then
    run [__post_init__]; the object exists only if that returns. *)
Definition BrewEvaluation_init
    (bitterness acidity taste_strength overall_experience : option Z)
    (brew_time : option float) (channeling : option Z) : result BrewEvaluation :=
  let self := mkBrewEvaluation bitterness acidity taste_strength
                overall_experience brew_time channeling in
  let* _ := __post_init__ self in
  Ok self.

(* ===================================================================== *)
(** ** env.py                                                            *)
(* ===================================================================== *)

Definition IDEAL_METRIC_MIN : Z := 5.
Definition IDEAL_METRIC_MAX : Z := 6.
Definition ACCEPTABLE_METRIC_MIN : Z := 4.
Definition ACCEPTABLE_METRIC_MAX : Z := 7.

Definition LOW_CHANNELING_THRESHOLD : Z := 3.
Definition HIGH_CHANNELING_THRESHOLD : Z := 7.

Definition IDEAL_BREW_TIME_MIN : Z := 25.
Definition IDEAL_BREW_TIME_MAX : Z := 35.
Definition MIN_BREW_TIME : Z := 20.
Definition MAX_BREW_TIME : Z := 45.

Module BrewingEnvironment.

Definition GRIND_SIZE_BOUNDS : Z * Z := (1, 30).
Definition BREW_VOLUME_BOUNDS : float * float := (25.0, 50.0)%float.
Definition COFFEE_DOSE_BOUNDS : float * float := (15.0, 25.0)%float.

Definition GRIND_SIZE_STEPS : Z := 30.
Definition BREW_VOLUME_STEPS : Z := 10.
Definition COFFEE_DOSE_STEPS : Z := 10.

Definition state_to_key (state : BrewState) : string :=
  str_bool (is_first_brew state) +:+ "_" +:+
  str_int (Z.min (days_since_roast state) 30).

Definition _discretize_grind (grind_size : Z) : result Z :=
  let '(min_val, max_val) := GRIND_SIZE_BOUNDS in
  let* q := int_truediv (grind_size - min_val) (max_val - min_val) in
  let* idx := int_of_float (q * fl (GRIND_SIZE_STEPS - 1))%float in
  Ok (Z.max 0 (Z.min (GRIND_SIZE_STEPS - 1) idx)).

Definition _discretize_volume (brew_volume : float) : result Z :=
  let '(min_val, max_val) := BREW_VOLUME_BOUNDS in
  let* idx := int_of_float
      ((brew_volume - min_val) / (max_val - min_val) * fl (BREW_VOLUME_STEPS - 1))%float in
  Ok (Z.max 0 (Z.min (BREW_VOLUME_STEPS - 1) idx)).

Definition _discretize_dose (coffee_dose : float) : result Z :=
  let '(min_val, max_val) := COFFEE_DOSE_BOUNDS in
  let* idx := int_of_float
      ((coffee_dose - min_val) / (max_val - min_val) * fl (COFFEE_DOSE_STEPS - 1))%float in
  Ok (Z.max 0 (Z.min (COFFEE_DOSE_STEPS - 1) idx)).

Definition _undiscretize_grind (idx : Z) : result Z :=
  let '(min_val, max_val) := GRIND_SIZE_BOUNDS in
  let* q := int_truediv idx (GRIND_SIZE_STEPS - 1) in
  let grind_float := (fl min_val + q * fl (max_val - min_val))%float in
  round grind_float.

Definition _undiscretize_volume (idx : Z) : result float :=
  let '(min_val, max_val) := BREW_VOLUME_BOUNDS in
  let* q := int_truediv idx (BREW_VOLUME_STEPS - 1) in
  Ok (min_val + q * (max_val - min_val))%float.

Definition _undiscretize_dose (idx : Z) : result float :=
  let '(min_val, max_val) := COFFEE_DOSE_BOUNDS in
  let* q := int_truediv idx (COFFEE_DOSE_STEPS - 1) in
  Ok (min_val + q * (max_val - min_val))%float.

Definition action_to_key (action : BrewAction) : result string :=
  let* grind_idx := _discretize_grind (grind_size action) in
  let* volume_idx := _discretize_volume (brew_volume action) in
  let* dose_idx := _discretize_dose (coffee_dose action) in
  Ok (str_int grind_idx +:+ "_" +:+ str_int volume_idx +:+ "_" +:+ str_int dose_idx).

Definition action_from_indices (grind_idx volume_idx dose_idx : Z) : result BrewAction :=
  let* grind_size := _undiscretize_grind grind_idx in
  let* brew_volume := _undiscretize_volume volume_idx in
  let* coffee_dose := _undiscretize_dose dose_idx in
  Ok (mkBrewAction grind_size brew_volume coffee_dose).

(** The values drawn from the [random] module by one call of
    [suggest_action]: [random.random()], then, when exploring,
    [random.randint(1, 30)] and the two [random.uniform] results. *)
Record draws : Type := mkDraws {
  draw_random : float;
  draw_grind : Z;
  draw_volume : float;
  draw_dose : float
}.

Definition get_random_action (rnd : draws) : BrewAction :=
  mkBrewAction (draw_grind rnd) (draw_volume rnd) (draw_dose rnd).

Definition get_baseline_action (state : BrewState) : BrewAction :=
  mkBrewAction 15 40.0%float 18.0%float.

(** The body of the loop of [_calculate_metrics_reward] for one value:
    what it appends to [metrics]. *)
Definition metric_contribution (value : option Z) : list float :=
  match value with
  | None => []
  | Some v =>
      if (IDEAL_METRIC_MIN <=? v) && (v <=? IDEAL_METRIC_MAX) then [0.5%float]
      else if (ACCEPTABLE_METRIC_MIN <=? v) && (v <=? ACCEPTABLE_METRIC_MAX) then [0.2%float]
      else [(-0.2)%float]
  end.

(** The list [metrics] at the end of the loop. *)
Definition taste_metrics (evaluation : BrewEvaluation) : list float :=
  metric_contribution (bitterness evaluation) ++
  metric_contribution (acidity evaluation) ++
  metric_contribution (taste_strength evaluation).

Definition _calculate_metrics_reward (evaluation : BrewEvaluation) : float :=
  let metrics := taste_metrics evaluation in
  match metrics with
  | [] => 0.0%float
  | _ => (Py.sum metrics / fl (Z.of_nat (length metrics)))%float
  end.

Definition _calculate_channeling_bonus (evaluation : BrewEvaluation) : float :=
  match channeling evaluation with
  | None => 0.0%float
  | Some c =>
      if c <=? LOW_CHANNELING_THRESHOLD then 0.1%float
      else if HIGH_CHANNELING_THRESHOLD <=? c then (-0.2)%float
      else 0.0%float
  end.

Definition _calculate_brew_time_bonus (evaluation : BrewEvaluation) : float :=
  match brew_time evaluation with
  | None => 0.0%float
  | Some t =>
      if ((fl IDEAL_BREW_TIME_MIN <=? t) && (t <=? fl IDEAL_BREW_TIME_MAX))%float
      then 0.1%float
      else if ((t <? fl MIN_BREW_TIME) || (fl MAX_BREW_TIME <? t))%float
      then (-0.1)%float
      else 0.0%float
  end.

Definition calculate_reward (evaluation : BrewEvaluation) : result float :=
  let* reward :=
    match overall_experience evaluation with
    | Some overall =>
        let* o := float_of_int overall in Ok ((o - 5.5) / 4.5)%float
    | None => Ok (_calculate_metrics_reward evaluation)
    end in
  let reward := (reward + _calculate_channeling_bonus evaluation)%float in
  let reward := (reward + _calculate_brew_time_bonus evaluation)%float in
  Ok (Py.max (-1.0)%float (Py.min 1.0%float reward)).

End BrewingEnvironment.

(* ===================================================================== *)
(** ** agent.py                                                          *)
(* ===================================================================== *)

(** A row [dict[str, float]] in insertion order. *)
Abbreviation row := (list (string * float)).

Fixpoint row_get (r : row) (k : string) : option float :=
  match r with
  | [] => None
  | (k', v) :: tl => if String.eqb k' k then Some v else row_get tl k
  end.

(** [r[k]] on a [defaultdict(float)]: a missing key is first stored with
    [float()], that is 0.0, at the end of the row. *)
Definition row_getitem (r : row) (k : string) : float * row :=
  match row_get r k with
  | Some v => (v, r)
  | None => (0.0%float, r ++ [(k, 0.0%float)])
  end.

(** [r[k] = v]: an existing key keeps its place. *)
Fixpoint row_setitem (r : row) (k : string) (v : float) : row :=
  match r with
  | [] => [(k, v)]
  | (k', v') :: tl =>
      if String.eqb k' k then (k', v) :: tl else (k', v') :: row_setitem tl k v
  end.

Record BrewingAgent : Type := mkBrewingAgent {
  learning_rate : float;
  discount_factor : float;
  epsilon : float;
  epsilon_decay : float;
  min_epsilon : float;
  q_table : gmap string row;
  last_state_key : option string;
  last_action_key : option string
}.

Definition set_q_table (t : gmap string row) (self : BrewingAgent) : BrewingAgent :=
  mkBrewingAgent (learning_rate self) (discount_factor self) (epsilon self)
    (epsilon_decay self) (min_epsilon self) t
    (last_state_key self) (last_action_key self).

Definition set_epsilon (e : float) (self : BrewingAgent) : BrewingAgent :=
  mkBrewingAgent (learning_rate self) (discount_factor self) e
    (epsilon_decay self) (min_epsilon self) (q_table self)
    (last_state_key self) (last_action_key self).

Definition set_last_state_key (k : option string) (self : BrewingAgent) : BrewingAgent :=
  mkBrewingAgent (learning_rate self) (discount_factor self) (epsilon self)
    (epsilon_decay self) (min_epsilon self) (q_table self)
    k (last_action_key self).

Definition set_last_action_key (k : option string) (self : BrewingAgent) : BrewingAgent :=
  mkBrewingAgent (learning_rate self) (discount_factor self) (epsilon self)
    (epsilon_decay self) (min_epsilon self) (q_table self)
    (last_state_key self) k.

Definition set_discount_factor (g : float) (self : BrewingAgent) : BrewingAgent :=
  mkBrewingAgent (learning_rate self) g (epsilon self)
    (epsilon_decay self) (min_epsilon self) (q_table self)
    (last_state_key self) (last_action_key self).

(** A method of the agent: it returns or raises, and leaves [self] in the
    state reached at that point. *)
Definition M (A : Type) : Type := BrewingAgent -> result A * BrewingAgent.

Definition ret {A} (a : A) : M A := fun self => (Ok a, self).

Definition bind {A B} (m : M A) (k : A -> M B) : M B :=
  fun self =>
    match m self with
    | (Ok a, self') => k a self'
    | (Raise e, self') => (Raise e, self')
    end.

Definition lift {A} (r : result A) : M A := fun self => (r, self).
Definition get : M BrewingAgent := fun self => (Ok self, self).
Definition modify (f : BrewingAgent -> BrewingAgent) : M unit :=
  fun self => (Ok tt, f self).

Notation "'let!' x ':=' c1 'in' c2" := (bind c1 (fun x => c2))
  (at level 10, x name, c1 at level 100, c2 at level 200).
Notation "c1 ';;' c2" := (bind c1 (fun _ => c2))
  (at level 100, c2 at level 200, right associativity).

Module Agent.
Import BrewingEnvironment.

Definition __init__
    (learning_rate discount_factor epsilon epsilon_decay min_epsilon : float)
    : BrewingAgent :=
  mkBrewingAgent learning_rate discount_factor epsilon epsilon_decay
    min_epsilon ∅ None None.

(** [BrewingAgent()] with the default arguments. *)
Definition default_agent : BrewingAgent :=
  __init__ 0.1%float 0.95%float 0.1%float 0.995%float 0.01%float.

(** [self.q_table[state_key]]: the outer [defaultdict] stores an empty row
    under a missing key before returning it. *)
Definition q_table_getitem (state_key : string) : M row :=
  fun self =>
    match q_table self !! state_key with
    | Some r => (Ok r, self)
    | None => (Ok [], set_q_table (<[state_key := []]> (q_table self)) self)
    end.

(** [self.q_table[state_key][action_key]] read. *)
Definition q_value_getitem (state_key action_key : string) : M float :=
  let! r := q_table_getitem state_key in
  let '(v, r') := row_getitem r action_key in
  modify (fun self => set_q_table (<[state_key := r']> (q_table self)) self) ;;
  ret v.

(** [self.q_table[state_key][action_key] = value]. *)
Definition q_value_setitem (state_key action_key : string) (value : float) : M unit :=
  let! r := q_table_getitem state_key in
  modify (fun self =>
    set_q_table (<[state_key := row_setitem r action_key value]> (q_table self)) self).

(** [max(keys, key=f)]: the first key whose value no later one exceeds. *)
Fixpoint max_by (f : string -> float) (best : string) (rest : list string) : string :=
  match rest with
  | [] => best
  | k :: tl => if (f best <? f k)%float then max_by f k tl else max_by f best tl
  end.

(** [grind_idx, volume_idx, dose_idx = map(int, key.split("_"))]: every
    way this can fail (a part that is no integer, too few or too many
    parts) is a ValueError. *)
Definition parse_action_key (key : string) : result (Z * Z * Z) :=
  match split_underscore key with
  | [a; b; c] =>
      let* grind_idx := int_of_str a in
      let* volume_idx := int_of_str b in
      let* dose_idx := int_of_str c in
      Ok (grind_idx, volume_idx, dose_idx)
  | _ => Raise ValueError
  end.

Definition action_of_key (key : string) : result BrewAction :=
  let* idx := parse_action_key key in
  let '(grind_idx, volume_idx, dose_idx) := idx in
  action_from_indices grind_idx volume_idx dose_idx.

Definition _get_best_action (state_key : string) (state : BrewState) : M BrewAction :=
  let! state_q_values := q_table_getitem state_key in
  match map fst state_q_values with
  | [] => ret (get_baseline_action state)
  | k0 :: keys =>
      let best_action_key :=
        max_by (fun k => default 0.0%float (row_get state_q_values k)) k0 keys in
      lift (try_except_ValueError
              (action_of_key best_action_key)
              (Ok (get_baseline_action state)))
  end.

Definition suggest_action (state : BrewState) (rnd : draws) : M BrewAction :=
  let state_key := state_to_key state in
  let! self := get in
  let! action :=
    if (draw_random rnd <? epsilon self)%float
    then ret (get_random_action rnd)
    else _get_best_action state_key state in
  modify (set_last_state_key (Some state_key)) ;;
  let! action_key := lift (action_to_key action) in
  modify (set_last_action_key (Some action_key)) ;;
  ret action.

Definition learn_from_evaluation (evaluation : BrewEvaluation) : M unit :=
  let! self := get in
  match last_state_key self, last_action_key self with
  | Some state_key, Some action_key =>
      let! reward := lift (calculate_reward evaluation) in
      let! current_q := q_value_getitem state_key action_key in
      let new_q := (current_q + learning_rate self * (reward - current_q))%float in
      q_value_setitem state_key action_key new_q ;;
      modify (fun self =>
        set_epsilon (Py.max (min_epsilon self) (epsilon self * epsilon_decay self)%float) self)
  | _, _ => ret tt
  end.

Definition get_q_table : M (gmap string row) :=
  let! self := get in ret (q_table self).

(** The inner loop of [load_q_table] for one row of the data. *)
Definition load_row (state_key : string) (actions : row) : M unit :=
  fold_right (fun '(action_key, q_value) rest =>
                q_value_setitem state_key action_key q_value ;; rest)
             (ret tt) actions.

Definition load_q_table (q_table_data : list (string * row)) : M unit :=
  modify (set_q_table ∅) ;;
  fold_right (fun '(state_key, actions) rest => load_row state_key actions ;; rest)
             (ret tt) q_table_data.

(** [sorted(items, key=lambda x: x[1], reverse=True)]: descending, equal
    values in their original order.  [insert_desc x l] puts [x], which
    came before every element of [l], in front of the first element that
    is not greater.  This is the order of [sorted] on a row that stores
    no NaN; with a NaN, which compares false with everything, [sorted]
    may order the row otherwise, and the statements about the order carry
    the hypothesis [nan_free]. *)
Fixpoint insert_desc (x : string * float) (l : row) : row :=
  match l with
  | [] => [x]
  | y :: tl => if (snd x <? snd y)%float then y :: insert_desc x tl else x :: l
  end.

Definition sorted_desc (items : row) : row := fold_right insert_desc [] items.

(** [l[:k]]: a negative [k] counts from the end. *)
Definition slice_to {A} (k : Z) (l : list A) : list A :=
  if 0 <=? k then firstn (Z.to_nat k) l
  else firstn (length l - Z.to_nat (- k))%nat l.

(** The [for] loop over [sorted_actions]: an entry whose key does not
    parse is skipped, any other exception leaves the loop. *)
Fixpoint collect_recommendations (sorted_actions : row)
    : result (list (BrewAction * float)) :=
  match sorted_actions with
  | [] => Ok []
  | (action_key, q_value) :: rest =>
      let* here :=
        try_except_ValueError
          (let* action := action_of_key action_key in Ok [(action, q_value)])
          (Ok []) in
      let* others := collect_recommendations rest in
      Ok (here ++ others)
  end.

Definition get_action_recommendations (state : BrewState) (top_k : Z)
    : M (list (BrewAction * float)) :=
  let state_key := state_to_key state in
  let! state_q_values := q_table_getitem state_key in
  match state_q_values with
  | [] => ret [(get_baseline_action state, 0.0%float)]
  | _ =>
      let sorted_actions := slice_to top_k (sorted_desc state_q_values) in
      let! recommendations := lift (collect_recommendations sorted_actions) in
      match recommendations with
      | [] => ret [(get_baseline_action state, 0.0%float)]
      | _ => ret recommendations
      end
  end.

Definition reset_last_action : M unit :=
  modify (set_last_state_key None) ;;
  modify (set_last_action_key None).

End Agent.

Import BrewingEnvironment Agent.

(* ===================================================================== *)
(** ** Properties stated by the specification, in its own words          *)
(* ===================================================================== *)

Module Spec.

(** A provided rating outside [1,10]. *)
Definition rating_out_of_range (value : option Z) : Prop :=
  exists v, value = Some v /\ (v < 1 \/ 10 < v).

(** Some provided rating lies outside [1,10], or a provided brew duration
    is non-positive. *)
Definition invalid_evaluation
    (bitterness acidity taste_strength overall_experience : option Z)
    (brew_time : option float) (channeling : option Z) : Prop :=
  rating_out_of_range bitterness \/ rating_out_of_range acidity \/
  rating_out_of_range taste_strength \/ rating_out_of_range overall_experience \/
  rating_out_of_range channeling \/
  exists t, brew_time = Some t /\ (t <=? 0)%float = true.

(** An evaluation that a constructor call can have produced. *)
Definition valid (e : BrewEvaluation) : Prop := __post_init__ e = Ok tt.

Definition clamp (lo hi x : float) : float :=
  if (x <? lo)%float then lo else if (hi <? x)%float then hi else x.

Definition metric_score (v : Z) : float :=
  if (5 <=? v) && (v <=? 6) then 0.5%float
  else if (4 <=? v) && (v <=? 7) then 0.2%float
  else (-0.2)%float.

Definition average (l : list float) : float :=
  (fold_left PrimFloat.add l 0 / fl (Z.of_nat (length l)))%float.

Definition present (l : list (option Z)) : list Z := omap id l.

Definition primary (e : BrewEvaluation) : float :=
  match overall_experience e with
  | Some o => ((fl o - 5.5) / 4.5)%float
  | None =>
      match present [bitterness e; acidity e; taste_strength e] with
      | [] => 0.0%float
      | l => average (map metric_score l)
      end
  end.

Definition channeling_adjustment (e : BrewEvaluation) : float :=
  match channeling e with
  | None => 0%float
  | Some c => if c <=? 3 then 0.1%float else if 7 <=? c then (-0.2)%float else 0%float
  end.

Definition brew_time_adjustment (e : BrewEvaluation) : float :=
  match brew_time e with
  | None => 0%float
  | Some t =>
      if ((25 <=? t) && (t <=? 35))%float then 0.1%float
      else if ((t <? 20) || (45 <? t))%float then (-0.1)%float
      else 0%float
  end.

Definition reward (e : BrewEvaluation) : float :=
  clamp (-1.0) 1.0
    (primary e + channeling_adjustment e + brew_time_adjustment e)%float.

(** The stored value of a pair, 0.0 for an unseen one; nothing is stored
    by looking. *)
Definition q_lookup (t : gmap string row) (state_key action_key : string) : float :=
  match t !! state_key with
  | Some r => default 0.0%float (row_get r action_key)
  | None => 0.0%float
  end.

End Spec.

(* ===================================================================== *)
(** ** Vocabulary of the statements                                      *)
(* ===================================================================== *)

(** The ratings a valid evaluation can hold, and one brew time for each
    value the brew-time bonus can take. *)
Definition ratings : list (option Z) :=
  None :: map Some [1; 2; 3; 4; 5; 6; 7; 8; 9; 10].

(** One rating for each thing a taste metric can contribute: nothing,
    0.5, 0.2 or -0.2. *)
Definition metric_classes : list (option Z) := [None; Some 5; Some 4; Some 1].

Definition brew_times : list (option float) :=
  [Some 30.0%float; Some 10.0%float; None].

Definition set_brew_time (bt : option float) (e : BrewEvaluation) : BrewEvaluation :=
  mkBrewEvaluation (bitterness e) (acidity e) (taste_strength e)
    (overall_experience e) bt (channeling e).

(** What is checked of the reward of one evaluation: it is the value the
    specification describes, it lies in [-1,1], and one update from 0.0
    at rate 0.1 lands on [0.1 * reward], bit for bit. *)
Definition reward_facts (e : BrewEvaluation) : bool :=
  match calculate_reward e with
  | Ok r =>
      PrimFloat.Leibniz.eqb r (Spec.reward e) &&
      (-1 <=? r)%float && (r <=? 1)%float &&
      PrimFloat.Leibniz.eqb (0.0 + 0.1 * (r - 0.0))%float (0.1 * r)%float
  | Raise _ => false
  end.

(** [calculate_reward] under an interpreter whose [sum] compensates: only
    the fallback average is computed differently. *)
Definition calculate_reward_compensated (evaluation : BrewEvaluation) : result float :=
  match overall_experience evaluation with
  | Some _ => calculate_reward evaluation
  | None =>
      let metrics := taste_metrics evaluation in
      let reward :=
        match metrics with
        | [] => 0.0%float
        | _ => (Py.sum_compensated metrics / fl (Z.of_nat (length metrics)))%float
        end in
      let reward := (reward + _calculate_channeling_bonus evaluation)%float in
      let reward := (reward + _calculate_brew_time_bonus evaluation)%float in
      Ok (Py.max (-1.0)%float (Py.min 1.0%float reward))
  end.

Definition reward_facts_compensated (e : BrewEvaluation) : bool :=
  match calculate_reward_compensated e with
  | Ok r =>
      (-1 <=? r)%float && (r <=? 1)%float &&
      PrimFloat.Leibniz.eqb (0.0 + 0.1 * (r - 0.0))%float (0.1 * r)%float
  | Raise _ => false
  end.

(** The index triple of an action, as [action_to_key] computes it before
    formatting. *)
Definition discretize (action : BrewAction) : result (Z * Z * Z) :=
  let* grind_idx := _discretize_grind (grind_size action) in
  let* volume_idx := _discretize_volume (brew_volume action) in
  let* dose_idx := _discretize_dose (coffee_dose action) in
  Ok (grind_idx, volume_idx, dose_idx).

Definition undiscretize (idx : Z * Z * Z) : result BrewAction :=
  let '(grind_idx, volume_idx, dose_idx) := idx in
  action_from_indices grind_idx volume_idx dose_idx.

Definition round_trip (idx : Z * Z * Z) : result (Z * Z * Z) :=
  let* action := undiscretize idx in discretize action.

Definition indices (n : nat) : list Z := map Z.of_nat (seq 0 n).

Definition triple_eqb (x y : Z * Z * Z) : bool :=
  let '(a, b, c) := x in let '(a', b', c') := y in
  (a =? a') && (b =? b') && (c =? c').

Definition round_trip_ok (idx : Z * Z * Z) : bool :=
  match round_trip idx with
  | Ok idx' => triple_eqb idx' idx
  | Raise _ => false
  end.

Definition mem (i : Z) (l : list Z) : bool := existsb (Z.eqb i) l.

(** clamp(days-since-roast, 0, 30), as the specification words it. *)
Definition clamp_days (days : Z) : Z := Z.max 0 (Z.min days 30).

(** The keys of the contexts with 0 to 30 days, for both flags. *)
Definition state_keys : list string :=
  flat_map (fun flag =>
    map (fun days => state_to_key (mkBrewState flag days)) (indices 31))
  [true; false].

(** The agent is in the pending-suggestion state. *)
Definition pending (self : BrewingAgent) (state_key action_key : string) : Prop :=
  last_state_key self = Some state_key /\ last_action_key self = Some action_key.

Definition idle (self : BrewingAgent) : Prop :=
  last_state_key self = None \/ last_action_key self = None.

(** The agent a pending [learn_from_evaluation] leaves behind. *)
Definition learned (self : BrewingAgent) (state_key action_key : string)
    (reward : float) : BrewingAgent :=
  let r0 := default [] (q_table self !! state_key) in
  let current_q := fst (row_getitem r0 action_key) in
  let new_q := (current_q + learning_rate self * (reward - current_q))%float in
  mkBrewingAgent (learning_rate self) (discount_factor self)
    (Py.max (min_epsilon self) (epsilon self * epsilon_decay self)%float)
    (epsilon_decay self) (min_epsilon self)
    (<[state_key := row_setitem (snd (row_getitem r0 action_key)) action_key new_q]>
       (q_table self))
    (last_state_key self) (last_action_key self).

(** An agent that has just been offered the baseline in context
    (not first brew, 3 days). *)
Definition pending_example : BrewingAgent :=
  set_last_action_key (Some "14_5_2")
    (set_last_state_key (Some "False_3") default_agent).

(** One decay of epsilon, as the last statement of
    [learn_from_evaluation] computes it. *)
Definition decay_step (min_epsilon epsilon_decay epsilon : float) : float :=
  Py.max min_epsilon (epsilon * epsilon_decay)%float.

(** Successive calls of [learn_from_evaluation]. *)
Fixpoint learn_all (es : list BrewEvaluation) : M unit :=
  match es with
  | [] => ret tt
  | e :: rest => learn_from_evaluation e ;; learn_all rest
  end.

(** A method call with its arguments, and what it gives back. *)
Inductive call : Type :=
  | SuggestAction (state : BrewState) (rnd : draws)
  | LearnFromEvaluation (evaluation : BrewEvaluation)
  | GetActionRecommendations (state : BrewState) (top_k : Z)
  | GetQTable
  | LoadQTable (q_table_data : list (string * row))
  | ResetLastAction.

Inductive reply : Type :=
  | Action (r : result BrewAction)
  | Nothing (r : result unit)
  | Recommendations (r : result (list (BrewAction * float)))
  | Table (r : result (gmap string row)).

Definition answer {A} (wrap : result A -> reply) (m : M A)
    (self : BrewingAgent) : reply * BrewingAgent :=
  (wrap (fst (m self)), snd (m self)).

Definition run_call (c : call) : BrewingAgent -> reply * BrewingAgent :=
  match c with
  | SuggestAction state rnd => answer Action (suggest_action state rnd)
  | LearnFromEvaluation e => answer Nothing (learn_from_evaluation e)
  | GetActionRecommendations state top_k =>
      answer Recommendations (get_action_recommendations state top_k)
  | GetQTable => answer Table get_q_table
  | LoadQTable data => answer Nothing (load_q_table data)
  | ResetLastAction => answer Nothing reset_last_action
  end.

Fixpoint run_calls (cs : list call) (self : BrewingAgent)
    : list reply * BrewingAgent :=
  match cs with
  | [] => ([], self)
  | c :: rest =>
      let '(r, self') := run_call c self in
      let '(rs, self'') := run_calls rest self' in
      (r :: rs, self'')
  end.

(** Two agents that differ at most in their discount factor. *)
Definition same_but_discount (a b : BrewingAgent) : Prop :=
  learning_rate a = learning_rate b /\ epsilon a = epsilon b /\
  epsilon_decay a = epsilon_decay b /\ min_epsilon a = min_epsilon b /\
  q_table a = q_table b /\
  last_state_key a = last_state_key b /\ last_action_key a = last_action_key b.

(** A computation that neither reads nor writes the discount factor. *)
Definition blind {A} (m : M A) : Prop :=
  forall g self,
    m (set_discount_factor g self)
    = (fst (m self), set_discount_factor g (snd (m self))).

(** An action key with the wrong number of underscore-separated fields,
    or with a field that is not an integer. *)
Definition malformed (key : string) : Prop :=
  length (split_underscore key) <> 3%nat \/
  Exists (fun part => int_of_str part = Raise ValueError) (split_underscore key).

Definition well_formed (key : string) : bool :=
  match parse_action_key key with Ok _ => true | Raise _ => false end.

(** A key that names a triple of valid indices. *)
Definition valid_key (key : string) : Prop :=
  exists g v d, parse_action_key key = Ok (g, v, d) /\
    0 <= g < 30 /\ 0 <= v < 10 /\ 0 <= d < 10.

(** The key [_get_best_action] selects in a row. *)
Definition selected_key (r : row) : option string :=
  match map fst r with
  | [] => None
  | k0 :: keys => Some (max_by (fun k => default 0.0%float (row_get r k)) k0 keys)
  end.

Definition is_ok {A} (r : result A) : bool :=
  match r with Ok _ => true | Raise _ => false end.

(** The restored table of the counterexample: one state with a malformed
    key of value 1.0 and the key 1_2_3 of value 0.5. *)
Definition corrupt_data : list (string * row) :=
  [("False_0", [("bad", 1.0%float); ("1_2_3", 0.5%float)])].

Definition restored : BrewingAgent := snd (load_q_table corrupt_data default_agent).

(** The text [action_to_key] writes for an index triple. *)
Definition format_key (g v d : Z) : string :=
  str_int g +:+ "_" +:+ str_int v +:+ "_" +:+ str_int d.

Fixpoint all_digits (s : string) : bool :=
  match s with
  | EmptyString => true
  | String c tl => match digit_of c with Some _ => all_digits tl | None => false end
  end.

Fixpoint no_underscore (s : string) : bool :=
  match s with
  | EmptyString => true
  | String c tl => negb (Ascii.eqb c "_") && no_underscore tl
  end.

(** Every key of the table, and the cursor, names valid indices. *)
Definition keys_valid (self : BrewingAgent) : Prop :=
  (forall s r, q_table self !! s = Some r -> Forall (fun kv => valid_key (fst kv)) r) /\
  (forall k, last_action_key self = Some k -> valid_key k).

(** An action within the bounds of the environment. *)
Definition in_bounds (action : BrewAction) : Prop :=
  1 <= grind_size action <= 30 /\
  (25.0 <=? brew_volume action)%float = true /\
  (brew_volume action <=? 50.0)%float = true /\
  (15.0 <=? coffee_dose action)%float = true /\
  (coffee_dose action <=? 25.0)%float = true.

Definition in_boundsb (action : BrewAction) : bool :=
  (1 <=? grind_size action) && (grind_size action <=? 30) &&
  (25.0 <=? brew_volume action)%float && (brew_volume action <=? 50.0)%float &&
  (15.0 <=? coffee_dose action)%float && (coffee_dose action <=? 25.0)%float.

Definition table_keys_valid (t : gmap string row) : Prop :=
  forall s r, t !! s = Some r -> Forall (fun kv => valid_key (fst kv)) r.

(** Data handed to [load_q_table] in which every key names valid indices. *)
Definition data_valid (data : list (string * row)) : Prop :=
  Forall (fun sr => Forall (fun kv => valid_key (fst kv)) (snd sr)) data.

Definition call_valid (c : call) : Prop :=
  match c with
  | LoadQTable data => data_valid data
  | _ => True
  end.

(** One application of the update rule. *)
Definition q_update (learning_rate reward q : float) : float :=
  (q + learning_rate * (reward - q))%float.

(** [data.get(s)] for the items of a dict. *)
Fixpoint assoc (s : string) (data : list (string * row)) : option row :=
  match data with
  | [] => None
  | (s', r) :: tl => if String.eqb s' s then Some r else assoc s tl
  end.

(** Items as a dict of dicts yields them: no state key and, within a row,
    no action key occurs twice. *)
Definition dict_like (data : list (string * row)) : Prop :=
  NoDup (map fst data) /\ Forall (fun sr => NoDup (map fst (snd sr))) data.

Definition rows_distinct (t : gmap string row) : Prop :=
  forall s r, t !! s = Some r -> NoDup (map fst r).

(** A row as [load_q_table] keeps it: an empty one is not stored. *)
Definition nonempty_row (o : option row) : option row :=
  match o with
  | Some [] => None
  | other => other
  end.

(** The first step of [suggest_action]: the action drawn or looked up. *)
Definition chosen (state : BrewState) (rnd : draws) (self : BrewingAgent)
    : result BrewAction * BrewingAgent :=
  if (draw_random rnd <? epsilon self)%float
  then (Ok (get_random_action rnd), self)
  else _get_best_action (state_to_key state) state self.

(** [evaluation.overall_experience = o] and [evaluation.channeling = c]
    on an existing evaluation, as [do_evaluate] assigns them. *)
Definition set_overall (o : option Z) (e : BrewEvaluation) : BrewEvaluation :=
  mkBrewEvaluation (bitterness e) (acidity e) (taste_strength e)
    o (brew_time e) (channeling e).

Definition set_channeling (c : option Z) (e : BrewEvaluation) : BrewEvaluation :=
  mkBrewEvaluation (bitterness e) (acidity e) (taste_strength e)
    (overall_experience e) (brew_time e) c.

(** One channeling rating for each value the channeling bonus can take,
    in the order of the ratings. *)
Definition channeling_classes : list Z := [3; 5; 7].

Definition channeling_class (c : Z) : Z :=
  if c <=? LOW_CHANNELING_THRESHOLD then 3
  else if HIGH_CHANNELING_THRESHOLD <=? c then 7 else 5.

Definition overall_values : list Z := [1; 2; 3; 4; 5; 6; 7; 8; 9; 10].

(** The rewards of two evaluations compare as [cmp] says. *)
Definition rewards (cmp : float -> float -> bool) (e e' : BrewEvaluation) : bool :=
  match calculate_reward e, calculate_reward e' with
  | Ok r, Ok r' => cmp r r'
  | _, _ => false
  end.

(** Rising from [o] to [o'] does not lower the reward, and raises it
    unless it is clamped at -1. *)
Definition overall_order (o o' : Z) (r r' : float) : bool :=
  (o' <? o) ||
  ((r <=? r')%float &&
   ((o =? o') || (r <? r')%float || PrimFloat.Leibniz.eqb r' (-1.0)%float)).

Definition ideal_brew_time (t : float) : Prop :=
  (fl IDEAL_BREW_TIME_MIN <=? t)%float = true /\
  (t <=? fl IDEAL_BREW_TIME_MAX)%float = true.

Definition is_nan (x : float) : bool :=
  match Prim2SF x with S754_nan => true | _ => false end.

(** A row that stores no NaN. *)
Definition nan_free (r : row) : Prop :=
  Forall (fun kv => is_nan (snd kv) = false) r.

(** Values listed from the largest to the smallest. *)
Fixpoint descending (l : list float) : Prop :=
  match l with
  | [] => True
  | x :: tl => Forall (fun y => (y <=? x)%float = true) tl /\ descending tl
  end.

(** A brew time outside the acceptable window. *)
Definition poor_brew_time (t : float) : Prop :=
  (t <? fl MIN_BREW_TIME)%float = true \/ (fl MAX_BREW_TIME <? t)%float = true.

(** The brew times of [brew_times] from the worst bonus to the best. *)
Definition brew_time_rank (bt : option float) : Z :=
  match bt with
  | None => 1
  | Some t => if (t <? 20)%float then 0 else 2
  end.

(** An agent with a pending suggestion whose restored table holds, for
    the context (not first brew, 0 days), one key with the given indices. *)
Definition restored_with (g v d : Z) : BrewingAgent :=
  set_q_table (<["False_0" := [(format_key g v d, 1.0%float)]]> ∅) pending_example.

(* --------------------------------------------------------------------- *)
(** *** cli.py and persistence.py                                        *)
(* --------------------------------------------------------------------- *)

(** [s.strip()] *)
Definition strip (s : string) : string := lstrip (rstrip s).

(** The digits of [int(s)] for any text: as [digits], and one underscore
    may stand between two digits. *)
Fixpoint grouped_digits (s : string) (acc : Z) (after_digit : bool) : option Z :=
  match s with
  | EmptyString => if after_digit then Some acc else None
  | String c tl =>
      if Ascii.eqb c "_" then
        if after_digit then grouped_digits tl acc false else None
      else
        match digit_of c with
        | Some d => grouped_digits tl (10 * acc + d) true
        | None => None
        end
  end.

(** [int(s)] in base ten: surrounding white space (that of [int], see
    [is_int_space]), an optional sign, then digits; every failure is a
    ValueError. *)
Definition int_of_text (s : string) : result Z :=
  let number t :=
    match grouped_digits t 0 false with
    | Some z => Ok z
    | None => Raise ValueError
    end in
  match int_lstrip (int_rstrip s) with
  | String "-" tl => let* z := number tl in Ok (- z)
  | String "+" tl => number tl
  | t => number t
  end.

(** [CarlaShell._get_rating]: the lines still to be read stand for the
    terminal; [input] takes the first, and raises EOFError, which nothing
    here catches, when there is none ([None]).  The loop runs until a
    line is empty or holds a rating from [MIN_RATING] to [MAX_RATING]. *)
Fixpoint _get_rating (default : option Z) (inputs : list string)
    : option (option Z * list string) :=
  match inputs with
  | [] => None
  | line :: rest =>
      match strip line with
      | EmptyString => Some (default, rest)
      | response =>
          match int_of_text response with
          | Ok rating =>
              if (MIN_RATING <=? rating) && (rating <=? MAX_RATING)
              then Some (Some rating, rest)
              else _get_rating default rest
          | Raise _ => _get_rating default rest
          end
      end
  end.

(** The evaluation [do_evaluate] assembles: a [BrewEvaluation()] whose
    fields are then assigned one by one, without any check, from five
    calls of [_get_rating] and the brew-time line.  [float_of_text] is
    [float(s)], [None] for its ValueError. *)
Definition do_evaluate_evaluation
    (float_of_text : string -> option float) (inputs : list string)
    : option (BrewEvaluation * list string) :=
  '(bitterness, inputs) ← _get_rating (Some 5) inputs;
  '(acidity, inputs) ← _get_rating (Some 5) inputs;
  '(taste_strength, inputs) ← _get_rating (Some 6) inputs;
  '(overall_experience, inputs) ← _get_rating (Some 7) inputs;
  '(channeling, inputs) ← _get_rating None inputs;
  match inputs with
  | [] => None
  | line :: rest =>
      let brew_time :=
        match strip line with
        | EmptyString => 30.0%float
        | brew_time_input =>
            match float_of_text brew_time_input with
            | Some t => t
            | None => 30.0%float
            end
        end in
      Some (mkBrewEvaluation bitterness acidity taste_strength
              overall_experience (Some brew_time) channeling, rest)
  end.

(** [float(s)] on the texts that [int(s)] reads too. *)
Definition float_of_integer_text (s : string) : option float :=
  match int_of_text s with
  | Ok z => Some (fl z)
  | Raise _ => None
  end.

Module Persistence.

Record BrewRecord : Type := mkBrewRecord {
  action : BrewAction;
  state : BrewState;
  timestamp : Z;
  evaluation : option BrewEvaluation
}.

(** The dicts of the records file, by the keys [_record_to_dict] writes.
    [json.dump] and [json.load] keep their ints, floats, booleans and
    [None]; the text [isoformat] writes for the time stamp stands here as
    the instant [fromisoformat] reads from it. *)
Record action_dict : Type := mk_action_dict {
  d_grind_size : Z;
  d_brew_volume : float;
  d_coffee_dose : float
}.

Record state_dict : Type := mk_state_dict {
  d_is_first_brew : bool;
  d_days_since_roast : Z
}.

Record evaluation_dict : Type := mk_evaluation_dict {
  d_bitterness : option Z;
  d_acidity : option Z;
  d_taste_strength : option Z;
  d_overall_experience : option Z;
  d_brew_time : option float;
  d_channeling : option Z
}.

Record record_dict : Type := mk_record_dict {
  d_action : action_dict;
  d_state : state_dict;
  d_timestamp : Z;
  d_evaluation : option evaluation_dict
}.

Definition _evaluation_to_dict (evaluation : BrewEvaluation) : evaluation_dict :=
  mk_evaluation_dict (bitterness evaluation) (acidity evaluation)
    (taste_strength evaluation) (overall_experience evaluation)
    (brew_time evaluation) (channeling evaluation).

Definition _record_to_dict (record : BrewRecord) : record_dict :=
  mk_record_dict
    (mk_action_dict (grind_size (action record)) (brew_volume (action record))
       (coffee_dose (action record)))
    (mk_state_dict (is_first_brew (state record)) (days_since_roast (state record)))
    (timestamp record)
    (match evaluation record with
     | Some e => Some (_evaluation_to_dict e)
     | None => None
     end).

(** Building the [BrewEvaluation] from the evaluation dict runs
    [__post_init__] again. *)
Definition _dict_to_record (data : record_dict) : result BrewRecord :=
  let action :=
    mkBrewAction (d_grind_size (d_action data)) (d_brew_volume (d_action data))
      (d_coffee_dose (d_action data)) in
  let state :=
    mkBrewState (d_is_first_brew (d_state data)) (d_days_since_roast (d_state data)) in
  let timestamp := d_timestamp data in
  let* evaluation :=
    match d_evaluation data with
    | Some d =>
        let* e := BrewEvaluation_init (d_bitterness d) (d_acidity d)
                    (d_taste_strength d) (d_overall_experience d)
                    (d_brew_time d) (d_channeling d) in
        Ok (Some e)
    | None => Ok None
    end in
  Ok (mkBrewRecord action state timestamp evaluation).

(** The methods of [UserStorage] on the content of the records file, the
    empty list when there is no file. *)
Definition save_brew_record (record : BrewRecord) (records : list record_dict)
    : list record_dict :=
  records ++ [_record_to_dict record].

Definition get_last_brew_record (records : list record_dict)
    : result (option BrewRecord) :=
  match last records with
  | None => Ok None
  | Some data => let* record := _dict_to_record data in Ok (Some record)
  end.

Definition update_last_brew_evaluation (evaluation : BrewEvaluation)
    (records : list record_dict) : bool * list record_dict :=
  match last records with
  | None => (false, records)
  | Some data =>
      (true,
       removelast records ++
       [mk_record_dict (d_action data) (d_state data) (d_timestamp data)
          (Some (_evaluation_to_dict evaluation))])
  end.

Definition set_evaluation (evaluation : option BrewEvaluation) (record : BrewRecord)
    : BrewRecord :=
  mkBrewRecord (action record) (state record) (timestamp record) evaluation.

End Persistence.

(** A line [_get_rating] answers with a new prompt: it is not blank and
    holds no rating from 1 to 10. *)
Definition asked_again (line : string) : Prop :=
  strip line <> EmptyString /\
  forall v, int_of_text (strip line) = Ok v -> ~ (MIN_RATING <= v <= MAX_RATING).

(** A suggestion followed by two evaluations. *)
Definition learning_session : list call :=
  [SuggestAction (mkBrewState false 3) (mkDraws 0.5 7 30 20);
   LearnFromEvaluation (mkBrewEvaluation None None None (Some 9) None None);
   LearnFromEvaluation (mkBrewEvaluation None None None (Some 2) None None)].

(** The smallest positive normal double, 2^-1022. *)
Definition smallest_normal : float := 0x1p-1022%float.

(** The record reached after [n] shifts of [P]. *)
Definition shifted (P n : Z) (r : shr_record) : Prop :=
  exists rem,
    P = shr_m r * 2 ^ n + rem /\ 0 <= rem < 2 ^ n /\ 0 <= shr_m r /\
    (shr_r r = true <-> 2 ^ n <= 2 * rem) /\
    (shr_s r = true <-> rem <> 0 /\ 2 * rem <> 2 ^ n).

(** A result that is +0 or a positive finite number not above
    (mx, ex), and below it when that is above the smallest normal. *)
Definition decayed (mx : positive) (ex : Z) (r : spec_float) : Prop :=
  match r with
  | S754_zero false => True
  | S754_finite false m e =>
      (e < ex \/ e = ex /\ Zpos m <= Zpos mx) /\
      (2 ^ 52 < Zpos mx \/ -1074 < ex -> e < ex \/ e = ex /\ Zpos m < Zpos mx)
  | _ => False
  end.

(** The place of a positive finite number among the floats. *)
Definition rank (x : spec_float) : Z :=
  match x with
  | S754_finite false m e => (e + 1074) * 2 ^ 53 + Zpos m
  | _ => 0
  end.

(** Where the decay of epsilon comes to rest: at the floor [m], or at a
    value above the floor and not above the smallest normal double that
    the multiplication by the decay [d] rounds back to itself. *)
Definition resting (m d L : float) : Prop :=
  L = m \/
  (m <? L)%float = true /\ (L <=? smallest_normal)%float = true /\
  (L * d)%float = L.

(** An agent with a pending suggestion whose floor is the smallest
    positive double and whose epsilon is three times that. *)
Definition stalled : BrewingAgent :=
  set_last_action_key (Some "14_5_2")
    (set_last_state_key (Some "False_3")
       (__init__ 0.1%float 0.95%float 0x3p-1074%float 0.9%float 0x1p-1074%float)).

(** A key from which an action can be built. *)
Definition decodable (key : string) : Prop :=
  exists action, action_of_key key = Ok action.

(* ===================================================================== *)
(** ** Validation at construction                                        *)
(* ===================================================================== *)

Section Validation.

Lemma rating_rejected_true (value : option Z) :
  rating_rejected value = true <-> Spec.rating_out_of_range value.
Proof.
  unfold rating_rejected, Spec.rating_out_of_range, MIN_RATING, MAX_RATING.
  destruct value as [v|]; split.
  - intros H. exists v. split; [reflexivity|].
    apply negb_true_iff, andb_false_iff in H.
    destruct H as [H|H]; apply Z.leb_gt in H; lia.
  - intros (w & [= <-] & H). apply negb_true_iff, andb_false_iff.
    destruct H; [left|right]; apply Z.leb_gt; lia.
  - discriminate.
  - intros (w & [=] & _).
Qed.

Lemma rating_rejected_false (value : option Z) :
  rating_rejected value = false <-> ~ Spec.rating_out_of_range value.
Proof.
  rewrite <- rating_rejected_true. destruct (rating_rejected value); split; congruence.
Qed.

Lemma brew_time_rejected_true (value : option float) :
  brew_time_rejected value = true <->
  exists t, value = Some t /\ (t <=? 0)%float = true.
Proof.
  destruct value as [t|]; simpl; split.
  - eauto.
  - intros (t' & [= <-] & H). exact H.
  - discriminate.
  - intros (t' & [=] & _).
Qed.

Lemma post_init_cases (e : BrewEvaluation) :
  __post_init__ e = Ok tt \/ __post_init__ e = Raise ValueError.
Proof.
  unfold __post_init__; simpl.
  repeat match goal with
         | |- context [rating_rejected ?v] => destruct (rating_rejected v); simpl; auto
         end.
  destruct (brew_time_rejected _); auto.
Qed.

Lemma post_init_ok (e : BrewEvaluation) :
  __post_init__ e = Ok tt <->
  rating_rejected (bitterness e) = false /\ rating_rejected (acidity e) = false /\
  rating_rejected (taste_strength e) = false /\
  rating_rejected (overall_experience e) = false /\
  rating_rejected (channeling e) = false /\ brew_time_rejected (brew_time e) = false.
Proof.
  unfold __post_init__; simpl.
  destruct (rating_rejected (bitterness e)), (rating_rejected (acidity e)),
    (rating_rejected (taste_strength e)), (rating_rejected (overall_experience e)),
    (rating_rejected (channeling e)), (brew_time_rejected (brew_time e));
    simpl; split; intros H; try discriminate H; try reflexivity;
    try (repeat split; reflexivity); decompose [and] H; discriminate.
Qed.

Lemma post_init_raises (e : BrewEvaluation) :
  __post_init__ e = Raise ValueError <->
  Spec.invalid_evaluation (bitterness e) (acidity e) (taste_strength e)
    (overall_experience e) (brew_time e) (channeling e).
Proof.
  unfold Spec.invalid_evaluation.
  rewrite <- !rating_rejected_true, <- brew_time_rejected_true.
  destruct (post_init_cases e) as [H|H]; rewrite H.
  - apply post_init_ok in H. destruct H as (H1 & H2 & H3 & H4 & H5 & H6).
    rewrite H1, H2, H3, H4, H5, H6. split; [discriminate|].
    intros [?|[?|[?|[?|[?|?]]]]]; discriminate.
  - split; [|reflexivity]. intros _.
    destruct (rating_rejected (bitterness e)) eqn:E1; [auto|].
    destruct (rating_rejected (acidity e)) eqn:E2; [auto|].
    destruct (rating_rejected (taste_strength e)) eqn:E3; [auto|].
    destruct (rating_rejected (overall_experience e)) eqn:E4; [auto 6|].
    destruct (rating_rejected (channeling e)) eqn:E5; [auto 6|].
    destruct (brew_time_rejected (brew_time e)) eqn:E6; [auto 7|].
    exfalso. assert (K : __post_init__ e = Ok tt) by (apply post_init_ok; auto 7).
    congruence.
Qed.

Lemma rating_out_of_range_masked (keep : bool) (value : option Z) :
  Spec.rating_out_of_range (if keep then value else None) ->
  Spec.rating_out_of_range value.
Proof. destruct keep; [tauto|]. intros (v & [=] & _). Qed.

Lemma invalid_masked (kb ka kt ko kbt kch : bool) b a t o bt ch :
  Spec.invalid_evaluation
    (if kb then b else None) (if ka then a else None) (if kt then t else None)
    (if ko then o else None) (if kbt then bt else None) (if kch then ch else None) ->
  Spec.invalid_evaluation b a t o bt ch.
Proof.
  unfold Spec.invalid_evaluation.
  intros [H|[H|[H|[H|[H|H]]]]];
    try (apply rating_out_of_range_masked in H; tauto).
  destruct kbt; [tauto|]. destruct H as (x & [=] & _).
Qed.

(** C6. Constructing a BrewEvaluation raises (a ValueError) exactly when some
    provided rating among bitterness, acidity, taste_strength,
    overall_experience, channeling is outside [1,10] or a provided brew
    time is non-positive; otherwise the object holds the six values as
    given, none of them moved into range; and leaving out any of the
    fields of an accepted evaluation, up to all six, is accepted too. *)
Theorem C6_validation_at_construction :
  (forall b a t o bt ch,
     (BrewEvaluation_init b a t o bt ch = Raise ValueError
        <-> Spec.invalid_evaluation b a t o bt ch) /\
     (BrewEvaluation_init b a t o bt ch = Ok (mkBrewEvaluation b a t o bt ch)
        <-> ~ Spec.invalid_evaluation b a t o bt ch) /\
     (raises (BrewEvaluation_init b a t o bt ch)
        <-> Spec.invalid_evaluation b a t o bt ch)) /\
  (forall (kb ka kt ko kbt kch : bool) b a t o bt ch,
     ~ Spec.invalid_evaluation b a t o bt ch ->
     ~ raises (BrewEvaluation_init
                 (if kb then b else None) (if ka then a else None)
                 (if kt then t else None) (if ko then o else None)
                 (if kbt then bt else None) (if kch then ch else None))) /\
  BrewEvaluation_init None None None None None None
    = Ok (mkBrewEvaluation None None None None None None).
Proof.
  assert (main : forall b a t o bt ch,
     (BrewEvaluation_init b a t o bt ch = Raise ValueError
        <-> Spec.invalid_evaluation b a t o bt ch) /\
     (BrewEvaluation_init b a t o bt ch = Ok (mkBrewEvaluation b a t o bt ch)
        <-> ~ Spec.invalid_evaluation b a t o bt ch) /\
     (raises (BrewEvaluation_init b a t o bt ch)
        <-> Spec.invalid_evaluation b a t o bt ch)).
  { intros b a t o bt ch.
    pose proof (post_init_raises (mkBrewEvaluation b a t o bt ch)) as R.
    simpl in R. unfold BrewEvaluation_init.
    destruct (post_init_cases (mkBrewEvaluation b a t o bt ch)) as [H|H];
      rewrite H in *; simpl.
    - repeat split; try tauto; try discriminate.
      + intros I. apply R in I. discriminate.
      + intros _ I. apply R in I. discriminate.
      + intros I. apply R in I. discriminate.
    - assert (I : Spec.invalid_evaluation b a t o bt ch) by (apply R; reflexivity).
      repeat split; try tauto; try discriminate. }
  split; [exact main|]. split.
  - intros kb ka kt ko kbt kch b a t o bt ch H Rs.
    apply main in Rs. apply invalid_masked in Rs. contradiction.
  - reflexivity.
Qed.

End Validation.

(* ===================================================================== *)
(** ** The reward                                                        *)
(* ===================================================================== *)

Section Reward.

(** With an overall rating the three taste metrics are not read, so the
    check runs over them only when it is absent. *)
Lemma reward_facts_with_overall_all :
  forallb (fun o => forallb (fun ch => forallb (fun bt =>
    reward_facts (mkBrewEvaluation None None None o bt ch))
  brew_times) ratings) ratings = true.
Proof. vm_compute. reflexivity. Qed.

Lemma reward_facts_without_overall_all :
  forallb (fun b => forallb (fun a => forallb (fun t =>
  forallb (fun ch => forallb (fun bt =>
    reward_facts (mkBrewEvaluation b a t None bt ch))
  brew_times) ratings) metric_classes) metric_classes) metric_classes = true.
Proof. vm_compute. reflexivity. Qed.

(** A taste metric is read only through what it contributes. *)
Lemma metric_class (value : option Z) :
  exists value', In value' metric_classes /\
    metric_contribution value = metric_contribution value'.
Proof.
  unfold metric_classes. destruct value as [v|]; [|exists None; simpl; auto].
  unfold metric_contribution at 1.
  destruct ((IDEAL_METRIC_MIN <=? v) && (v <=? IDEAL_METRIC_MAX)).
  - exists (Some 5). simpl; auto.
  - destruct ((ACCEPTABLE_METRIC_MIN <=? v) && (v <=? ACCEPTABLE_METRIC_MAX)).
    + exists (Some 4). simpl; auto.
    + exists (Some 1). simpl; auto 6.
Qed.

Lemma contribution_score (value : option Z) :
  metric_contribution value = map Spec.metric_score (Spec.present [value]).
Proof.
  destruct value as [v|]; [|reflexivity].
  unfold metric_contribution, Spec.metric_score, IDEAL_METRIC_MIN, IDEAL_METRIC_MAX,
    ACCEPTABLE_METRIC_MIN, ACCEPTABLE_METRIC_MAX. simpl.
  destruct ((5 <=? v) && (v <=? 6)); [reflexivity|].
  destruct ((4 <=? v) && (v <=? 7)); reflexivity.
Qed.

Lemma taste_metrics_scores (e : BrewEvaluation) :
  taste_metrics e
  = map Spec.metric_score
      (Spec.present [bitterness e; acidity e; taste_strength e]).
Proof.
  unfold taste_metrics. rewrite !contribution_score, <- !map_app. f_equal.
  destruct (bitterness e), (acidity e), (taste_strength e); reflexivity.
Qed.

Lemma spec_primary_fallback (e : BrewEvaluation) :
  overall_experience e = None ->
  Spec.primary e
  = match taste_metrics e with [] => 0.0%float | l => Spec.average l end.
Proof.
  intros H. unfold Spec.primary. rewrite H, taste_metrics_scores.
  destruct (Spec.present _); reflexivity.
Qed.

Lemma reward_facts_taste (e e' : BrewEvaluation) :
  overall_experience e = None -> overall_experience e' = None ->
  taste_metrics e = taste_metrics e' -> channeling e = channeling e' ->
  brew_time e = brew_time e' ->
  reward_facts e = reward_facts e'.
Proof.
  intros Ho Ho' Hm Hc Hb.
  unfold reward_facts, calculate_reward, _calculate_metrics_reward, Spec.reward,
    Spec.channeling_adjustment, Spec.brew_time_adjustment,
    _calculate_channeling_bonus, _calculate_brew_time_bonus.
  rewrite !spec_primary_fallback by assumption.
  rewrite Ho, Ho', Hm, Hc, Hb. reflexivity.
Qed.

Lemma taste_metrics_class b a t bt ch :
  exists b' a' t',
    In b' metric_classes /\ In a' metric_classes /\ In t' metric_classes /\
    taste_metrics (mkBrewEvaluation b a t None bt ch)
    = taste_metrics (mkBrewEvaluation b' a' t' None bt ch).
Proof.
  destruct (metric_class b) as (b' & Hb & Eb).
  destruct (metric_class a) as (a' & Ha & Ea).
  destruct (metric_class t) as (t' & Ht & Et).
  exists b', a', t'. repeat (split; [assumption|]).
  unfold taste_metrics. cbn [bitterness acidity taste_strength].
  rewrite Eb, Ea, Et. reflexivity.
Qed.

Lemma rating_in_ratings (value : option Z) :
  rating_rejected value = false -> In value ratings.
Proof.
  unfold rating_rejected, MIN_RATING, MAX_RATING.
  destruct value as [v|]; [|intros _; left; reflexivity].
  intros H. apply negb_false_iff, andb_true_iff in H.
  destruct H as [H1 H2]. apply Z.leb_le in H1, H2.
  assert (K : v = 1 \/ v = 2 \/ v = 3 \/ v = 4 \/ v = 5 \/ v = 6 \/
              v = 7 \/ v = 8 \/ v = 9 \/ v = 10) by lia.
  unfold ratings; simpl.
  repeat (destruct K as [K|K]; [subst v; auto 12|]). subst v; auto 12.
Qed.

Lemma brew_time_bonus_cases (e : BrewEvaluation) :
  exists bt, In bt brew_times /\
    _calculate_brew_time_bonus e = _calculate_brew_time_bonus (set_brew_time bt e).
Proof.
  unfold _calculate_brew_time_bonus, brew_times. simpl.
  destruct (brew_time e) as [t|]; [|exists None; simpl; auto].
  destruct ((fl IDEAL_BREW_TIME_MIN <=? t) && (t <=? fl IDEAL_BREW_TIME_MAX))%float.
  - exists (Some 30.0%float). simpl; auto.
  - destruct ((t <? fl MIN_BREW_TIME) || (fl MAX_BREW_TIME <? t))%float.
    + exists (Some 10.0%float). simpl; auto.
    + exists None. simpl; auto.
Qed.

Lemma spec_brew_time_adjustment (e : BrewEvaluation) :
  Spec.brew_time_adjustment e = _calculate_brew_time_bonus e.
Proof. reflexivity. Qed.

Lemma calculate_reward_set_brew_time (e : BrewEvaluation) (bt : option float) :
  _calculate_brew_time_bonus e = _calculate_brew_time_bonus (set_brew_time bt e) ->
  reward_facts (set_brew_time bt e) = reward_facts e.
Proof.
  intros H. unfold reward_facts, calculate_reward, Spec.reward.
  change (Spec.brew_time_adjustment (set_brew_time bt e))
    with (_calculate_brew_time_bonus (set_brew_time bt e)).
  change (Spec.brew_time_adjustment e) with (_calculate_brew_time_bonus e).
  rewrite <- H. reflexivity.
Qed.

Lemma reward_facts_overall (b a t : option Z) (o : Z) bt ch :
  reward_facts (mkBrewEvaluation b a t (Some o) bt ch) =
  reward_facts (mkBrewEvaluation None None None (Some o) bt ch).
Proof. reflexivity. Qed.

Lemma forallb_In {A} (f : A -> bool) (l : list A) (x : A) :
  forallb f l = true -> In x l -> f x = true.
Proof. intros H. exact (proj1 (forallb_forall f l) H x). Qed.

Lemma reward_facts_with_overall o ch bt :
  In o ratings -> In ch ratings -> In bt brew_times ->
  reward_facts (mkBrewEvaluation None None None o bt ch) = true.
Proof.
  intros Ho Hc Hbt.
  pose proof (forallb_In _ _ _ reward_facts_with_overall_all Ho) as A.
  cbv beta in A.
  pose proof (forallb_In _ _ _ A Hc) as B. cbv beta in B.
  exact (forallb_In _ _ _ B Hbt).
Qed.

Lemma reward_facts_without_overall b a t ch bt :
  In ch ratings -> In bt brew_times ->
  reward_facts (mkBrewEvaluation b a t None bt ch) = true.
Proof.
  intros Hc Hbt.
  destruct (taste_metrics_class b a t bt ch) as (b' & a' & t' & Hb & Ha & Ht & E).
  rewrite (reward_facts_taste _ (mkBrewEvaluation b' a' t' None bt ch))
    by (try reflexivity; exact E).
  pose proof (forallb_In _ _ _ reward_facts_without_overall_all Hb) as A.
  cbv beta in A.
  pose proof (forallb_In _ _ _ A Ha) as B. cbv beta in B.
  pose proof (forallb_In _ _ _ B Ht) as C. cbv beta in C.
  pose proof (forallb_In _ _ _ C Hc) as D. cbv beta in D.
  exact (forallb_In _ _ _ D Hbt).
Qed.

Lemma valid_reward_facts (e : BrewEvaluation) :
  Spec.valid e -> reward_facts e = true.
Proof.
  intros V. apply post_init_ok in V. destruct V as (Vb & Va & Vt & Vo & Vc & _).
  apply rating_in_ratings in Vb, Va, Vt, Vo, Vc.
  destruct (brew_time_bonus_cases e) as (bt & Hbt & E).
  apply calculate_reward_set_brew_time in E. rewrite <- E. clear E.
  destruct e as [b a t o bt0 ch]; unfold set_brew_time.
  cbn [bitterness acidity taste_strength overall_experience channeling] in *.
  destruct o as [o|].
  - rewrite reward_facts_overall. apply reward_facts_with_overall; assumption.
  - apply reward_facts_without_overall; assumption.
Qed.

Lemma valid_reward (e : BrewEvaluation) :
  Spec.valid e ->
  calculate_reward e = Ok (Spec.reward e) /\
  (-1 <=? Spec.reward e)%float = true /\ (Spec.reward e <=? 1)%float = true /\
  (0.0 + 0.1 * (Spec.reward e - 0.0))%float = (0.1 * Spec.reward e)%float.
Proof.
  intros V. apply valid_reward_facts in V. unfold reward_facts in V.
  destruct (calculate_reward e) as [r|]; [|discriminate].
  repeat (apply andb_true_iff in V; destruct V as [V ?]).
  apply FloatAxioms.Leibniz.eqb_spec in V. subst r.
  repeat split; try assumption.
  apply FloatAxioms.Leibniz.eqb_spec. assumption.
Qed.

(** *** Under a compensating [sum]

    The two summations differ in the last bit on the contributions
    (0.5, 0.2, 0.2) and (0.5, 0.2, -0.2) in either order of the first two;
    the reward stays in [-1,1] and an update from 0.0 at rate 0.1 still
    lands on [0.1 * reward]. *)

Lemma sum_compensated_differs :
  List.filter (fun l => negb (PrimFloat.Leibniz.eqb (Py.sum l) (Py.sum_compensated l)))
    (flat_map (fun a => flat_map (fun b => map (fun c =>
       metric_contribution a ++ metric_contribution b ++ metric_contribution c)
       [None; Some 5; Some 4; Some 1]) [None; Some 5; Some 4; Some 1])
       [None; Some 5; Some 4; Some 1])
  = [[0.5; 0.2; 0.2]; [0.5; 0.2; -0.2]; [0.2; 0.5; 0.2]; [0.2; 0.5; -0.2]]%float.
Proof. vm_compute. reflexivity. Qed.

Lemma reward_facts_compensated_all :
  forallb (fun b => forallb (fun a => forallb (fun t =>
  forallb (fun ch => forallb (fun bt =>
    reward_facts_compensated (mkBrewEvaluation b a t None bt ch))
  brew_times) ratings) metric_classes) metric_classes) metric_classes = true.
Proof. vm_compute. reflexivity. Qed.

Lemma valid_reward_compensated (e : BrewEvaluation) :
  Spec.valid e ->
  exists r, calculate_reward_compensated e = Ok r /\
    (-1 <=? r)%float = true /\ (r <=? 1)%float = true /\
    (0.0 + 0.1 * (r - 0.0))%float = (0.1 * r)%float.
Proof.
  intros V. destruct (overall_experience e) as [o|] eqn:O.
  - destruct (valid_reward e V) as (H1 & H2 & H3 & H4).
    exists (Spec.reward e). unfold calculate_reward_compensated. rewrite O. auto.
  - assert (F : reward_facts_compensated e = true).
    { apply post_init_ok in V. destruct V as (_ & _ & _ & _ & Vc & _).
      apply rating_in_ratings in Vc.
      destruct (brew_time_bonus_cases e) as (bt & Hbt & E).
      assert (R : reward_facts_compensated (set_brew_time bt e)
                  = reward_facts_compensated e).
      { unfold reward_facts_compensated, calculate_reward_compensated.
        cbn [overall_experience set_brew_time]. rewrite O, <- E. reflexivity. }
      rewrite <- R. clear R E.
      destruct e as [b a t o bt0 ch]; unfold set_brew_time.
      cbn [bitterness acidity taste_strength overall_experience channeling] in *.
      subst o.
      destruct (taste_metrics_class b a t bt ch)
        as (b' & a' & t' & Vb & Va & Vt & E).
      replace (reward_facts_compensated (mkBrewEvaluation b a t None bt ch))
        with (reward_facts_compensated (mkBrewEvaluation b' a' t' None bt ch))
        by (unfold reward_facts_compensated, calculate_reward_compensated;
            cbn [overall_experience]; rewrite E; reflexivity).
      pose proof (forallb_In _ _ _ reward_facts_compensated_all Vb) as A.
      cbv beta in A.
      pose proof (forallb_In _ _ _ A Va) as B. cbv beta in B.
      pose proof (forallb_In _ _ _ B Vt) as C. cbv beta in C.
      pose proof (forallb_In _ _ _ C Vc) as D. cbv beta in D.
      exact (forallb_In _ _ _ D Hbt). }
    unfold reward_facts_compensated in F.
    destruct (calculate_reward_compensated e) as [r|]; [|discriminate].
    repeat (apply andb_true_iff in F; destruct F as [F ?]).
    exists r. repeat split; try assumption.
    apply FloatAxioms.Leibniz.eqb_spec. assumption.
Qed.

(** C1. For every valid evaluation the reward is
    clamp(primary + channeling adjustment + brew-time adjustment, -1, 1),
    with the three terms as the specification defines them; it lies in
    [-1.0, 1.0]; and it is exactly 0.0 when every field is absent. *)
Theorem C1_reward_formula_and_range :
  (forall e, Spec.valid e ->
     calculate_reward e = Ok (Spec.reward e) /\
     (-1.0 <=? Spec.reward e)%float = true /\
     (Spec.reward e <=? 1.0)%float = true) /\
  Spec.valid (mkBrewEvaluation None None None None None None) /\
  calculate_reward (mkBrewEvaluation None None None None None None) = Ok 0.0%float.
Proof.
  split; [|split; reflexivity].
  intros e V. destruct (valid_reward e V) as (H1 & H2 & H3 & _). auto.
Qed.

End Reward.

(* ===================================================================== *)
(** ** Discretisation                                                    *)
(* ===================================================================== *)

Section Discretisation.

Lemma in_indices (n : nat) (i : Z) : 0 <= i < Z.of_nat n -> In i (indices n).
Proof.
  intros H. unfold indices. apply in_map_iff. exists (Z.to_nat i).
  split; [lia|]. apply in_seq. lia.
Qed.

Lemma action_to_key_discretize (action : BrewAction) :
  action_to_key action =
  let* idx := discretize action in
  let '(g, v, d) := idx in
  Ok (str_int g +:+ "_" +:+ str_int v +:+ "_" +:+ str_int d).
Proof.
  unfold action_to_key, discretize.
  destruct (_discretize_grind _); simpl; [|reflexivity].
  destruct (_discretize_volume _); simpl; [|reflexivity].
  destruct (_discretize_dose _); reflexivity.
Qed.

(** On the operands that occur for valid indices the quotient of two
    [int]s is the quotient of the two doubles. *)
Lemma int_truediv_indices :
  forallb (fun i => match int_truediv i 29 with
                    | Ok q => PrimFloat.Leibniz.eqb q (fl i / 29)%float
                    | Raise _ => false
                    end) (indices 30) = true /\
  forallb (fun i => match int_truediv i 9 with
                    | Ok q => PrimFloat.Leibniz.eqb q (fl i / 9)%float
                    | Raise _ => false
                    end) (indices 10) = true.
Proof. split; vm_compute; reflexivity. Qed.

(** The grind index survives the round trip, and so does every grind
    setting from 1 to 30. *)
Lemma grind_round_trip (i : Z) :
  0 <= i < 30 ->
  (let* g := _undiscretize_grind i in _discretize_grind g) = Ok i.
Proof.
  intros H. apply (in_indices 30) in H. vm_compute in H.
  repeat (destruct H as [<-|H]; [vm_compute; reflexivity|]). destruct H.
Qed.

Lemma grind_setting_round_trip (g : Z) :
  1 <= g <= 30 ->
  (let* i := _discretize_grind g in _undiscretize_grind i) = Ok g.
Proof.
  intros H. assert (K : In (g - 1) (indices 30)) by (apply in_indices; lia).
  replace g with ((g - 1) + 1) by lia.
  revert K. generalize (g - 1). intros i K. vm_compute in K.
  repeat (destruct K as [<-|K]; [vm_compute; reflexivity|]). destruct K.
Qed.

(** The volume and dose indices do not: the quotient computed by
    [_discretize_volume] for the value of index 3 is 2.9999999999999982,
    which [int] truncates to 2. *)
Lemma volume_round_trip_table :
  map (fun i => let* v := _undiscretize_volume i in _discretize_volume v) (indices 10)
  = map Ok [0; 1; 2; 2; 4; 4; 5; 6; 8; 9].
Proof. vm_compute. reflexivity. Qed.

Lemma dose_round_trip_table :
  map (fun i => let* d := _undiscretize_dose i in _discretize_dose d) (indices 10)
  = map Ok [0; 0; 1; 2; 3; 5; 5; 7; 8; 9].
Proof. vm_compute. reflexivity. Qed.

Lemma volume_index_3_quotient :
  exists v, _undiscretize_volume 3 = Ok v /\
    ((v - 25.0) / (50.0 - 25.0) * 9)%float = 2.9999999999999982%float.
Proof. eexists. split; vm_compute; reflexivity. Qed.

Lemma triple_eqb_eq (x y : Z * Z * Z) : triple_eqb x y = true <-> x = y.
Proof.
  destruct x as [[a b] c], y as [[a' b'] c']. unfold triple_eqb.
  rewrite !andb_true_iff, !Z.eqb_eq. split.
  - intros [[-> ->] ->]. reflexivity.
  - intros [= -> -> ->]. auto.
Qed.

Lemma round_trip_ok_all :
  forallb (fun g => forallb (fun v => forallb (fun d =>
    Bool.eqb (round_trip_ok (g, v, d))
             (mem v [0; 1; 2; 4; 8; 9] && mem d [0; 5; 7; 8; 9]))
  (indices 10)) (indices 10)) (indices 30) = true.
Proof. vm_compute. reflexivity. Qed.

(** Of the 3000 valid triples, those that come back unchanged are the 900
    with a volume index among 0, 1, 2, 4, 8, 9 and a dose index among
    0, 5, 7, 8, 9. *)
Lemma round_trip_characterised (g v d : Z) :
  0 <= g < 30 -> 0 <= v < 10 -> 0 <= d < 10 ->
  (round_trip (g, v, d) = Ok (g, v, d) <->
   In v [0; 1; 2; 4; 8; 9] /\ In d [0; 5; 7; 8; 9]).
Proof.
  intros Hg Hv Hd.
  apply (in_indices 30) in Hg. apply (in_indices 10) in Hv, Hd.
  pose proof (forallb_In _ _ _ round_trip_ok_all Hg) as A. cbv beta in A.
  pose proof (forallb_In _ _ _ A Hv) as B. cbv beta in B.
  pose proof (forallb_In _ _ _ B Hd) as C. cbv beta in C.
  apply eqb_prop in C.
  assert (R : round_trip (g, v, d) = Ok (g, v, d) <-> round_trip_ok (g, v, d) = true).
  { unfold round_trip_ok. destruct (round_trip (g, v, d)) as [idx'|].
    - rewrite triple_eqb_eq. split; congruence.
    - split; discriminate. }
  rewrite R, C. unfold mem. rewrite andb_true_iff, !existsb_exists.
  split.
  - intros [(x & Hx & Ex) (y & Hy & Ey)]. apply Z.eqb_eq in Ex, Ey. subst. auto.
  - intros [Hx Hy]. split; eexists; (split; [eassumption|apply Z.eqb_refl]).
Qed.

(** C3. The round trip through the action of a valid index triple does not
    always give the triple back: from (0, 3, 0) it returns (0, 2, 0),
    because the quotient recomputed for volume index 3 is
    2.9999999999999982 and [int] truncates it; the key recorded for the
    action of key 0_3_0 is therefore 0_2_0. *)
Theorem C3_round_trip_loses_indices :
  round_trip (0, 3, 0) = Ok (0, 2, 0) /\
  (let* a := undiscretize (0, 3, 0) in action_to_key a) = Ok "0_2_0" /\
  round_trip (0, 0, 1) = Ok (0, 0, 0).
Proof. repeat split; vm_compute; reflexivity. Qed.

End Discretisation.

(* ===================================================================== *)
(** ** State keys                                                        *)
(* ===================================================================== *)

Section StateKeys.

Lemma state_to_key_inj (s1 s2 : BrewState) :
  state_to_key s1 = state_to_key s2 <->
  is_first_brew s1 = is_first_brew s2 /\
  Z.min (days_since_roast s1) 30 = Z.min (days_since_roast s2) 30.
Proof.
  destruct s1 as [f1 d1], s2 as [f2 d2]. unfold state_to_key. simpl. split.
  - intros H. destruct f1, f2; simpl in H; try discriminate H;
      (split; [reflexivity|]); injection H as H;
      exact (pretty_Z_inj _ _ H).
  - intros [-> ->]. reflexivity.
Qed.

Lemma state_to_key_min (s : BrewState) :
  state_to_key s =
  state_to_key (mkBrewState (is_first_brew s) (Z.min (days_since_roast s) 30)).
Proof. apply state_to_key_inj. simpl. split; [reflexivity|lia]. Qed.

Lemma state_key_in_state_keys (s : BrewState) :
  0 <= days_since_roast s -> In (state_to_key s) state_keys.
Proof.
  intros H. rewrite state_to_key_min. unfold state_keys.
  apply in_flat_map. exists (is_first_brew s). split.
  - destruct (is_first_brew s); simpl; auto.
  - apply in_map_iff. exists (Z.min (days_since_roast s) 30).
    split; [reflexivity|]. apply in_indices. lia.
Qed.

(** C4, as stated, fails below zero: -1 and -2 days clamp to the same
    pair (flag, 0), and their keys differ. *)
Lemma C4_negative_days_counterexample :
  (is_first_brew (mkBrewState true (-1)), clamp_days (days_since_roast (mkBrewState true (-1))))
  = (is_first_brew (mkBrewState true (-2)), clamp_days (days_since_roast (mkBrewState true (-2))))
  /\ state_to_key (mkBrewState true (-1)) = "True_-1"
  /\ state_to_key (mkBrewState true (-2)) = "True_-2"
  /\ state_to_key (mkBrewState true (-1)) <> state_to_key (mkBrewState true (-2)).
Proof. repeat split. vm_compute. discriminate. Qed.

(** C4, amended. The key is a function of the context; two contexts have the
    same key exactly when they agree on the first-brew flag and on
    min(days-since-roast, 30); for contexts with non-negative days this is
    the pair (flag, clamp(days, 0, 30)), and their keys are among 62
    distinct strings. *)
Theorem C4_state_key_injective_on_capped_days :
  (forall s1 s2,
     state_to_key s1 = state_to_key s2 <->
     is_first_brew s1 = is_first_brew s2 /\
     Z.min (days_since_roast s1) 30 = Z.min (days_since_roast s2) 30) /\
  (forall s1 s2, 0 <= days_since_roast s1 -> 0 <= days_since_roast s2 ->
     (state_to_key s1 = state_to_key s2 <->
      (is_first_brew s1, clamp_days (days_since_roast s1))
      = (is_first_brew s2, clamp_days (days_since_roast s2)))) /\
  length state_keys = 62%nat /\ NoDup state_keys /\
  (forall s, 0 <= days_since_roast s -> In (state_to_key s) state_keys).
Proof.
  split; [exact state_to_key_inj|]. split; [|split; [reflexivity|split]].
  - intros s1 s2 H1 H2. rewrite state_to_key_inj. unfold clamp_days.
    split.
    + intros [-> E]. f_equal. lia.
    + intros [= -> E]. split; [reflexivity|lia].
  - apply (bool_decide_unpack (NoDup state_keys)). vm_compute. exact I.
  - exact state_key_in_state_keys.
Qed.

End StateKeys.

(* ===================================================================== *)
(** ** Rows and the table                                                *)
(* ===================================================================== *)

Section Rows.

Lemma row_get_setitem_eq (r : row) (k : string) (v : float) :
  row_get (row_setitem r k v) k = Some v.
Proof.
  induction r as [|[k' v'] tl IH]; simpl.
  - rewrite String.eqb_refl. reflexivity.
  - destruct (String.eqb k' k) eqn:E; simpl; rewrite E; [reflexivity|exact IH].
Qed.

Lemma row_get_setitem_ne (r : row) (k k' : string) (v : float) :
  k <> k' -> row_get (row_setitem r k v) k' = row_get r k'.
Proof.
  intros N. induction r as [|[k0 v0] tl IH]; simpl.
  - destruct (String.eqb k k') eqn:E; [apply String.eqb_eq in E; contradiction|reflexivity].
  - destruct (String.eqb k0 k) eqn:E; simpl.
    + apply String.eqb_eq in E. subst k0.
      destruct (String.eqb k k') eqn:E'; [apply String.eqb_eq in E'; contradiction|reflexivity].
    + rewrite IH. reflexivity.
Qed.

Lemma row_get_app_new (r : row) (k k' : string) (v : float) :
  row_get r k = None ->
  row_get (r ++ [(k, v)]) k' = if String.eqb k k' then Some v else row_get r k'.
Proof.
  intros H. induction r as [|[k0 v0] tl IH]; simpl in *.
  - destruct (String.eqb k k'); reflexivity.
  - destruct (String.eqb k0 k) eqn:E; [discriminate|].
    destruct (String.eqb k0 k') eqn:E'.
    + apply String.eqb_eq in E'. subst k0.
      assert (K : String.eqb k k' = false).
      { rewrite String.eqb_sym. exact E. }
      rewrite K. reflexivity.
    + apply IH. exact H.
Qed.

(** Reading through the [defaultdict] returns the stored value or 0.0 and
    changes no value that a plain look-up reports. *)
Lemma row_getitem_value (r : row) (k : string) :
  fst (row_getitem r k) = default 0.0%float (row_get r k).
Proof. unfold row_getitem. destruct (row_get r k); reflexivity. Qed.

Lemma row_getitem_frame (r : row) (k k' : string) :
  default 0.0%float (row_get (snd (row_getitem r k)) k')
  = default 0.0%float (row_get r k').
Proof.
  unfold row_getitem. destruct (row_get r k) eqn:E; simpl; [reflexivity|].
  rewrite row_get_app_new by exact E.
  destruct (String.eqb k k') eqn:E'; [|reflexivity].
  apply String.eqb_eq in E'. subst k'. rewrite E. reflexivity.
Qed.

Lemma q_lookup_insert_eq (t : gmap string row) (s a : string) (r : row) :
  Spec.q_lookup (<[s := r]> t) s a = default 0.0%float (row_get r a).
Proof. unfold Spec.q_lookup. rewrite lookup_insert_eq. reflexivity. Qed.

Lemma q_lookup_insert_ne (t : gmap string row) (s s' a : string) (r : row) :
  s <> s' -> Spec.q_lookup (<[s := r]> t) s' a = Spec.q_lookup t s' a.
Proof. intros N. unfold Spec.q_lookup. rewrite lookup_insert_ne by exact N. reflexivity. Qed.

Lemma q_lookup_row (t : gmap string row) (s a : string) :
  Spec.q_lookup t s a = default 0.0%float (row_get (default [] (t !! s)) a).
Proof. unfold Spec.q_lookup. destruct (t !! s); reflexivity. Qed.

(** An empty row stored under a fresh key is invisible to look-ups. *)
Lemma q_lookup_insert_empty (t : gmap string row) (s s' a : string) :
  t !! s = None -> Spec.q_lookup (<[s := []]> t) s' a = Spec.q_lookup t s' a.
Proof.
  intros H. destruct (decide (s = s')) as [<-|N].
  - rewrite q_lookup_insert_eq. unfold Spec.q_lookup. rewrite H. reflexivity.
  - apply q_lookup_insert_ne. exact N.
Qed.

End Rows.

(* ===================================================================== *)
(** ** The order of the floats                                           *)
(* ===================================================================== *)

Section FloatOrder.

Ltac compare_cases :=
  repeat match goal with
  | |- context [Z.compare ?a ?b] =>
      destruct (Z.compare_spec a b); try lia; subst
  | H : context [Z.compare ?a ?b] |- _ =>
      destruct (Z.compare_spec a b); try lia; subst
  | |- context [Pos.compare ?a ?b] =>
      destruct (Pos.compare_spec a b); try lia; subst
  | H : context [Pos.compare ?a ?b] |- _ =>
      destruct (Pos.compare_spec a b); try lia; subst
  end.

Ltac compare_three x y z :=
  destruct x as [?s|?s| |?s ?m ?e], y as [?s|?s| |?s ?m ?e], z as [?s|?s| |?s ?m ?e];
  cbn [SFcompare]; try discriminate;
  repeat match goal with s : bool |- _ => destruct s end;
  try discriminate; try congruence.

Lemma Pcompare_compare (a b : positive) : Pos.compare_cont Eq a b = Pos.compare a b.
Proof. reflexivity. Qed.

Lemma SFcompare_lt_trans (x y z : spec_float) (c : comparison) :
  SFcompare x y = Some Lt -> SFcompare y z = Some c -> c <> Gt ->
  SFcompare x z = Some Lt.
Proof.
  compare_three x y z; intros H1 H2 N;
    try (injection H2 as <-; congruence); try reflexivity.
  all: rewrite ?Pcompare_compare in *.
  all: injection H1 as H1; injection H2 as H2; f_equal.
  all: compare_cases; simpl in *; try congruence; try lia.
Qed.

Lemma SFcompare_eq_l (x y z : spec_float) (c : comparison) :
  SFcompare x y = Some Eq -> SFcompare y z = Some c -> SFcompare x z = Some c.
Proof.
  compare_three x y z; intros H1 H2;
    try (injection H2 as <-; congruence); try reflexivity.
  all: rewrite ?Pcompare_compare in *.
  all: injection H1 as H1; injection H2 as H2; f_equal.
  all: compare_cases; simpl in *; try congruence; try lia.
Qed.

Lemma SFcompare_eq_r (x y z : spec_float) (c : comparison) :
  SFcompare x y = Some c -> SFcompare y z = Some Eq -> SFcompare x z = Some c.
Proof.
  compare_three x y z; intros H1 H2;
    try (injection H1 as <-; congruence); try reflexivity.
  all: rewrite ?Pcompare_compare in *.
  all: injection H1 as H1; injection H2 as H2; f_equal.
  all: compare_cases; simpl in *; try congruence; try lia.
Qed.

Lemma SFcompare_opp (x y : spec_float) :
  SFcompare y x = option_map CompOpp (SFcompare x y).
Proof.
  destruct x as [sx|sx| |sx mx ex], y as [sy|sy| |sy my ey];
    cbn [SFcompare option_map]; try reflexivity;
    try (destruct sx); try (destruct sy); try reflexivity.
  all: rewrite ?Pcompare_compare in *.
  all: f_equal; rewrite (Z.compare_antisym ex ey), (Pos.compare_antisym mx my);
    destruct (ex ?= ey); simpl; try reflexivity;
    destruct (mx ?= my)%positive; reflexivity.
Qed.

Lemma SFcompare_some (x y : spec_float) :
  x <> S754_nan -> y <> S754_nan -> exists c, SFcompare x y = Some c.
Proof. destruct x, y; cbn [SFcompare]; try congruence; eauto. Qed.

Lemma ltb_compare (x y : float) :
  (x <? y)%float = true <-> SFcompare (Prim2SF x) (Prim2SF y) = Some Lt.
Proof.
  rewrite ltb_spec. unfold SFltb.
  destruct (SFcompare _ _) as [[]|]; split; congruence.
Qed.

Lemma leb_compare (x y : float) :
  (x <=? y)%float = true
  <-> SFcompare (Prim2SF x) (Prim2SF y) = Some Lt \/
      SFcompare (Prim2SF x) (Prim2SF y) = Some Eq.
Proof.
  rewrite leb_spec. unfold SFleb.
  destruct (SFcompare _ _) as [[]|]; split;
    try (intros [H|H]; congruence); try discriminate; auto.
Qed.

Lemma float_lt_le_trans (x y z : float) :
  (x <? y)%float = true -> (y <=? z)%float = true -> (x <? z)%float = true.
Proof.
  rewrite !ltb_compare, leb_compare. intros H [K|K].
  - exact (SFcompare_lt_trans _ _ _ Lt H K ltac:(discriminate)).
  - exact (SFcompare_lt_trans _ _ _ Eq H K ltac:(discriminate)).
Qed.

Lemma float_le_lt_trans (x y z : float) :
  (x <=? y)%float = true -> (y <? z)%float = true -> (x <? z)%float = true.
Proof.
  rewrite !ltb_compare, leb_compare. intros [H|H] K.
  - exact (SFcompare_lt_trans _ _ _ Lt H K ltac:(discriminate)).
  - exact (SFcompare_eq_l _ _ _ Lt H K).
Qed.

Lemma float_lt_le (x y : float) :
  (x <? y)%float = true -> (x <=? y)%float = true.
Proof. rewrite ltb_compare, leb_compare. auto. Qed.

Lemma float_lt_trans (x y z : float) :
  (x <? y)%float = true -> (y <? z)%float = true -> (x <? z)%float = true.
Proof. intros H K. apply (float_lt_le_trans x y z H). apply float_lt_le. exact K. Qed.

Lemma float_le_trans (x y z : float) :
  (x <=? y)%float = true -> (y <=? z)%float = true -> (x <=? z)%float = true.
Proof.
  intros H K. apply leb_compare in H. destruct H as [H|H].
  - apply float_lt_le. apply (float_lt_le_trans x y z); [|exact K].
    apply ltb_compare. exact H.
  - apply leb_compare in K. apply leb_compare. destruct K as [K|K].
    + left. exact (SFcompare_eq_l _ _ _ Lt H K).
    + right. exact (SFcompare_eq_l _ _ _ Eq H K).
Qed.

Lemma is_nan_spec (x : float) : is_nan x = false <-> Prim2SF x <> S754_nan.
Proof. unfold is_nan. destruct (Prim2SF x); split; congruence. Qed.

Lemma float_not_lt_le (x y : float) :
  is_nan x = false -> is_nan y = false ->
  (x <? y)%float = false -> (y <=? x)%float = true.
Proof.
  intros Nx Ny H. apply is_nan_spec in Nx, Ny.
  destruct (SFcompare_some _ _ Nx Ny) as (c & C).
  apply leb_compare. rewrite (SFcompare_opp (Prim2SF x) (Prim2SF y)), C.
  destruct c; cbn [option_map CompOpp]; auto.
  apply ltb_compare in C. congruence.
Qed.

Lemma float_lt_not_le (x y : float) :
  (x <? y)%float = true -> (y <=? x)%float = false.
Proof.
  intros H. apply ltb_compare in H.
  destruct (y <=? x)%float eqn:K; [|reflexivity].
  apply leb_compare in K. rewrite (SFcompare_opp (Prim2SF x) (Prim2SF y)), H in K.
  cbn [option_map CompOpp] in K. destruct K; discriminate.
Qed.

Lemma float_le_refl (x : float) : is_nan x = false -> (x <=? x)%float = true.
Proof.
  intros N. destruct (x <? x)%float eqn:E.
  - apply float_lt_le. exact E.
  - apply float_not_lt_le; assumption.
Qed.

End FloatOrder.

(* ===================================================================== *)
(** ** Multiplying by a factor below one                                 *)
(* ===================================================================== *)

Section Multiplication.

Lemma digits2_pos_bounds (p : positive) :
  2 ^ (Zpos (digits2_pos p) - 1) <= Zpos p < 2 ^ Zpos (digits2_pos p).
Proof.
  induction p as [p IH|p IH|]; cbn [digits2_pos].
  - rewrite Pos2Z.inj_succ.
    replace (Z.succ (Zpos (digits2_pos p)) - 1) with (Z.succ (Zpos (digits2_pos p) - 1)) by lia.
    rewrite !Z.pow_succ_r by lia. lia.
  - rewrite Pos2Z.inj_succ.
    replace (Z.succ (Zpos (digits2_pos p)) - 1) with (Z.succ (Zpos (digits2_pos p) - 1)) by lia.
    rewrite !Z.pow_succ_r by lia. lia.
  - simpl. lia.
Qed.

Lemma shifted_0 (P : Z) : 0 <= P -> shifted P 0 (Build_shr_record P false false).
Proof.
  intros H. exists 0. cbn [shr_m shr_r shr_s]. rewrite Z.pow_0_r.
  repeat split; try lia; try discriminate.
Qed.

Lemma shifted_1 (P n : Z) (r : shr_record) :
  0 <= n -> shifted P n r -> shifted P (n + 1) (shr_1 r).
Proof.
  intros Hn (rem & E & R & Q & Hr & Hs).
  assert (T : 2 ^ (n + 1) = 2 * 2 ^ n) by (rewrite Z.pow_add_r by lia; lia).
  assert (Pn : 0 < 2 ^ n) by (apply Z.pow_pos_nonneg; lia).
  destruct r as [m r s]. cbn [shr_m shr_r shr_s] in *.
  assert (S : (r || s = true) <-> rem <> 0).
  { rewrite orb_true_iff, Hr, Hs. lia. }
  destruct m as [|[p|p|]|p]; cbn [shr_1]; try lia.
  - exists rem. cbn [shr_m shr_r shr_s]. rewrite T.
    split; [lia|]. split; [lia|]. split; [lia|].
    split; [split; [discriminate|lia]|]. rewrite S. lia.
  - exists (2 ^ n + rem). cbn [shr_m shr_r shr_s]. rewrite T.
    split; [lia|]. split; [lia|]. split; [lia|].
    split; [split; [lia|reflexivity]|]. rewrite S. lia.
  - exists rem. cbn [shr_m shr_r shr_s]. rewrite T.
    split; [lia|]. split; [lia|]. split; [lia|].
    split; [split; [discriminate|lia]|]. rewrite S. lia.
  - exists (2 ^ n + rem). cbn [shr_m shr_r shr_s]. rewrite T.
    split; [lia|]. split; [lia|]. split; [lia|].
    split; [split; [lia|reflexivity]|]. rewrite S. lia.
Qed.

Lemma shifted_iter (P : Z) (p : positive) :
  forall n r, 0 <= n -> shifted P n r -> shifted P (n + Zpos p) (SpecFloat.iter_pos shr_1 p r).
Proof.
  induction p as [p IH|p IH|]; intros n r Hn H; cbn [SpecFloat.iter_pos].
  - replace (n + Zpos p~1) with ((n + 1 + Zpos p) + Zpos p) by lia.
    apply IH; [lia|]. apply IH; [lia|]. apply shifted_1; assumption.
  - replace (n + Zpos p~0) with ((n + Zpos p) + Zpos p) by lia.
    apply IH; [lia|]. apply IH; assumption.
  - apply shifted_1; assumption.
Qed.

Lemma round_shifted (P n : Z) (r : shr_record) :
  shifted P n r ->
  shr_m r <= round_nearest_even (shr_m r) (loc_of_shr_record r) <= shr_m r + 1 /\
  (round_nearest_even (shr_m r) (loc_of_shr_record r) = shr_m r + 1 ->
   exists rem, P = shr_m r * 2 ^ n + rem /\ 0 <= rem < 2 ^ n /\ 2 ^ n <= 2 * rem).
Proof.
  intros (rem & E & R & Q & Hr & Hs). destruct r as [m [] []];
    cbn [shr_m shr_r shr_s loc_of_shr_record round_nearest_even] in *.
  - split; [lia|]. intros _. exists rem. split; [exact E|]. split; [exact R|].
    apply Hr. reflexivity.
  - split; [destruct (Z.even m); lia|]. intros _. exists rem.
    split; [exact E|]. split; [exact R|]. apply Hr. reflexivity.
  - split; [lia|]. intros H. lia.
  - split; [lia|]. intros H. lia.
Qed.


Lemma pow2_le (a b : Z) : 0 <= a <= b -> 2 ^ a <= 2 ^ b.
Proof. intros H. apply Z.pow_le_mono_r; lia. Qed.

Lemma pow2_lt_inv (a b : Z) : 0 <= b -> 2 ^ a < 2 ^ b -> a < b.
Proof. intros Hb H. apply (Z.pow_lt_mono_r_iff 2); [lia|lia|exact H]. Qed.

Lemma digits_lt (p : positive) (k : Z) :
  0 <= k -> Zpos p < 2 ^ k -> Zpos (digits2_pos p) <= k.
Proof.
  intros Hk H. pose proof (digits2_pos_bounds p) as [L _].
  assert (2 ^ (Zpos (digits2_pos p) - 1) < 2 ^ k) by lia.
  apply pow2_lt_inv in H0; lia.
Qed.

(** What [bounded] says of a mantissa and its exponent. *)
Lemma bounded_facts (m : positive) (e : Z) :
  bounded prec emax m e = true ->
  Z.max (Zpos (digits2_pos m) + e - 53) (-1074) = e /\ e <= 971 /\
  Zpos m < 2 ^ 53.
Proof.
  unfold bounded, canonical_mantissa, fexp, emin, prec, emax.
  intros H. apply andb_true_iff in H. destruct H as [C B].
  apply Z.eqb_eq in C. apply Z.leb_le in B.
  split; [exact C|]. split; [lia|].
  pose proof (digits2_pos_bounds m) as [_ U].
  assert (Zpos (digits2_pos m) <= 53) by lia.
  pose proof (pow2_le (Zpos (digits2_pos m)) 53 ltac:(lia)). lia.
Qed.

(** The second normalisation of [binary_round_aux] on a rounded mantissa
    of at most 53 digits, or on 2^53. *)
Lemma renormalise (mr e1 : Z) :
  -1074 <= e1 -> 0 <= mr <= 2 ^ 53 ->
  shr_fexp 53 1024 mr e1 loc_Exact
  = if mr =? 2 ^ 53
    then (Build_shr_record (2 ^ 52) false false, e1 + 1)
    else (Build_shr_record mr false false, e1).
Proof.
  intros He Hm. unfold shr_fexp, shr_record_of_loc, fexp, emin.
  destruct (Z.eqb_spec mr (2 ^ 53)) as [->|N].
  - change (Zdigits2 (2 ^ 53)) with 54.
    replace (Z.max (54 + e1 - 53) (3 - 1024 - 53) - e1) with 1 by lia.
    reflexivity.
  - destruct mr as [|p|p]; [| |lia].
    + cbn [Zdigits2].
      destruct (Z.max (0 + e1 - 53) (3 - 1024 - 53) - e1) eqn:K; try reflexivity; lia.
    + cbn [Zdigits2].
      assert (D : Zpos (digits2_pos p) <= 53) by (apply digits_lt; lia).
      destruct (Z.max (Zpos (digits2_pos p) + e1 - 53) (3 - 1024 - 53) - e1) eqn:K;
        try reflexivity; lia.
Qed.


Lemma quot_lt (a b q T : Z) : 0 < a -> 0 <= b < T -> q * T <= a * b -> q < a.
Proof. intros Ha Hb H. nia. Qed.

(** Rounding up to the mantissa of [x] itself needs a small mantissa. *)
Lemma round_up_small (mx md q rem T : Z) :
  0 < mx -> 0 <= md < 2 ^ 53 -> 2 ^ 53 <= T ->
  mx * md = q * T + rem -> T <= 2 * rem -> q + 1 = mx ->
  mx <= 2 ^ 52.
Proof.
  change (2 ^ 53) with 9007199254740992. change (2 ^ 52) with 4503599627370496.
  intros Hm Hd HT E Half Top. subst mx.
  assert (A : 2 * ((q + 1) * md) >= (2 * q + 1) * T) by lia.
  assert (B : (2 * q + 1) * T >= (2 * q + 1) * 9007199254740992) by nia.
  assert (C : 2 * ((q + 1) * md) <= 2 * (q + 1) * 9007199254740991) by nia.
  lia.
Qed.

(** A power of two times a factor below 1 does not round up to itself. *)
Lemma carry_not_pow2 (md q rem T : Z) :
  0 <= md < 2 ^ 53 -> 2 ^ 52 <= T ->
  2 ^ 52 * md = q * T + rem -> T <= 2 * rem ->
  q + 1 = 2 ^ 53 -> False.
Proof.
  change (2 ^ 53) with 9007199254740992. change (2 ^ 52) with 4503599627370496.
  intros Hd HT E Half Top.
  assert (q = 9007199254740991) by lia. subst q.
  assert (A : 2 * (4503599627370496 * md) >= (2 * 9007199254740991 + 1) * T) by lia.
  lia.
Qed.

Lemma q_bound (P q rem T D : Z) :
  0 < T -> P = q * T + rem -> 0 <= rem -> P < D -> D <= 2 ^ 53 * T ->
  q < 2 ^ 53.
Proof. change (2 ^ 53) with 9007199254740992. intros. nia. Qed.

Lemma mul_lt_pow (a b : Z) (da db : Z) :
  0 <= da -> 0 <= db -> 0 < a < 2 ^ da -> 0 < b < 2 ^ db -> a * b < 2 ^ (da + db).
Proof. intros Ha Hb A B. rewrite Z.pow_add_r by lia. nia. Qed.

(** [x * d] for a positive finite [x] and a positive finite [d] below 1. *)
Lemma mul_below_one (mx md : positive) (ex ed : Z) :
  bounded prec emax mx ex = true -> bounded prec emax md ed = true ->
  ed <= -53 ->
  decayed mx ex (SF64mul (S754_finite false mx ex) (S754_finite false md ed)).
Proof.
  intros Bx Bd Hd.
  apply bounded_facts in Bx, Bd.
  destruct Bx as (Cx & Ex & Mx). destruct Bd as (Cd & Ed & Md).
  pose proof (digits2_pos_bounds mx) as [Lx Ux].
  pose proof (digits2_pos_bounds md) as [Ld Ud].
  pose proof (digits2_pos_bounds (mx * md)) as [LP UP].
  assert (HP : Zpos (mx * md) = Zpos mx * Zpos md) by apply Pos2Z.inj_mul.
  assert (Hx0 : 0 < Zpos mx) by apply Pos2Z.is_pos.
  assert (Hd0 : 0 < Zpos md) by apply Pos2Z.is_pos.
  assert (HP0 : 0 < Zpos (mx * md)) by apply Pos2Z.is_pos.
  set (P := Zpos (mx * md)) in *.
  set (dx := Zpos (digits2_pos mx)) in *.
  set (dd := Zpos (digits2_pos md)) in *.
  set (dP := Zpos (digits2_pos (mx * md))) in *.
  assert (Hdx : 1 <= dx <= 53) by (unfold dx; lia).
  assert (Hdd : 1 <= dd /\ dd + ed <= 0) by (unfold dd; lia).
  assert (HdP : 1 <= dP <= dx + dd).
  { split; [unfold dP; lia|].
    pose proof (mul_lt_pow (Zpos mx) (Zpos md) dx dd ltac:(lia) ltac:(lia)
                  ltac:(lia) ltac:(lia)) as K.
    assert (K' : 2 ^ (dP - 1) < 2 ^ (dx + dd)) by lia.
    apply pow2_lt_inv in K'; lia. }
  unfold SF64mul, SFmul, binary_round_aux. cbn [xorb].
  unfold shr_fexp at 1. cbn [Zdigits2 shr_record_of_loc]. fold dP. fold P.
  unfold fexp, emin, prec, emax.
  set (E := ex + ed).
  set (e1 := Z.max (dP + E - 53) (3 - 1024 - 53)).
  assert (He1 : -1074 <= e1 <= ex) by (unfold e1, E; lia).
  destruct (e1 - E) as [|p|p] eqn:N; cbn [shr].
  - (* the product is representable as it is *)
    cbn [shr_m loc_of_shr_record round_nearest_even].
    assert (D53 : dP <= 53) by lia.
    pose proof (pow2_le dP 53 ltac:(lia)) as P53.
    assert (HE : -1074 <= E) by lia.
    assert (HPm : 0 <= P <= 2 ^ 53) by lia.
    rewrite (renormalise _ _ HE HPm).
    destruct (Z.eqb_spec P (2 ^ 53)) as [K|K].
    + exfalso. lia.
    + cbn [shr_m]. unfold P at 1. cbv iota.
      assert (E971 : E <= 971) by (unfold E; lia).
      destruct (Z.leb_spec E (1024 - 53)); [|lia].
      unfold decayed, E. split; [left; lia|intros _; left; lia].
  - (* shifted by e1 - E bits and rounded *)
    pose proof (shifted_iter P p 0 _ (Z.le_refl 0)
                  (shifted_0 P ltac:(lia))) as S.
    rewrite Z.add_0_l in S.
    set (r1 := SpecFloat.iter_pos shr_1 p (Build_shr_record P false false)) in *.
    destruct (round_shifted _ _ _ S) as [Rb Ru].
    set (mr := round_nearest_even (shr_m r1) (loc_of_shr_record r1)) in *.
    destruct S as (rem & EP & Rrem & Q & _ & _).
    set (q := shr_m r1) in *.
    set (T := 2 ^ Zpos p) in *.
    assert (T0 : 0 < T) by (apply Z.pow_pos_nonneg; lia).
    assert (Hq : q < 2 ^ 53).
    { assert (K1 : dP <= 53 + Zpos p) by lia.
      pose proof (pow2_le dP (53 + Zpos p) ltac:(lia)) as K.
      rewrite Z.pow_add_r in K by lia. fold T in K.
      exact (q_bound P q rem T (2 ^ dP) T0 EP ltac:(lia) ltac:(lia) K). }
    replace (E + Zpos p) with e1 by lia.
    assert (He1' : -1074 <= e1) by lia.
    assert (Hmr : 0 <= mr <= 2 ^ 53) by lia.
    rewrite (renormalise _ _ He1' Hmr).
    assert (Urem : forall rem', P = q * T + rem' -> rem' = rem) by (intros; lia).
    destruct (Z.eqb_spec mr (2 ^ 53)) as [K|K].
    + (* the rounding carried into the next binade *)
      cbn [shr_m]. change (2 ^ 52) with (Zpos 4503599627370496).
      cbv iota.
      assert (Up : mr = q + 1) by lia.
      destruct (Ru Up) as (rem' & EP' & Rrem' & Half).
      pose proof (Urem _ EP') as ->.
      assert (Hlt : e1 < ex).
      { destruct (Z.eq_dec e1 ex) as [Eq|]; [|lia]. exfalso.
        assert (Zp : Zpos p = - ed) by (unfold E in N; lia).
        pose proof (pow2_le 53 (Zpos p) ltac:(lia)) as K53. fold T in K53.
        assert (Qx : q < Zpos mx).
        { apply (quot_lt (Zpos mx) (Zpos md) q T); lia. }
        lia. }
      assert (E971 : e1 + 1 <= 971) by lia.
      destruct (Z.leb_spec (e1 + 1) (1024 - 53)); [|lia].
      unfold decayed.
      destruct (Z.eq_dec (e1 + 1) ex) as [Eq|Ne].
      * (* x is normal *)
        assert (Dx : dx = 53) by lia.
        assert (L52 : 2 ^ 52 <= Zpos mx) by (rewrite Dx in Lx; exact Lx).
        assert (Strict : 2 ^ 52 < Zpos mx).
        { destruct (Z.eq_dec (Zpos mx) (2 ^ 52)) as [M|]; [|lia]. exfalso.
          assert (Zp : Zpos p = -1 - ed) by (unfold E in N; lia).
          pose proof (pow2_le 52 (Zpos p) ltac:(lia)) as K52. fold T in K52.
          apply (carry_not_pow2 (Zpos md) q rem T); lia. }
        change (2 ^ 52) with 4503599627370496 in *.
        split; [right; lia|intros _; right; lia].
      * split; [left; lia|intros _; left; lia].
    + (* no carry *)
      cbn [shr_m]. destruct mr as [|m|m] eqn:Mr; [exact I| |lia].
      assert (E971 : e1 <= 971) by lia.
      destruct (Z.leb_spec e1 (1024 - 53)); [|lia].
      unfold decayed.
      destruct (Z.eq_dec e1 ex) as [Eq|Ne]; [|split; [left; lia|intros _; left; lia]].
      assert (Zp : Zpos p = - ed) by (unfold E in N; lia).
      pose proof (pow2_le 53 (Zpos p) ltac:(lia)) as K53. fold T in K53.
      assert (Qx : q < Zpos mx).
      { apply (quot_lt (Zpos mx) (Zpos md) q T); lia. }
      split; [right; lia|]. intros Big. right. split; [exact Eq|].
      destruct (Z.eq_dec (Zpos m) (q + 1)) as [Up|]; [|lia].
      destruct (Z.eq_dec (q + 1) (Zpos mx)) as [Top|]; [|lia]. exfalso.
      destruct (Ru Up) as (rem' & EP' & Rrem' & Half).
      pose proof (Urem _ EP') as ->.
      assert (Small : Zpos mx <= 2 ^ 52).
      { apply (round_up_small (Zpos mx) (Zpos md) q rem T); lia. }
      destruct Big as [Big|Big]; [lia|].
      assert (Dx : dx = 53) by lia.
      assert (M : Zpos mx = 2 ^ 52) by (rewrite Dx in Lx; lia).
      assert (DP : dP = 53 + Zpos p) by (unfold e1, E in *; lia).
      pose proof (mul_lt_pow (Zpos mx) (Zpos md) 53 53 ltac:(lia) ltac:(lia)
                    ltac:(lia) ltac:(lia)) as K106.
      assert (K105 : P < 2 ^ (52 + 53)).
      { rewrite HP, M. rewrite Z.pow_add_r by lia.
        apply Z.mul_lt_mono_pos_l; [apply Z.pow_pos_nonneg; lia|lia]. }
      pose proof (pow2_le (52 + 53) (52 + Zpos p) ltac:(lia)) as Kp.
      assert (K' : 2 ^ (dP - 1) < 2 ^ (52 + Zpos p)) by lia.
      apply pow2_lt_inv in K'; lia.
  - (* the product of a normal number has at least 53 digits *)
    exfalso.
    assert (Dx : dx = 53) by (unfold e1, E in *; lia).
    assert (L52 : 2 ^ 52 <= Zpos mx) by (rewrite Dx in Lx; exact Lx).
    assert (K52 : 2 ^ 52 <= P).
    { rewrite HP. change (2 ^ 52) with 4503599627370496 in *. nia. }
    assert (K' : 2 ^ 52 < 2 ^ dP) by lia.
    apply pow2_lt_inv in K'; unfold e1, E in *; lia.
Qed.

End Multiplication.

(* ===================================================================== *)
(** ** The decay of epsilon on binary64                                  *)
(* ===================================================================== *)

Section Decay.

Lemma iter_fixed {A} (f : A -> A) (x : A) (n : nat) :
  f x = x -> Nat.iter n f x = x.
Proof. intros H. induction n as [|n IH]; simpl; [reflexivity|]. rewrite IH. exact H. Qed.

Lemma pos_compare_lt (p q : positive) : (p ?= q)%positive = Lt -> Zpos p < Zpos q.
Proof. intros H. exact H. Qed.

Lemma rank_lt (m1 m2 : positive) (e1 e2 : Z) :
  bounded prec emax m1 e1 = true -> bounded prec emax m2 e2 = true ->
  SFcompare (S754_finite false m1 e1) (S754_finite false m2 e2) = Some Lt ->
  0 <= rank (S754_finite false m1 e1) < rank (S754_finite false m2 e2).
Proof.
  intros B1 B2. apply bounded_facts in B1, B2.
  destruct B1 as (C1 & _ & M1). destruct B2 as (C2 & _ & M2).
  cbn [SFcompare rank]. rewrite Pcompare_compare.
  change (2 ^ 53) with 9007199254740992 in *.
  destruct (Z.compare_spec e1 e2) as [->|L|G]; intros H; try discriminate.
  - injection H as H. apply pos_compare_lt in H. lia.
  - lia.
Qed.

Lemma Prim2SF_zero : Prim2SF 0 = S754_zero false.
Proof. vm_compute. reflexivity. Qed.

Lemma Prim2SF_one : Prim2SF 1 = S754_finite false 4503599627370496 (-52).
Proof. vm_compute. reflexivity. Qed.

Lemma Prim2SF_infinity : Prim2SF infinity = S754_infinity false.
Proof. vm_compute. reflexivity. Qed.

Lemma Prim2SF_smallest_normal :
  Prim2SF smallest_normal = S754_finite false 4503599627370496 (-1074).
Proof. vm_compute. reflexivity. Qed.

(** A float between 0 and 1, both excluded. *)
Lemma proper_fraction (d : float) :
  (0 <? d)%float = true -> (d <? 1)%float = true ->
  exists md ed, Prim2SF d = S754_finite false md ed /\
                bounded prec emax md ed = true /\ ed <= -53.
Proof.
  intros H0 H1. apply ltb_compare in H0, H1.
  pose proof (Prim2SF_valid d) as V.
  rewrite Prim2SF_zero in H0. rewrite Prim2SF_one in H1.
  destruct (Prim2SF d) as [s|s| |s md ed]; try discriminate.
  - destruct s; discriminate.
  - destruct s; [discriminate|]. exists md, ed. split; [reflexivity|].
    unfold valid_binary in V. split; [exact V|].
    pose proof (bounded_facts _ _ V) as (C & _ & _).
    pose proof (digits2_pos_bounds md) as [L U].
    cbn [SFcompare] in H1. rewrite Pcompare_compare in H1.
    destruct (Z.compare_spec ed (-52)) as [->|Lt|Gt]; try discriminate; [|lia].
    injection H1 as H1. apply pos_compare_lt in H1. exfalso.
    assert (D : Zpos (digits2_pos md) = 53) by (clear - C; lia).
    rewrite D in L. change (2 ^ (53 - 1)) with 4503599627370496 in L.
    clear - L H1. lia.
Qed.

(** The sign of a rounded result is the sign given. *)
Lemma binary_round_aux_sign (s : bool) (m e : Z) (l : location) :
  match binary_round_aux prec emax s m e l with
  | S754_zero s' | S754_infinity s' | S754_finite s' _ _ => s' = s
  | S754_nan => True
  end.
Proof.
  unfold binary_round_aux. destruct (shr_fexp _ _ _ _ _) as [r1 e1].
  destruct (shr_fexp _ _ _ _ _) as [r2 e2]. destruct (shr_m r2); try exact I;
    [reflexivity|]. destruct (_ <=? _); reflexivity.
Qed.

Section Step.

Variables m d : float.
Hypothesis d_pos : (0 <? d)%float = true.
Hypothesis d_lt_1 : (d <? 1)%float = true.
Hypothesis m_pos : (0 <? m)%float = true.
Hypothesis m_finite : (m <? infinity)%float = true.

Lemma floor_positive :
  exists mm em, Prim2SF m = S754_finite false mm em /\
                bounded prec emax mm em = true.
Proof.
  pose proof (Prim2SF_valid m) as V.
  apply ltb_compare in m_pos, m_finite.
  rewrite Prim2SF_zero in m_pos.
  rewrite Prim2SF_infinity in m_finite.
  destruct (Prim2SF m) as [s|s| |s mm em].
  - destruct s; discriminate.
  - destruct s; discriminate.
  - discriminate.
  - destruct s; [discriminate|].
    exists mm, em. split; [reflexivity|exact V].
Qed.

(** What a product with [d] can be, by the class of the other factor. *)
Lemma product_cases (x : float) :
  x <> infinity ->
  (m <? x * d)%float = false \/
  exists mx ex, Prim2SF x = S754_finite false mx ex /\
                bounded prec emax mx ex = true.
Proof.
  intros Hx. destruct (proper_fraction d d_pos d_lt_1) as (md & ed & Ed & Bd & Hd).
  destruct floor_positive as (mm & em & Em & Bm).
  pose proof (Prim2SF_valid x) as V.
  destruct (m <? x * d)%float eqn:L; [|left; reflexivity]. right.
  apply ltb_compare in L. rewrite mul_spec, Ed, Em in L.
  destruct (Prim2SF x) as [s|s| |s mx ex] eqn:Ex.
  - cbn in L. destruct (xorb s false); discriminate.
  - destruct s.
    + cbn in L. discriminate.
    + exfalso. apply Hx. apply Prim2SF_inj. rewrite Ex, Prim2SF_infinity. reflexivity.
  - cbn in L. discriminate.
  - destruct s.
    + exfalso. unfold SF64mul, SFmul in L. cbn [xorb] in L.
      pose proof (binary_round_aux_sign true (Zpos (mx * md)) (ex + ed) loc_Exact) as S.
      destruct (binary_round_aux _ _ _ _ _ _) as [s'|s'| |s' m' e'];
        try subst s'; cbn in L; discriminate.
    + exists mx, ex. split; [reflexivity|exact V].
Qed.

Lemma decayed_compare (mx : positive) (ex : Z) (r : spec_float) :
  decayed mx ex r ->
  (SFcompare r (S754_finite false mx ex) = Some Lt \/
   SFcompare r (S754_finite false mx ex) = Some Eq) /\
  (2 ^ 52 < Zpos mx \/ -1074 < ex ->
   SFcompare r (S754_finite false mx ex) = Some Lt).
Proof.
  unfold decayed. destruct r as [[]|s| |[] m' e']; try contradiction.
  - intros _. cbn. auto.
  - intros [Le St]. cbn [SFcompare]. rewrite Pcompare_compare.
    destruct (Z.compare_spec e' ex) as [->|L|G].
    + destruct (Pos.compare_spec m' mx) as [->|L|G].
      * split; [auto|]. intros B. specialize (St B). lia.
      * auto.
      * lia.
    + auto.
    + lia.
Qed.

(** Multiplying a positive finite number by [d] does not raise it, and
    lowers it when it is above the smallest normal number. *)
Lemma product_below (x : float) (mx : positive) (ex : Z) :
  Prim2SF x = S754_finite false mx ex ->
  (x * d <=? x)%float = true /\
  ((smallest_normal <? x)%float = true -> (x * d <? x)%float = true).
Proof.
  intros Ex. destruct (proper_fraction d d_pos d_lt_1) as (md & ed & Ed & Bd & Hd).
  pose proof (Prim2SF_valid x) as V. rewrite Ex in V. unfold valid_binary in V.
  pose proof (mul_below_one mx md ex ed V Bd Hd) as D.
  apply decayed_compare in D. destruct D as [Le St].
  split.
  - apply leb_compare. rewrite mul_spec, Ex, Ed. exact Le.
  - intros B. apply ltb_compare. rewrite mul_spec, Ex, Ed. apply St.
    apply ltb_compare in B. rewrite Ex in B.
    rewrite Prim2SF_smallest_normal in B.
    cbn [SFcompare] in B. rewrite Pcompare_compare in B.
    destruct (Z.compare_spec (-1074) ex) as [<-|L|G]; try discriminate; [|lia].
    injection B as B. apply pos_compare_lt in B.
    change (2 ^ 52) with 4503599627370496. lia.
Qed.

Lemma floor_is_fixed : decay_step m d m = m.
Proof.
  unfold decay_step, Py.max. destruct floor_positive as (mm & em & Em & _).
  destruct (product_below m mm em Em) as [Le _].
  destruct (m <? m * d)%float eqn:L; [|reflexivity].
  apply float_lt_not_le in L. congruence.
Qed.

Lemma decay_settles_within (n : nat) :
  forall x, x <> infinity -> (Z.to_nat (rank (Prim2SF x)) < n)%nat ->
    exists L, resting m d L /\
      forall k, (n <= k)%nat -> Nat.iter k (decay_step m d) x = L.
Proof.
  induction n as [|n IH]; intros x Hx R; [lia|].
  assert (Floor : (m <? x * d)%float = false ->
            exists L, resting m d L /\
              forall k, (S n <= k)%nat -> Nat.iter k (decay_step m d) x = L).
  { intros L. exists m. split; [left; reflexivity|]. intros k K.
    destruct k as [|k]; [lia|]. rewrite Nat.iter_succ_r.
    unfold decay_step at 2, Py.max. rewrite L.
    apply iter_fixed. apply floor_is_fixed. }
  destruct (product_cases x Hx) as [L|(mx & ex & Ex & Bx)]; [exact (Floor L)|].
  destruct (m <? x * d)%float eqn:L; [|exact (Floor eq_refl)].
  assert (Step : decay_step m d x = (x * d)%float).
  { unfold decay_step, Py.max. rewrite L. reflexivity. }
  destruct (product_below x mx ex Ex) as [Le St].
  destruct floor_positive as (mm & em & Em & Bm).
  pose proof (Prim2SF_valid (x * d)) as Vy.
  pose proof L as L'. apply ltb_compare in L'. rewrite Em in L'.
  destruct (Prim2SF (x * d)) as [s|s| |s my ey] eqn:Ey.
  - destruct s; cbn in L'; discriminate.
  - destruct s; [cbn in L'; discriminate|].
    apply leb_compare in Le. rewrite Ey, Ex in Le. cbn in Le.
    destruct Le; discriminate.
  - discriminate.
  - destruct s; [cbn in L'; discriminate|].
    unfold valid_binary in Vy.
    destruct (x * d <? x)%float eqn:Lt.
    + (* the product ranks below x *)
      pose proof Lt as Lt'. apply ltb_compare in Lt'. rewrite Ey, Ex in Lt'.
      pose proof (rank_lt my mx ey ex Vy Bx Lt') as Rk.
      destruct (IH (x * d)%float) as (Lm & HL & Hk).
      * intros Inf. rewrite Inf, Prim2SF_infinity in Ey. discriminate.
      * rewrite Ey. rewrite Ex in R. lia.
      * exists Lm. split; [exact HL|]. intros k K.
        destruct k as [|k]; [lia|]. rewrite Nat.iter_succ_r, Step.
        apply Hk. lia.
    + (* the product is x again *)
      assert (E : (x * d)%float = x).
      { apply Prim2SF_inj. rewrite Ey, Ex.
        apply leb_compare in Le. rewrite Ey, Ex in Le.
        assert (N : SFcompare (S754_finite false my ey) (S754_finite false mx ex)
                    <> Some Datatypes.Lt).
        { intros C. rewrite <- Ex, <- Ey in C. apply ltb_compare in C. congruence. }
        destruct Le as [C|C]; [contradiction|].
        cbn [SFcompare] in C. rewrite Pcompare_compare in C.
        destruct (Z.compare_spec ey ex) as [Q|Q|Q]; try discriminate C.
        injection C as C. apply Pos.compare_eq in C. congruence. }
      exists x. split.
      * right. split; [rewrite E in L; exact L|]. split; [|exact E].
        apply float_not_lt_le.
        -- reflexivity.
        -- apply is_nan_spec. rewrite Ex. discriminate.
        -- destruct (smallest_normal <? x)%float eqn:Sn; [|reflexivity].
           specialize (St eq_refl). congruence.
      * intros k _. apply iter_fixed. rewrite Step. exact E.
Qed.

End Step.

(** Every epsilon other than +infinity comes to rest in finitely many
    steps, for any decay strictly between 0 and 1 and any positive finite
    floor. *)
Lemma decay_settles (m d x : float) :
  (0 <? d)%float = true -> (d <? 1)%float = true ->
  (0 <? m)%float = true -> (m <? infinity)%float = true ->
  x <> infinity ->
  exists n L,
    resting m d L /\
    forall k, (n <= k)%nat -> Nat.iter k (decay_step m d) x = L.
Proof.
  intros D0 D1 M0 Mf Hx. exists (S (Z.to_nat (rank (Prim2SF x)))).
  destruct (decay_settles_within m d D0 D1 M0 Mf _ x Hx (Nat.lt_succ_diag_r _))
    as (L & HL & Hk).
  exists L. split; [exact HL|exact Hk].
Qed.

(** For a decay strictly between 0 and 1 and a finite floor that is a
    normal number, the decay brings every epsilon other than +infinity to
    the floor in finitely many steps, and leaves it there. *)
Lemma decay_converges (m d x : float) :
  (0 <? d)%float = true -> (d <? 1)%float = true ->
  (smallest_normal <=? m)%float = true -> (m <? infinity)%float = true ->
  x <> infinity ->
  exists n, forall k, (n <= k)%nat -> Nat.iter k (decay_step m d) x = m.
Proof.
  intros D0 D1 Mn Mf Hx.
  assert (M0 : (0 <? m)%float = true).
  { apply (float_lt_le_trans _ smallest_normal); [reflexivity|exact Mn]. }
  destruct (decay_settles m d x D0 D1 M0 Mf Hx) as (n & L & [->|(A & B & _)] & Hk).
  - exists n. exact Hk.
  - exfalso. pose proof (float_lt_le_trans _ _ _ A B) as C.
    apply float_lt_not_le in C. congruence.
Qed.

End Decay.

(* ===================================================================== *)
(** ** Learning                                                          *)
(* ===================================================================== *)

Section Learning.

Lemma set_q_table_set_q_table t t' self :
  set_q_table t (set_q_table t' self) = set_q_table t self.
Proof. reflexivity. Qed.

Lemma q_table_getitem_run sk self :
  q_table_getitem sk self =
  (Ok (default [] (q_table self !! sk)),
   set_q_table (<[sk := default [] (q_table self !! sk)]> (q_table self)) self).
Proof.
  unfold q_table_getitem. destruct (q_table self !! sk) as [r0|] eqn:E.
  - cbn [default]. rewrite insert_id by exact E. destruct self; reflexivity.
  - reflexivity.
Qed.

Lemma q_value_getitem_run sk ak self :
  q_value_getitem sk ak self =
  (Ok (fst (row_getitem (default [] (q_table self !! sk)) ak)),
   set_q_table (<[sk := snd (row_getitem (default [] (q_table self !! sk)) ak)]>
                  (q_table self)) self).
Proof.
  unfold q_value_getitem, bind. rewrite q_table_getitem_run.
  destruct (row_getitem (default [] (q_table self !! sk)) ak) as [v r1].
  unfold modify, ret. cbn [fst snd q_table set_q_table].
  rewrite insert_insert_eq. reflexivity.
Qed.

Lemma q_value_setitem_run sk ak v self :
  q_value_setitem sk ak v self =
  (Ok tt,
   set_q_table (<[sk := row_setitem (default [] (q_table self !! sk)) ak v]>
                  (q_table self)) self).
Proof.
  unfold q_value_setitem, bind. rewrite q_table_getitem_run.
  unfold modify. cbn [q_table set_q_table].
  rewrite insert_insert_eq. reflexivity.
Qed.

Lemma learn_pending (self : BrewingAgent) sk ak e r :
  pending self sk ak -> calculate_reward e = Ok r ->
  learn_from_evaluation e self = (Ok tt, learned self sk ak r).
Proof.
  intros [Hs Ha] Hr.
  unfold learn_from_evaluation, bind at 1, get. rewrite Hs, Ha.
  unfold bind at 1, lift. rewrite Hr.
  unfold bind at 1. rewrite q_value_getitem_run.
  unfold bind. rewrite q_value_setitem_run. unfold modify, learned.
  cbn [q_table set_q_table set_epsilon learning_rate discount_factor epsilon
       epsilon_decay min_epsilon last_state_key last_action_key].
  rewrite lookup_insert_eq. cbn [default]. rewrite insert_insert_eq.
  reflexivity.
Qed.

Lemma learn_idle (self : BrewingAgent) e :
  idle self -> learn_from_evaluation e self = (Ok tt, self).
Proof.
  intros H. unfold learn_from_evaluation, bind, get, ret.
  destruct H as [H|H]; rewrite H; [reflexivity|].
  destruct (last_state_key self); reflexivity.
Qed.

Lemma learned_q_lookup (self : BrewingAgent) sk ak r :
  Spec.q_lookup (q_table (learned self sk ak r)) sk ak
  = (Spec.q_lookup (q_table self) sk ak
     + learning_rate self * (r - Spec.q_lookup (q_table self) sk ak))%float.
Proof.
  unfold learned; simpl. rewrite q_lookup_insert_eq, row_get_setitem_eq. simpl.
  rewrite row_getitem_value, <- q_lookup_row. reflexivity.
Qed.

Lemma learned_q_lookup_other (self : BrewingAgent) sk ak r s a :
  (s, a) <> (sk, ak) ->
  Spec.q_lookup (q_table (learned self sk ak r)) s a = Spec.q_lookup (q_table self) s a.
Proof.
  intros N. unfold learned; simpl.
  destruct (decide (sk = s)) as [<-|Ns].
  - rewrite q_lookup_insert_eq.
    assert (Na : ak <> a) by congruence.
    rewrite row_get_setitem_ne by exact Na.
    rewrite row_getitem_frame, <- q_lookup_row. reflexivity.
  - apply q_lookup_insert_ne. exact Ns.
Qed.

(** C2. With a pending cursor (state_key, action_key), learning from an
    evaluation of reward r returns normally and replaces the stored value
    at the cursor by old + learning_rate * (r - old), old being the stored
    value or 0.0 for an unseen pair; every other pair reads as before.
    When old is 0.0, the rate is 0.1 and the evaluation is valid, the new
    value is the float 0.1 * r itself. *)
Theorem C2_learn_updates_cursor_entry (self : BrewingAgent) (sk ak : string) :
  pending self sk ak ->
  (forall e r, calculate_reward e = Ok r ->
     exists self',
       learn_from_evaluation e self = (Ok tt, self') /\
       Spec.q_lookup (q_table self') sk ak
       = (Spec.q_lookup (q_table self) sk ak
          + learning_rate self * (r - Spec.q_lookup (q_table self) sk ak))%float /\
       (forall s a, (s, a) <> (sk, ak) ->
          Spec.q_lookup (q_table self') s a = Spec.q_lookup (q_table self) s a)) /\
  (forall e, Spec.valid e ->
     learning_rate self = 0.1%float ->
     Spec.q_lookup (q_table self) sk ak = 0.0%float ->
     exists self' r,
       calculate_reward e = Ok r /\
       learn_from_evaluation e self = (Ok tt, self') /\
       Spec.q_lookup (q_table self') sk ak = (0.1 * r)%float).
Proof.
  intros P. split.
  - intros e r Hr. exists (learned self sk ak r).
    split; [apply learn_pending; assumption|]. split.
    + apply learned_q_lookup.
    + intros s a N. apply learned_q_lookup_other. exact N.
  - intros e V Hlr Hold.
    destruct (valid_reward e V) as (Hr & _ & _ & Hx).
    exists (learned self sk ak (Spec.reward e)), (Spec.reward e).
    split; [exact Hr|]. split; [apply learn_pending; assumption|].
    rewrite learned_q_lookup, Hlr, Hold. exact Hx.
Qed.

Lemma C2_learn_updates_cursor_entry_witness :
  pending pending_example "False_3" "14_5_2" /\
  exists self' r,
    calculate_reward (mkBrewEvaluation None None None (Some 9) None None) = Ok r /\
    learn_from_evaluation (mkBrewEvaluation None None None (Some 9) None None)
      pending_example = (Ok tt, self') /\
    Spec.q_lookup (q_table self') "False_3" "14_5_2" = (0.1 * r)%float.
Proof.
  split; [split; reflexivity|].
  apply (proj2 (C2_learn_updates_cursor_entry pending_example "False_3" "14_5_2"
                  (conj eq_refl eq_refl))); reflexivity.
Defined.

(** C7. With no pending cursor, as in a fresh agent or after
    [reset_last_action], learning from any evaluation returns normally and
    leaves the agent as it was: table, epsilon and cursor included. *)
Theorem C7_learn_without_cursor_is_noop (self : BrewingAgent) (e : BrewEvaluation) :
  idle self ->
  learn_from_evaluation e self = (Ok tt, self) /\
  learn_from_evaluation e (snd (reset_last_action self))
  = (Ok tt, snd (reset_last_action self)) /\
  (forall lr df eps dec mn,
     learn_from_evaluation e (__init__ lr df eps dec mn)
     = (Ok tt, __init__ lr df eps dec mn)).
Proof.
  intros H. split; [apply learn_idle; exact H|]. split.
  - apply learn_idle. left. reflexivity.
  - intros. apply learn_idle. left. reflexivity.
Qed.

Lemma C7_learn_without_cursor_is_noop_witness :
  idle default_agent /\
  learn_from_evaluation (mkBrewEvaluation None None None (Some 9) None None)
    default_agent = (Ok tt, default_agent).
Proof.
  split; [left; reflexivity|].
  apply (C7_learn_without_cursor_is_noop default_agent
           (mkBrewEvaluation None None None (Some 9) None None)).
  left; reflexivity.
Defined.

(** *** The exploration rate *)

Lemma learn_all_pending (es : list BrewEvaluation) :
  forall self sk ak,
    pending self sk ak -> Forall Spec.valid es ->
    exists self',
      learn_all es self = (Ok tt, self') /\ pending self' sk ak /\
      min_epsilon self' = min_epsilon self /\
      epsilon_decay self' = epsilon_decay self /\
      epsilon self'
      = Nat.iter (length es) (decay_step (min_epsilon self) (epsilon_decay self))
          (epsilon self).
Proof.
  induction es as [|e rest IH]; intros self sk ak P V.
  - exists self. simpl. auto.
  - inversion V as [|? ? Ve Vrest]; subst.
    destruct (valid_reward e Ve) as (Hr & _).
    pose proof (learn_pending self sk ak e _ P Hr) as L.
    assert (P' : pending (learned self sk ak (Spec.reward e)) sk ak) by exact P.
    destruct (IH _ sk ak P' Vrest) as (self' & R & Q & Hm & Hd & He).
    exists self'. cbn [learn_all]. unfold bind at 1. rewrite L.
    split; [exact R|]. split; [exact Q|]. split; [exact Hm|]. split; [exact Hd|].
    rewrite He. cbn [length]. rewrite Nat.iter_succ_r. reflexivity.
Qed.

Lemma Forall_repeat_same {A} (P : A -> Prop) (x : A) (n : nat) :
  P x -> Forall P (repeat x n).
Proof. intros H. induction n; simpl; constructor; assumption. Qed.

Lemma default_floor_reached :
  Nat.iter 460 (decay_step 0.01 0.995) 0.1%float = 0.01%float /\
  decay_step 0.01 0.995 0.01 = 0.01%float.
Proof. split; vm_compute; reflexivity. Qed.

Lemma default_floor_not_before :
  Nat.iter 459 (decay_step 0.01 0.995) 0.1%float = 0.010018300685223599%float.
Proof. vm_compute. reflexivity. Qed.

(** An infinite epsilon is never lowered: the product with a positive
    decay is infinite again and exceeds every finite floor. *)
Lemma infinite_epsilon_stays (m d : float) :
  (0 <? d)%float = true -> (m <? infinity)%float = true ->
  decay_step m d infinity = infinity.
Proof.
  intros D Mf. unfold decay_step, Py.max.
  assert (E : (infinity * d)%float = infinity).
  { apply Prim2SF_inj. rewrite mul_spec, Prim2SF_infinity.
    rewrite ltb_spec, Prim2SF_zero in D.
    destruct (Prim2SF d) as [[|]|[|]| |[|] md ed]; try discriminate D; reflexivity. }
  rewrite E, Mf. reflexivity.
Qed.

Lemma stalled_step :
  decay_step (min_epsilon stalled) (epsilon_decay stalled) (epsilon stalled)
  = epsilon stalled.
Proof. vm_compute. reflexivity. Qed.

Lemma float_neq (x y : float) : PrimFloat.Leibniz.eqb x y = false -> x <> y.
Proof.
  intros H E. apply FloatAxioms.Leibniz.eqb_spec in E. congruence.
Qed.

(** C5, as stated, fails in both halves.  A call without a pending
    cursor does not decay: a fresh default agent keeps epsilon 0.1, while
    max(0.01, 0.1 * 0.995) is 0.0995.  And convergence fails for an agent
    with decay 0.9 in (0,1) and the positive floor 2^-1074: from epsilon
    3 * 2^-1074, with a pending cursor, the product 3 * 2^-1074 * 0.9 is
    rounded back to 3 * 2^-1074, so every call leaves epsilon where it
    was, above the floor. *)
Lemma C5_learn_counterexample :
  (Spec.valid (mkBrewEvaluation None None None (Some 9) None None) /\
   epsilon (snd (learn_from_evaluation
                   (mkBrewEvaluation None None None (Some 9) None None) default_agent))
   = 0.1%float /\
   Py.max (min_epsilon default_agent)
     (epsilon default_agent * epsilon_decay default_agent)%float
   = 0.099500000000000005%float /\
   epsilon (snd (learn_from_evaluation
                   (mkBrewEvaluation None None None (Some 9) None None) default_agent))
   <> Py.max (min_epsilon default_agent)
        (epsilon default_agent * epsilon_decay default_agent)%float) /\
  (pending stalled "False_3" "14_5_2" /\
   (0 <? epsilon_decay stalled)%float = true /\
   (epsilon_decay stalled <? 1)%float = true /\
   (0 <? min_epsilon stalled)%float = true /\
   (min_epsilon stalled <? epsilon stalled)%float = true /\
   (epsilon stalled <? 1)%float = true /\
   forall es, Forall Spec.valid es ->
     fst (learn_all es stalled) = Ok tt /\
     epsilon (snd (learn_all es stalled)) = epsilon stalled /\
     epsilon (snd (learn_all es stalled)) <> min_epsilon stalled).
Proof.
  split.
  - split; [reflexivity|]. split; [reflexivity|]. split; [vm_compute; reflexivity|].
    apply float_neq. vm_compute. reflexivity.
  - split; [split; reflexivity|]. do 5 (split; [vm_compute; reflexivity|]).
    intros es V.
    destruct (learn_all_pending es stalled "False_3" "14_5_2"
                (conj eq_refl eq_refl) V) as (self' & R & _ & _ & _ & He).
    rewrite R. cbn [fst snd]. split; [reflexivity|].
    assert (E : epsilon self' = epsilon stalled).
    { rewrite He. apply iter_fixed. exact stalled_step. }
    split; [exact E|]. rewrite E. apply float_neq. vm_compute. reflexivity.
Qed.

(** C5, amended. A call of learn with a pending cursor and a valid evaluation
    sets epsilon to max(min_epsilon, epsilon_before * epsilon_decay) and
    leaves min_epsilon and epsilon_decay alone; a call without a pending
    cursor leaves epsilon as it was.  Once epsilon equals min_epsilon, and
    min_epsilon * epsilon_decay is not greater than min_epsilon, it stays
    there under any further calls.  For every agent whose decay is in
    (0,1) and whose floor is positive and finite, calls with a pending
    cursor bring epsilon, whatever it was at the start except +infinity,
    to rest after finitely many of them: at min_epsilon, or else at a
    value above min_epsilon and not above the smallest normal double,
    2^-1022, that the multiplication by the decay rounds back to itself.
    So when min_epsilon is not below 2^-1022 there is a number of calls
    from which on epsilon equals min_epsilon.  An epsilon of +infinity is
    kept for ever.  With the default configuration (epsilon 0.1, decay
    0.995, min_epsilon 0.01) epsilon equals min_epsilon after 460 calls,
    and not after 459. *)
Theorem C5_epsilon_decay_with_cursor :
  (forall self sk ak e, pending self sk ak -> Spec.valid e ->
     exists self',
       learn_from_evaluation e self = (Ok tt, self') /\
       epsilon self'
       = Py.max (min_epsilon self) (epsilon self * epsilon_decay self)%float /\
       min_epsilon self' = min_epsilon self /\
       epsilon_decay self' = epsilon_decay self) /\
  (forall self e, idle self ->
     epsilon (snd (learn_from_evaluation e self)) = epsilon self) /\
  (forall self sk ak es, pending self sk ak -> Forall Spec.valid es ->
     epsilon self = min_epsilon self ->
     (min_epsilon self <? min_epsilon self * epsilon_decay self)%float = false ->
     epsilon (snd (learn_all es self)) = min_epsilon self) /\
  (forall self sk ak, pending self sk ak ->
     (0 <? epsilon_decay self)%float = true ->
     (epsilon_decay self <? 1)%float = true ->
     (0 <? min_epsilon self)%float = true ->
     (min_epsilon self <? infinity)%float = true ->
     (epsilon self <> infinity ->
      exists n L, resting (min_epsilon self) (epsilon_decay self) L /\
        forall es, Forall Spec.valid es -> (n <= length es)%nat ->
          fst (learn_all es self) = Ok tt /\
          epsilon (snd (learn_all es self)) = L) /\
     (epsilon self <> infinity ->
      (smallest_normal <=? min_epsilon self)%float = true ->
      exists n, forall es, Forall Spec.valid es -> (n <= length es)%nat ->
        fst (learn_all es self) = Ok tt /\
        epsilon (snd (learn_all es self)) = min_epsilon self) /\
     (epsilon self = infinity ->
      forall es, Forall Spec.valid es ->
        fst (learn_all es self) = Ok tt /\
        epsilon (snd (learn_all es self)) = infinity)) /\
  (forall self sk ak es, pending self sk ak -> Forall Spec.valid es ->
     epsilon self = 0.1%float -> epsilon_decay self = 0.995%float ->
     min_epsilon self = 0.01%float -> (460 <= length es)%nat ->
     epsilon (snd (learn_all es self)) = 0.01%float) /\
  Nat.iter 459 (decay_step 0.01 0.995) 0.1%float <> 0.01%float /\
  (exists es, Forall Spec.valid es /\ length es = 460%nat /\
     epsilon (snd (learn_all es pending_example)) = 0.01%float).
Proof.
  split; [|split; [|split; [|split; [|split; [|split]]]]].
  - intros self sk ak e P V. destruct (valid_reward e V) as (Hr & _).
    exists (learned self sk ak (Spec.reward e)).
    split; [apply learn_pending; assumption|]. repeat split.
  - intros self e I. rewrite learn_idle by exact I. reflexivity.
  - intros self sk ak es P V E F.
    destruct (learn_all_pending es self sk ak P V) as (self' & R & _ & _ & _ & He).
    rewrite R. cbn [snd]. rewrite He, E. apply iter_fixed.
    unfold decay_step, Py.max. rewrite F. reflexivity.
  - intros self sk ak P D0 D1 M0 Mf. split; [|split].
    + intros Hx.
      destruct (decay_settles (min_epsilon self) (epsilon_decay self) (epsilon self)
                  D0 D1 M0 Mf Hx) as (n & L & HL & Hn).
      exists n, L. split; [exact HL|]. intros es V Len.
      destruct (learn_all_pending es self sk ak P V) as (self' & R & _ & _ & _ & He).
      rewrite R. cbn [fst snd]. split; [reflexivity|].
      rewrite He. apply Hn. exact Len.
    + intros Hx Mn.
      destruct (decay_converges (min_epsilon self) (epsilon_decay self) (epsilon self)
                  D0 D1 Mn Mf Hx) as [n Hn].
      exists n. intros es V Len.
      destruct (learn_all_pending es self sk ak P V) as (self' & R & _ & _ & _ & He).
      rewrite R. cbn [fst snd]. split; [reflexivity|].
      rewrite He. apply Hn. exact Len.
    + intros Hx es V.
      destruct (learn_all_pending es self sk ak P V) as (self' & R & _ & _ & _ & He).
      rewrite R. cbn [fst snd]. split; [reflexivity|].
      rewrite He, Hx. apply iter_fixed. apply infinite_epsilon_stays; assumption.
  - intros self sk ak es P V E D Mn Len.
    destruct (learn_all_pending es self sk ak P V) as (self' & R & _ & _ & _ & He).
    rewrite R. cbn [snd]. rewrite He, E, D, Mn.
    replace (length es) with ((length es - 460) + 460)%nat by lia.
    rewrite Nat.iter_add. destruct default_floor_reached as [H1 H2].
    rewrite H1. apply iter_fixed. exact H2.
  - rewrite default_floor_not_before. apply float_neq. vm_compute. reflexivity.
  - exists (repeat (mkBrewEvaluation None None None (Some 9) None None) 460).
    assert (V : Forall Spec.valid
                  (repeat (mkBrewEvaluation None None None (Some 9) None None) 460)).
    { apply Forall_repeat_same. reflexivity. }
    split; [exact V|]. split; [apply repeat_length|].
    destruct (learn_all_pending _ pending_example "False_3" "14_5_2"
                (conj eq_refl eq_refl) V) as (self' & R & _ & _ & _ & He).
    rewrite R. cbn [snd]. rewrite He, repeat_length.
    exact (proj1 default_floor_reached).
Qed.

End Learning.

(* ===================================================================== *)
(** ** Queries that store a row                                          *)
(* ===================================================================== *)

Section Queries.

Lemma baseline_action_key (state : BrewState) :
  action_to_key (get_baseline_action state) = Ok "14_5_2".
Proof. vm_compute. reflexivity. Qed.

Lemma get_best_action_no_row (state_key : string) (state : BrewState) self :
  q_table self !! state_key = None ->
  _get_best_action state_key state self
  = (Ok (get_baseline_action state),
     set_q_table (<[state_key := []]> (q_table self)) self).
Proof.
  intros H. unfold _get_best_action, bind. rewrite q_table_getitem_run, H.
  reflexivity.
Qed.

Lemma recommendations_no_row (state : BrewState) (top_k : Z) self :
  q_table self !! state_to_key state = None ->
  get_action_recommendations state top_k self
  = (Ok [(get_baseline_action state, 0.0%float)],
     set_q_table (<[state_to_key state := []]> (q_table self)) self).
Proof.
  intros H. unfold get_action_recommendations, bind.
  rewrite q_table_getitem_run, H. reflexivity.
Qed.

Lemma suggest_exploit_no_row (state : BrewState) (rnd : draws) self :
  (draw_random rnd <? epsilon self)%float = false ->
  q_table self !! state_to_key state = None ->
  suggest_action state rnd self
  = (Ok (get_baseline_action state),
     set_last_action_key (Some "14_5_2")
       (set_last_state_key (Some (state_to_key state))
          (set_q_table (<[state_to_key state := []]> (q_table self)) self))).
Proof.
  intros E H. unfold suggest_action, bind at 1, get. rewrite E.
  unfold bind at 1. rewrite get_best_action_no_row by exact H.
  unfold bind, modify, lift. rewrite baseline_action_key. reflexivity.
Qed.

(** A suggestion that returns leaves the cursor on the state key and on
    the key of the action it returned. *)
Lemma suggest_action_records_cursor (state : BrewState) (rnd : draws) self action self' :
  suggest_action state rnd self = (Ok action, self') ->
  exists action_key,
    action_to_key action = Ok action_key /\
    pending self' (state_to_key state) action_key.
Proof.
  unfold suggest_action, bind at 1, get. unfold bind at 1.
  destruct (if (draw_random rnd <? epsilon self)%float
            then ret (get_random_action rnd) self
            else _get_best_action (state_to_key state) state self)
    as [[a0|e] s1] eqn:B.
  - assert (B' : (if (draw_random rnd <? epsilon self)%float
                  then ret (get_random_action rnd)
                  else _get_best_action (state_to_key state) state) self
                 = (Ok a0, s1)).
    { destruct (draw_random rnd <? epsilon self)%float; exact B. }
    rewrite B'. unfold bind, modify, lift.
    destruct (action_to_key a0) as [k|e] eqn:K; [|discriminate].
    intros [= <- <-]. exists k. split; [exact K|]. split; reflexivity.
  - assert (B' : (if (draw_random rnd <? epsilon self)%float
                  then ret (get_random_action rnd)
                  else _get_best_action (state_to_key state) state) self
                 = (Raise e, s1)).
    { destruct (draw_random rnd <? epsilon self)%float; exact B. }
    rewrite B'. discriminate.
Qed.

(** What the lost indices of the round trip mean for the agent: exploiting
    the only entry 0_3_0 of a row returns its action but leaves the cursor
    on 0_2_0, so the evaluation that follows is stored under a new key
    and the exploited entry keeps its value. *)
Example exploited_key_is_not_the_cursor :
  let self :=
    snd (load_q_table [("False_0", [("0_3_0", 1.0%float)])] default_agent) in
  let run := suggest_action (mkBrewState false 0) (mkDraws 0.5 1 30.0 20.0) self in
  fst run = Ok (mkBrewAction 1 33.333333333333329 15.0) /\
  last_action_key (snd run) = Some "0_2_0" /\
  q_table (snd (learn_from_evaluation
                  (mkBrewEvaluation None None None (Some 10) None None) (snd run)))
    !! "False_0"
  = Some [("0_3_0", 1.0%float); ("0_2_0", 0.1%float)].
Proof. repeat split; vm_compute; reflexivity. Qed.

(** C10. In a context whose state key has no row, a call of
    get_action_recommendations, and a call of suggest_action that takes
    the exploit branch, both return the baseline and leave the table with
    one more entry: the state key bound to an empty row, which the next
    get_q_table reports; the value read for every pair, stored or not, is
    what it was. *)
Theorem C10_queries_store_empty_row (self : BrewingAgent) (state : BrewState) :
  q_table self !! state_to_key state = None ->
  (forall top_k, exists self',
     get_action_recommendations state top_k self
     = (Ok [(get_baseline_action state, 0.0%float)], self') /\
     q_table self' = <[state_to_key state := []]> (q_table self) /\
     (exists snapshot, fst (get_q_table self') = Ok snapshot /\
        snapshot !! state_to_key state = Some [] /\
        snapshot <> q_table self) /\
     (forall s a, Spec.q_lookup (q_table self') s a = Spec.q_lookup (q_table self) s a)) /\
  (forall rnd, (draw_random rnd <? epsilon self)%float = false ->
     exists self',
     suggest_action state rnd self = (Ok (get_baseline_action state), self') /\
     q_table self' = <[state_to_key state := []]> (q_table self) /\
     (exists snapshot, fst (get_q_table self') = Ok snapshot /\
        snapshot !! state_to_key state = Some [] /\
        snapshot <> q_table self) /\
     (forall s a, Spec.q_lookup (q_table self') s a = Spec.q_lookup (q_table self) s a)).
Proof.
  intros H.
  assert (Snap : forall self',
    q_table self' = <[state_to_key state := []]> (q_table self) ->
    (exists snapshot, fst (get_q_table self') = Ok snapshot /\
        snapshot !! state_to_key state = Some [] /\
        snapshot <> q_table self) /\
    (forall s a, Spec.q_lookup (q_table self') s a = Spec.q_lookup (q_table self) s a)).
  { intros self' T. split.
    - exists (q_table self'). split; [reflexivity|]. rewrite T. split.
      + apply lookup_insert_eq.
      + intros E. rewrite <- E, lookup_insert_eq in H. discriminate.
    - intros s a. rewrite T. apply q_lookup_insert_empty. exact H. }
  split.
  - intros top_k. eexists. split; [apply recommendations_no_row; exact H|].
    split; [reflexivity|]. apply Snap. reflexivity.
  - intros rnd E. eexists. split; [apply suggest_exploit_no_row; assumption|].
    split; [reflexivity|]. apply Snap. reflexivity.
Qed.

Lemma C10_queries_store_empty_row_witness :
  exists self',
    get_action_recommendations (mkBrewState false 3) 3 default_agent
    = (Ok [(get_baseline_action (mkBrewState false 3), 0.0%float)], self') /\
    q_table self' = <["False_3" := []]> (q_table default_agent) /\
    (exists snapshot, fst (get_q_table self') = Ok snapshot /\
       snapshot !! "False_3" = Some [] /\ snapshot <> q_table default_agent) /\
    (forall s a, Spec.q_lookup (q_table self') s a
                 = Spec.q_lookup (q_table default_agent) s a).
Proof.
  apply (proj1 (C10_queries_store_empty_row default_agent (mkBrewState false 3)
                  eq_refl) 3).
Defined.

End Queries.

(* ===================================================================== *)
(** ** The discount factor                                               *)
(* ===================================================================== *)

Section Discount.

Lemma blind_ret {A} (a : A) : blind (ret a).
Proof. intros g self. reflexivity. Qed.

Lemma blind_lift {A} (r : result A) : blind (lift r).
Proof. intros g self. reflexivity. Qed.

Lemma blind_modify (f : BrewingAgent -> BrewingAgent) :
  (forall g self, f (set_discount_factor g self) = set_discount_factor g (f self)) ->
  blind (modify f).
Proof. intros H g self. unfold modify. rewrite H. reflexivity. Qed.

Lemma blind_bind {A B} (m : M A) (k : A -> M B) :
  blind m -> (forall a, blind (k a)) -> blind (bind m k).
Proof.
  intros Hm Hk g self. unfold bind. rewrite Hm.
  destruct (m self) as [[a|e] self']; cbn [fst snd].
  - apply Hk.
  - reflexivity.
Qed.

Lemma blind_get_bind {B} (k : BrewingAgent -> M B) :
  (forall self, blind (k self)) ->
  (forall g self s, k (set_discount_factor g self) s = k self s) ->
  blind (bind get k).
Proof.
  intros Hk Hext g self. unfold bind, get. rewrite Hext. apply Hk.
Qed.

Lemma blind_q_table_getitem (state_key : string) : blind (q_table_getitem state_key).
Proof.
  intros g self. rewrite !q_table_getitem_run. destruct self; reflexivity.
Qed.

Lemma blind_q_value_getitem (sk ak : string) : blind (q_value_getitem sk ak).
Proof.
  intros g self. rewrite !q_value_getitem_run. destruct self; reflexivity.
Qed.

Lemma blind_q_value_setitem (sk ak : string) (v : float) :
  blind (q_value_setitem sk ak v).
Proof.
  intros g self. rewrite !q_value_setitem_run. destruct self; reflexivity.
Qed.

Lemma blind_get_best_action (state_key : string) (state : BrewState) :
  blind (_get_best_action state_key state).
Proof.
  unfold _get_best_action. apply blind_bind; [apply blind_q_table_getitem|].
  intros r. destruct (map fst r); [apply blind_ret|apply blind_lift].
Qed.

Lemma blind_suggest_action (state : BrewState) (rnd : draws) :
  blind (suggest_action state rnd).
Proof.
  unfold suggest_action. apply blind_get_bind.
  - intros self. apply blind_bind.
    + destruct (draw_random rnd <? epsilon self)%float;
        [apply blind_ret|apply blind_get_best_action].
    + intros action. apply blind_bind.
      * apply blind_modify. intros g s. destruct s; reflexivity.
      * intros _. apply blind_bind; [apply blind_lift|].
        intros key. apply blind_bind; [|intros _; apply blind_ret].
        apply blind_modify. intros g s. destruct s; reflexivity.
  - intros g self s. destruct self; reflexivity.
Qed.

Lemma blind_learn_from_evaluation (e : BrewEvaluation) :
  blind (learn_from_evaluation e).
Proof.
  unfold learn_from_evaluation. apply blind_get_bind.
  - intros self. destruct (last_state_key self) as [sk|]; [|apply blind_ret].
    destruct (last_action_key self) as [ak|]; [|apply blind_ret].
    apply blind_bind; [apply blind_lift|]. intros reward.
    apply blind_bind; [apply blind_q_value_getitem|]. intros current_q.
    apply blind_bind; [apply blind_q_value_setitem|]. intros _.
    apply blind_modify. intros g s. destruct s; reflexivity.
  - intros g self s. destruct self; reflexivity.
Qed.

Lemma blind_get_action_recommendations (state : BrewState) (top_k : Z) :
  blind (get_action_recommendations state top_k).
Proof.
  unfold get_action_recommendations.
  apply blind_bind; [apply blind_q_table_getitem|].
  intros r. destruct r; [apply blind_ret|].
  apply blind_bind; [apply blind_lift|].
  intros recs. destruct recs; apply blind_ret.
Qed.

Lemma blind_get_q_table : blind get_q_table.
Proof.
  unfold get_q_table. apply blind_get_bind.
  - intros self. apply blind_ret.
  - intros g self s. destruct self; reflexivity.
Qed.

Lemma blind_load_row (state_key : string) (actions : row) :
  blind (load_row state_key actions).
Proof.
  induction actions as [|[ak v] tl IH]; simpl; [apply blind_ret|].
  apply blind_bind; [apply blind_q_value_setitem|]. intros _. exact IH.
Qed.

Lemma blind_load_q_table (data : list (string * row)) : blind (load_q_table data).
Proof.
  unfold load_q_table. apply blind_bind.
  - apply blind_modify. intros g s. destruct s; reflexivity.
  - intros _. induction data as [|[sk actions] tl IH]; simpl; [apply blind_ret|].
    apply blind_bind; [apply blind_load_row|]. intros _. exact IH.
Qed.

Lemma blind_reset_last_action : blind reset_last_action.
Proof.
  unfold reset_last_action. apply blind_bind.
  - apply blind_modify. intros g s. destruct s; reflexivity.
  - intros _. apply blind_modify. intros g s. destruct s; reflexivity.
Qed.

Lemma run_call_discount (c : call) (g : float) (self : BrewingAgent) :
  run_call c (set_discount_factor g self)
  = (fst (run_call c self), set_discount_factor g (snd (run_call c self))).
Proof.
  destruct c; unfold run_call, answer; cbn [fst snd].
  - rewrite blind_suggest_action. reflexivity.
  - rewrite blind_learn_from_evaluation. reflexivity.
  - rewrite blind_get_action_recommendations. reflexivity.
  - rewrite blind_get_q_table. reflexivity.
  - rewrite blind_load_q_table. reflexivity.
  - rewrite blind_reset_last_action. reflexivity.
Qed.

Lemma run_calls_discount (cs : list call) :
  forall g self,
    run_calls cs (set_discount_factor g self)
    = (fst (run_calls cs self), set_discount_factor g (snd (run_calls cs self))).
Proof.
  induction cs as [|c rest IH]; intros g self; [reflexivity|].
  cbn [run_calls]. rewrite run_call_discount.
  destruct (run_call c self) as [r self']. cbn [fst snd]. rewrite IH.
  destruct (run_calls rest self') as [rs self'']. reflexivity.
Qed.

Lemma same_but_discount_set (a b : BrewingAgent) :
  same_but_discount a b -> b = set_discount_factor (discount_factor b) a.
Proof.
  destruct a, b. unfold same_but_discount. simpl.
  intros (-> & -> & -> & -> & -> & -> & ->). reflexivity.
Qed.

(** C9. Two agents that agree on everything but the discount factor, given
    the same sequence of calls (suggest_action with the same random
    draws, learn_from_evaluation, get_action_recommendations,
    get_q_table, and also load_q_table and reset_last_action), give the
    same replies and end with the same table, cursor, epsilon and other
    settings; each keeps its own discount factor. *)
Theorem C9_discount_factor_is_inert (a b : BrewingAgent) (cs : list call) :
  same_but_discount a b ->
  fst (run_calls cs a) = fst (run_calls cs b) /\
  same_but_discount (snd (run_calls cs a)) (snd (run_calls cs b)) /\
  discount_factor (snd (run_calls cs a)) = discount_factor a /\
  discount_factor (snd (run_calls cs b)) = discount_factor b.
Proof.
  intros S. apply same_but_discount_set in S.
  assert (K : forall x, discount_factor (snd (run_calls cs x)) = discount_factor x).
  { intros x.
    pose proof (run_calls_discount cs (discount_factor x) x) as R.
    assert (X : set_discount_factor (discount_factor x) x = x) by (destruct x; reflexivity).
    rewrite X in R. rewrite R at 1. cbn [snd]. destruct (snd (run_calls cs x)); reflexivity. }
  pose proof (run_calls_discount cs (discount_factor b) a) as R.
  rewrite <- S in R.
  split; [rewrite R; reflexivity|]. split; [|split; apply K].
  rewrite R. cbn [snd]. destruct (snd (run_calls cs a)). repeat split.
Qed.

Lemma C9_discount_factor_is_inert_witness :
  let cs := [SuggestAction (mkBrewState false 3) (mkDraws 0.5 7 30 20);
             LearnFromEvaluation (mkBrewEvaluation None None None (Some 9) None None);
             GetActionRecommendations (mkBrewState false 3) 3;
             GetQTable] in
  fst (run_calls cs default_agent)
  = fst (run_calls cs (set_discount_factor 0.5 default_agent)).
Proof.
  intros cs.
  apply (C9_discount_factor_is_inert default_agent
           (set_discount_factor 0.5 default_agent) cs).
  repeat split.
Defined.

End Discount.

(* ===================================================================== *)
(** ** Malformed action keys                                             *)
(* ===================================================================== *)

Section MalformedKeys.

Lemma unsigned_digits_cases (s : string) :
  (exists z, unsigned_digits s = Ok z) \/ unsigned_digits s = Raise ValueError.
Proof.
  unfold unsigned_digits. destruct s; [auto|].
  destruct (digits _ _); eauto.
Qed.

Lemma int_of_str_cases (s : string) :
  (exists z, int_of_str s = Ok z) \/ int_of_str s = Raise ValueError.
Proof.
  unfold int_of_str.
  assert (K : forall t, (exists z, rbind (unsigned_digits t) (fun z => Ok (- z)) = Ok z)
                        \/ rbind (unsigned_digits t) (fun z => Ok (- z)) = Raise ValueError).
  { intros t. destruct (unsigned_digits_cases t) as [[z ->]| ->]; simpl; eauto. }
  destruct (int_lstrip (int_rstrip s)) as [|c tl]; [apply unsigned_digits_cases|].
  destruct c as [[] [] [] [] [] [] [] []];
    first [apply K | apply unsigned_digits_cases].
Qed.

Lemma malformed_parse (key : string) :
  malformed key <-> parse_action_key key = Raise ValueError.
Proof.
  unfold malformed, parse_action_key.
  destruct (split_underscore key) as [|a [|b [|c [|x tl]]]]; simpl;
    try (split; [reflexivity|intros _; left; lia]).
  split.
  - intros [H|H]; [lia|].
    destruct (int_of_str_cases a) as [[za Ha]|Ha]; rewrite Ha; [|reflexivity].
    destruct (int_of_str_cases b) as [[zb Hb]|Hb]; rewrite Hb; [|reflexivity].
    destruct (int_of_str_cases c) as [[zc Hc]|Hc]; rewrite Hc; [|reflexivity].
    exfalso. rewrite !Exists_cons, Exists_nil in H.
    destruct H as [H|[H|[H|[]]]]; congruence.
  - intros H. right. rewrite !Exists_cons.
    destruct (int_of_str a) as [za|ea] eqn:Ha; simpl in H.
    + destruct (int_of_str b) as [zb|eb] eqn:Hb; simpl in H.
      * destruct (int_of_str c) as [zc|ec] eqn:Hc; simpl in H; [discriminate|].
        right; right; left. congruence.
      * right; left. congruence.
    + left. congruence.
Qed.

Lemma parse_action_key_cases (key : string) :
  (exists idx, parse_action_key key = Ok idx) \/ malformed key.
Proof.
  rewrite malformed_parse. unfold parse_action_key.
  destruct (split_underscore key) as [|a [|b [|c [|x tl]]]]; auto.
  destruct (int_of_str_cases a) as [[za ->]| ->]; simpl; auto.
  destruct (int_of_str_cases b) as [[zb ->]| ->]; simpl; auto.
  destruct (int_of_str_cases c) as [[zc ->]| ->]; simpl; eauto.
Qed.

Lemma well_formed_false (key : string) : well_formed key = false <-> malformed key.
Proof.
  unfold well_formed. destruct (parse_action_key_cases key) as [[idx H]|H].
  - rewrite H. split; [discriminate|]. intros M. apply malformed_parse in M. congruence.
  - pose proof H as H'. apply malformed_parse in H'. rewrite H'. tauto.
Qed.

Lemma action_of_key_malformed (key : string) :
  malformed key -> action_of_key key = Raise ValueError.
Proof.
  intros H. apply malformed_parse in H. unfold action_of_key. rewrite H. reflexivity.
Qed.

Lemma undiscretize_ok_all :
  forallb (fun i => is_ok (_undiscretize_grind i)) (indices 30) = true /\
  forallb (fun i => is_ok (_undiscretize_volume i)) (indices 10) = true /\
  forallb (fun i => is_ok (_undiscretize_dose i)) (indices 10) = true.
Proof. repeat split; vm_compute; reflexivity. Qed.

Lemma action_from_indices_valid (g v d : Z) :
  0 <= g < 30 -> 0 <= v < 10 -> 0 <= d < 10 ->
  exists action, action_from_indices g v d = Ok action.
Proof.
  intros Hg Hv Hd.
  apply (in_indices 30) in Hg. apply (in_indices 10) in Hv, Hd.
  destruct undiscretize_ok_all as (Ag & Av & Ad).
  pose proof (forallb_In _ _ _ Ag Hg) as Bg. cbv beta in Bg.
  pose proof (forallb_In _ _ _ Av Hv) as Bv. cbv beta in Bv.
  pose proof (forallb_In _ _ _ Ad Hd) as Bd. cbv beta in Bd.
  unfold action_from_indices.
  destruct (_undiscretize_grind g); [|discriminate].
  destruct (_undiscretize_volume v); [|discriminate].
  destruct (_undiscretize_dose d); [|discriminate].
  simpl. eauto.
Qed.

Lemma action_of_key_valid (key : string) :
  valid_key key -> exists action, action_of_key key = Ok action.
Proof.
  intros (g & v & d & P & Hg & Hv & Hd). unfold action_of_key. rewrite P. simpl.
  apply action_from_indices_valid; assumption.
Qed.

(** *** Restoring *)

Lemma load_row_ok (state_key : string) (actions : row) self :
  fst (load_row state_key actions self) = Ok tt.
Proof.
  revert self. induction actions as [|[ak v] tl IH]; intros self; [reflexivity|].
  cbn [load_row fold_right]. unfold bind at 1. rewrite q_value_setitem_run.
  apply IH.
Qed.

Lemma load_q_table_ok (data : list (string * row)) self :
  fst (load_q_table data self) = Ok tt.
Proof.
  unfold load_q_table, bind at 1, modify.
  generalize (set_q_table ∅ self). clear self.
  induction data as [|[sk actions] tl IH]; intros self; [reflexivity|].
  cbn [fold_right]. unfold bind at 1.
  pose proof (load_row_ok sk actions self) as L.
  destruct (load_row sk actions self) as [r self']. cbn [fst] in L. subst r.
  apply IH.
Qed.

(** *** Looking up *)

Lemma get_best_action_row (state_key : string) (state : BrewState) self r :
  q_table self !! state_key = Some r ->
  _get_best_action state_key state self
  = (match selected_key r with
     | None => Ok (get_baseline_action state)
     | Some key =>
         try_except_ValueError (action_of_key key) (Ok (get_baseline_action state))
     end, self).
Proof.
  intros H. unfold _get_best_action, bind. rewrite q_table_getitem_run, H.
  cbn [from_option]. unfold id. rewrite insert_id by exact H.
  assert (E : set_q_table (q_table self) self = self) by (destruct self; reflexivity).
  rewrite E. unfold selected_key. destruct (map fst r); reflexivity.
Qed.

Lemma suggest_exploit_malformed (state : BrewState) (rnd : draws) self r key :
  (draw_random rnd <? epsilon self)%float = false ->
  q_table self !! state_to_key state = Some r ->
  selected_key r = Some key -> malformed key ->
  suggest_action state rnd self
  = (Ok (get_baseline_action state),
     set_last_action_key (Some "14_5_2")
       (set_last_state_key (Some (state_to_key state)) self)).
Proof.
  intros E H S Mal. unfold suggest_action, bind at 1, get. rewrite E.
  unfold bind at 1. rewrite (get_best_action_row _ _ _ _ H), S.
  rewrite action_of_key_malformed by exact Mal. cbn [try_except_ValueError].
  unfold bind, modify, lift. rewrite baseline_action_key. reflexivity.
Qed.

Lemma collect_skips_malformed (l : row) :
  collect_recommendations l
  = collect_recommendations (List.filter (fun kv => well_formed (fst kv)) l).
Proof.
  induction l as [|[key v] tl IH]; [reflexivity|].
  cbn [List.filter fst]. destruct (well_formed key) eqn:W.
  - cbn [collect_recommendations]. rewrite IH. reflexivity.
  - apply well_formed_false in W. cbn [collect_recommendations].
    unfold action_of_key at 1.
    apply malformed_parse in W. rewrite W. cbn [rbind try_except_ValueError].
    rewrite <- IH. destruct (collect_recommendations tl); reflexivity.
Qed.

Lemma collect_all_malformed (l : row) :
  Forall (fun kv => malformed (fst kv)) l -> collect_recommendations l = Ok [].
Proof.
  intros H. rewrite collect_skips_malformed.
  replace (List.filter (fun kv => well_formed (fst kv)) l) with (@nil (string * float));
    [reflexivity|].
  induction H as [|[key v] tl Hk Htl IH]; [reflexivity|].
  cbn [List.filter fst] in *. apply well_formed_false in Hk. rewrite Hk. exact IH.
Qed.

Lemma decodable_well_formed (key : string) action :
  action_of_key key = Ok action -> well_formed key = true.
Proof.
  unfold action_of_key, well_formed. destruct (parse_action_key key); [reflexivity|].
  discriminate.
Qed.

Lemma collect_decodable (l : row) :
  Forall (fun kv => malformed (fst kv) \/ decodable (fst kv)) l ->
  exists recs, collect_recommendations l = Ok recs /\
    Forall2 (fun rec kv => action_of_key (fst kv) = Ok (fst rec) /\ snd rec = snd kv)
      recs (List.filter (fun kv => well_formed (fst kv)) l).
Proof.
  induction 1 as [|[key v] tl Hk Htl (recs & IH & Vals)]; [exists []; auto|].
  cbn [collect_recommendations List.filter fst] in *. rewrite IH.
  destruct Hk as [Mal|(action & A)].
  - rewrite action_of_key_malformed by exact Mal.
    apply well_formed_false in Mal. rewrite Mal.
    exists recs. auto.
  - rewrite A, (decodable_well_formed key action A).
    exists ((action, v) :: recs). cbn [rbind try_except_ValueError app].
    split; [reflexivity|]. constructor; [|exact Vals]. split; [exact A|reflexivity].
Qed.

Lemma recommendations_row (state : BrewState) (top_k : Z) self r :
  q_table self !! state_to_key state = Some r -> r <> [] ->
  get_action_recommendations state top_k self
  = (match collect_recommendations (slice_to top_k (sorted_desc r)) with
     | Ok [] => Ok [(get_baseline_action state, 0.0%float)]
     | other => other
     end, self).
Proof.
  intros H N. unfold get_action_recommendations, bind at 1.
  rewrite q_table_getitem_run, H. cbn [from_option]. unfold id. rewrite insert_id by exact H.
  assert (E : set_q_table (q_table self) self = self) by (destruct self; reflexivity).
  rewrite E. destruct r as [|kv tl]; [contradiction|].
  unfold bind, lift.
  destruct (collect_recommendations _) as [[|rec recs]|e]; reflexivity.
Qed.

(** C8, as stated, fails for get_action_recommendations: the look-up
    selects the malformed entry and yet answers with the action of 1_2_3,
    not with the baseline. *)
Lemma C8_recommendations_counterexample :
  fst (load_q_table corrupt_data default_agent) = Ok tt /\
  q_table restored !! "False_0" = Some [("bad", 1.0%float); ("1_2_3", 0.5%float)] /\
  parse_action_key "bad" = Raise ValueError /\
  slice_to 3 (sorted_desc [("bad", 1.0%float); ("1_2_3", 0.5%float)])
  = [("bad", 1.0%float); ("1_2_3", 0.5%float)] /\
  fst (get_action_recommendations (mkBrewState false 0) 3 restored)
  = Ok [(mkBrewAction 2 30.555555555555557 18.333333333333332, 0.5%float)] /\
  get_baseline_action (mkBrewState false 0) = mkBrewAction 15 40.0 18.0.
Proof. repeat split; vm_compute; reflexivity. Qed.

(** A restored table whose best entry is malformed: exploiting falls back
    to the baseline, and so does the recommendation of the single best. *)
Example suggest_on_restored_falls_back :
  suggest_action (mkBrewState false 0) (mkDraws 0.5 1 30.0 20.0) restored
  = (Ok (get_baseline_action (mkBrewState false 0)),
     set_last_action_key (Some "14_5_2")
       (set_last_state_key (Some (state_to_key (mkBrewState false 0))) restored)) /\
  fst (get_action_recommendations (mkBrewState false 0) 1 restored)
  = Ok [(get_baseline_action (mkBrewState false 0), 0.0%float)].
Proof.
  split.
  - apply (suggest_exploit_malformed _ _ _
             [("bad", 1.0%float); ("1_2_3", 0.5%float)] "bad");
      [reflexivity|reflexivity|reflexivity|].
    apply malformed_parse. reflexivity.
  - vm_compute. reflexivity.
Qed.

(** C8, amended. Restoring any table returns normally.  When suggest_action
    exploits and the key it selects is malformed, it returns the baseline
    action and records the baseline's key as cursor.
    get_action_recommendations passes over the malformed entries among
    those it selected instead of replacing each by the baseline: its loop
    gives the same result on a list and on the list without its malformed
    entries, and on a list whose entries are malformed or can be decoded
    it returns normally, with one recommendation for each entry that is
    well formed, in order, holding the action decoded from that entry's
    key and that entry's stored value.  So, on a row that stores no NaN,
    when every selected entry is malformed the result is the single
    baseline entry, and when every selected entry is malformed or can be
    decoded the result is the list of the decoded entries, or the single
    baseline entry when that list is empty.  A key that names valid
    indices can be decoded. *)
Theorem C8_malformed_keys_are_tolerated :
  (forall data self, fst (load_q_table data self) = Ok tt) /\
  (forall state rnd self r key,
     (draw_random rnd <? epsilon self)%float = false ->
     q_table self !! state_to_key state = Some r ->
     selected_key r = Some key -> malformed key ->
     suggest_action state rnd self
     = (Ok (get_baseline_action state),
        set_last_action_key (Some "14_5_2")
          (set_last_state_key (Some (state_to_key state)) self))) /\
  (forall state top_k self r,
     q_table self !! state_to_key state = Some r -> r <> [] -> nan_free r ->
     Forall (fun kv => malformed (fst kv)) (slice_to top_k (sorted_desc r)) ->
     get_action_recommendations state top_k self
     = (Ok [(get_baseline_action state, 0.0%float)], self)) /\
  (forall l,
     collect_recommendations l
     = collect_recommendations (List.filter (fun kv => well_formed (fst kv)) l)) /\
  (forall l,
     Forall (fun kv => malformed (fst kv) \/ decodable (fst kv)) l ->
     exists recs,
       collect_recommendations l = Ok recs /\
       Forall2 (fun rec kv => action_of_key (fst kv) = Ok (fst rec) /\ snd rec = snd kv)
         recs (List.filter (fun kv => well_formed (fst kv)) l)) /\
  (forall state top_k self r,
     q_table self !! state_to_key state = Some r -> r <> [] -> nan_free r ->
     Forall (fun kv => malformed (fst kv) \/ decodable (fst kv))
       (slice_to top_k (sorted_desc r)) ->
     exists recs,
       Forall2 (fun rec kv => action_of_key (fst kv) = Ok (fst rec) /\ snd rec = snd kv)
         recs (List.filter (fun kv => well_formed (fst kv))
                 (slice_to top_k (sorted_desc r))) /\
       get_action_recommendations state top_k self
       = (Ok (match recs with
              | [] => [(get_baseline_action state, 0.0%float)]
              | _ => recs
              end), self)) /\
  (forall key, valid_key key -> decodable key).
Proof.
  split; [exact load_q_table_ok|]. split; [exact suggest_exploit_malformed|].
  split; [|split; [exact collect_skips_malformed|]].
  - intros state top_k self r H N _ F.
    rewrite (recommendations_row _ _ _ _ H N), (collect_all_malformed _ F).
    reflexivity.
  - split; [exact collect_decodable|]. split; [|exact action_of_key_valid].
    intros state top_k self r H N _ F.
    rewrite (recommendations_row _ _ _ _ H N).
    destruct (collect_decodable _ F) as (recs & C & Vals). rewrite C.
    exists recs. split; [exact Vals|]. destruct recs; reflexivity.
Qed.

End MalformedKeys.

(* ===================================================================== *)
(** ** The format of action keys                                         *)
(* ===================================================================== *)

Section KeyFormat.

Lemma digit_of_pretty_N_char (d : N) :
  (d < 10)%N -> digit_of (pretty_N_char d) = Some (Z.of_N d).
Proof.
  intros H.
  assert (K : (d = 0 \/ d = 1 \/ d = 2 \/ d = 3 \/ d = 4 \/ d = 5 \/ d = 6 \/
               d = 7 \/ d = 8 \/ d = 9)%N) by lia.
  repeat (destruct K as [K|K]; [subst d; reflexivity|]). subst d; reflexivity.
Qed.

Lemma append_cons (c : ascii) (a b : string) :
  String c a +:+ b = String c (a +:+ b).
Proof. reflexivity. Qed.

Lemma append_nil (b : string) : "" +:+ b = b.
Proof. reflexivity. Qed.

Lemma append_assoc (a b c : string) : (a +:+ b) +:+ c = a +:+ (b +:+ c).
Proof.
  induction a as [|x a IH]; [reflexivity|].
  rewrite !append_cons, IH. reflexivity.
Qed.

Lemma pretty_N_go_app (x : N) :
  forall s, pretty_N_go x s = pretty_N_go x "" +:+ s.
Proof.
  induction (N.lt_wf_0 x) as [x _ IH]. intros s.
  destruct (N.eq_dec x 0%N) as [->|Hx]; [reflexivity|].
  assert (Hpos : (0 < x)%N) by lia.
  rewrite (pretty_N_go_step x s), (pretty_N_go_step x "") by exact Hpos.
  assert (Hlt : (x `div` 10 < x)%N) by (apply N.div_lt; lia).
  rewrite (IH _ Hlt (String _ s)), (IH _ Hlt (String _ "")).
  rewrite append_assoc, append_cons, append_nil. reflexivity.
Qed.

Lemma digits_app (a b : string) :
  forall acc, digits (a +:+ b) acc
  = match digits a acc with Some z => digits b z | None => None end.
Proof.
  induction a as [|c a IH]; intros acc; [reflexivity|].
  rewrite append_cons. cbn [digits].
  destruct (digit_of c); [apply IH|reflexivity].
Qed.

Lemma all_digits_app (a b : string) :
  all_digits (a +:+ b) = all_digits a && all_digits b.
Proof.
  induction a as [|c a IH]; [reflexivity|].
  rewrite append_cons. cbn [all_digits].
  destruct (digit_of c); [exact IH|reflexivity].
Qed.

Lemma pretty_N_go_digits (x : N) :
  digits (pretty_N_go x "") 0 = Some (Z.of_N x) /\
  all_digits (pretty_N_go x "") = true.
Proof.
  induction (N.lt_wf_0 x) as [x _ IH].
  destruct (N.eq_dec x 0%N) as [->|Hx]; [split; reflexivity|].
  assert (Hpos : (0 < x)%N) by lia.
  assert (Hlt : (x `div` 10 < x)%N) by (apply N.div_lt; lia).
  destruct (IH _ Hlt) as [IH1 IH2].
  assert (Hd : (x `mod` 10 < 10)%N) by (apply N.mod_lt; lia).
  rewrite pretty_N_go_step by exact Hpos. rewrite pretty_N_go_app. split.
  - rewrite digits_app, IH1. simpl. rewrite digit_of_pretty_N_char by exact Hd.
    f_equal. pose proof (N.div_mod x 10). lia.
  - rewrite all_digits_app, IH2. simpl.
    rewrite digit_of_pretty_N_char by exact Hd. reflexivity.
Qed.

Lemma pretty_N_digits (x : N) :
  digits (pretty x) 0 = Some (Z.of_N x) /\ all_digits (pretty x) = true /\
  pretty x <> "".
Proof.
  unfold pretty, pretty_N. destruct (decide (x = 0%N)) as [->|Hx].
  - repeat split. discriminate.
  - destruct (pretty_N_go_digits x) as [H1 H2]. repeat split; try assumption.
    intros E. rewrite E in H1. simpl in H1. injection H1 as H1. lia.
Qed.

Lemma digit_not_space (c : ascii) (d : Z) :
  digit_of c = Some d -> is_int_space c = false /\ Ascii.eqb c "_" = false /\
    Ascii.eqb c "-" = false /\ Ascii.eqb c "+" = false.
Proof.
  destruct c as [[] [] [] [] [] [] [] []]; vm_compute; intros H;
    try discriminate H; repeat split.
Qed.

Lemma all_digits_rstrip (s : string) : all_digits s = true -> int_rstrip s = s.
Proof.
  induction s as [|c s IH]; simpl; [reflexivity|].
  destruct (digit_of c) as [d|] eqn:D; [|discriminate].
  intros H. rewrite (IH H). apply digit_not_space in D. destruct D as [D _].
  destruct s; [rewrite D|]; reflexivity.
Qed.

Lemma all_digits_no_underscore (s : string) :
  all_digits s = true -> no_underscore s = true.
Proof.
  induction s as [|c s IH]; simpl; [reflexivity|].
  destruct (digit_of c) as [d|] eqn:D; [|discriminate].
  intros H. apply digit_not_space in D. destruct D as (_ & D & _).
  rewrite D, (IH H). reflexivity.
Qed.

Lemma int_of_str_digits (s : string) (z : Z) :
  all_digits s = true -> s <> "" -> digits s 0 = Some z -> int_of_str s = Ok z.
Proof.
  intros A N D. unfold int_of_str. rewrite all_digits_rstrip by exact A.
  destruct s as [|c s]; [contradiction|].
  simpl in A. destruct (digit_of c) as [d|] eqn:Dc; [|discriminate].
  apply digit_not_space in Dc. destruct Dc as (Sp & _ & Mi & Pl).
  cbn [int_lstrip]. rewrite Sp.
  assert (U : unsigned_digits (String c s) = Ok z).
  { unfold unsigned_digits. rewrite D. reflexivity. }
  destruct c as [[] [] [] [] [] [] [] []]; try exact U; discriminate.
Qed.

Lemma int_of_str_minus_digits (s : string) (z : Z) :
  all_digits s = true -> s <> "" -> digits s 0 = Some z ->
  int_of_str ("-" +:+ s) = Ok (- z).
Proof.
  intros A N D. unfold int_of_str. rewrite append_cons, append_nil.
  assert (R : int_rstrip (String "-" s) = String "-" s).
  { cbn [int_rstrip]. rewrite all_digits_rstrip by exact A.
    destruct s; [contradiction|reflexivity]. }
  rewrite R. destruct s as [|c s]; [contradiction|].
  change (int_lstrip (String "-" (String c s))) with (String "-" (String c s)).
  cbv iota beta. unfold unsigned_digits. rewrite D. reflexivity.
Qed.

(** [int] reads back what [str] writes, for every integer. *)
Lemma int_of_str_str_int (z : Z) : int_of_str (str_int z) = Ok z.
Proof.
  unfold str_int, pretty, pretty_Z. destruct z as [|p|p].
  - reflexivity.
  - destruct (pretty_N_digits (N.pos p)) as (D & A & N).
    apply int_of_str_digits; assumption.
  - destruct (pretty_N_digits (N.pos p)) as (D & A & N).
    change (Z.neg p) with (- Z.of_N (N.pos p)).
    apply int_of_str_minus_digits; assumption.
Qed.

Lemma str_int_no_underscore (z : Z) : no_underscore (str_int z) = true.
Proof.
  unfold str_int, pretty, pretty_Z. destruct z as [|p|p].
  - reflexivity.
  - destruct (pretty_N_digits (N.pos p)) as (_ & A & _).
    apply all_digits_no_underscore. exact A.
  - destruct (pretty_N_digits (N.pos p)) as (_ & A & _).
    rewrite append_cons, append_nil. cbn [no_underscore].
    apply andb_true_iff. split; [reflexivity|].
    apply all_digits_no_underscore. exact A.
Qed.

Lemma split_underscore_whole (s : string) :
  no_underscore s = true -> split_underscore s = [s].
Proof.
  induction s as [|c s IH]; simpl; [reflexivity|].
  intros H. apply andb_true_iff in H. destruct H as [H1 H2].
  apply negb_true_iff in H1. rewrite H1, (IH H2). reflexivity.
Qed.

Lemma split_underscore_app (a b : string) :
  no_underscore a = true ->
  split_underscore (a +:+ "_" +:+ b) = a :: split_underscore b.
Proof.
  induction a as [|c a IH]; [reflexivity|].
  rewrite append_cons. cbn [split_underscore no_underscore].
  intros H. apply andb_true_iff in H. destruct H as [H1 H2].
  apply negb_true_iff in H1. rewrite H1, (IH H2). reflexivity.
Qed.

Lemma parse_format_key (g v d : Z) :
  parse_action_key (format_key g v d) = Ok (g, v, d).
Proof.
  unfold parse_action_key, format_key.
  rewrite split_underscore_app by apply str_int_no_underscore.
  rewrite split_underscore_app by apply str_int_no_underscore.
  rewrite split_underscore_whole by apply str_int_no_underscore.
  rewrite !int_of_str_str_int. reflexivity.
Qed.

Lemma discretize_in_range (action : BrewAction) (g v d : Z) :
  discretize action = Ok (g, v, d) ->
  0 <= g < 30 /\ 0 <= v < 10 /\ 0 <= d < 10.
Proof.
  unfold discretize, _discretize_grind, _discretize_volume, _discretize_dose,
    GRIND_SIZE_BOUNDS, BREW_VOLUME_BOUNDS, COFFEE_DOSE_BOUNDS,
    GRIND_SIZE_STEPS, BREW_VOLUME_STEPS, COFFEE_DOSE_STEPS.
  destruct (int_truediv _ _) as [q|]; [|discriminate]. cbn [rbind].
  destruct (int_of_float _) as [ig|]; [|discriminate]. cbn [rbind].
  destruct (int_of_float _) as [iv|]; [|discriminate]. cbn [rbind].
  destruct (int_of_float _) as [id|]; [|discriminate]. cbn [rbind].
  intros [= <- <- <-]. lia.
Qed.

(** X1. A key written by action_to_key always reads back: parsing it
    gives the three indices it was built from, each within its range, so
    no key the agent writes is malformed. *)
Theorem X1_action_key_round_trip (action : BrewAction) (key : string) :
  action_to_key action = Ok key ->
  exists g v d,
    discretize action = Ok (g, v, d) /\ key = format_key g v d /\
    parse_action_key key = Ok (g, v, d) /\
    0 <= g < 30 /\ 0 <= v < 10 /\ 0 <= d < 10 /\
    valid_key key /\ ~ malformed key.
Proof.
  rewrite action_to_key_discretize.
  destruct (discretize action) as [[[g v] d]|e] eqn:D; [|discriminate].
  cbn [rbind]. intros [= <-]. exists g, v, d.
  pose proof (parse_format_key g v d) as P.
  destruct (discretize_in_range action g v d D) as (Hg & Hv & Hd).
  fold (format_key g v d).
  repeat (split; [first [reflexivity | assumption]|]). split.
  - exists g, v, d. auto.
  - intros M. apply malformed_parse in M. congruence.
Qed.

Lemma X1_action_key_round_trip_witness :
  exists g v d,
    discretize (mkBrewAction 15 40.0 18.0) = Ok (g, v, d) /\
    "14_5_2" = format_key g v d /\
    parse_action_key "14_5_2" = Ok (g, v, d) /\
    0 <= g < 30 /\ 0 <= v < 10 /\ 0 <= d < 10 /\
    valid_key "14_5_2" /\ ~ malformed "14_5_2".
Proof.
  apply (X1_action_key_round_trip (mkBrewAction 15 40.0 18.0) "14_5_2").
  vm_compute. reflexivity.
Defined.

End KeyFormat.

(* ===================================================================== *)
(** ** Actions and keys stay valid                                       *)
(* ===================================================================== *)

Section ValidKeys.

Lemma action_to_key_valid (action : BrewAction) (key : string) :
  action_to_key action = Ok key -> valid_key key.
Proof.
  rewrite action_to_key_discretize.
  destruct (discretize action) as [[[g v] d]|e] eqn:D; [|discriminate].
  cbn [rbind]. intros [= <-]. exists g, v, d.
  split; [apply parse_format_key|]. apply (discretize_in_range action). exact D.
Qed.

Lemma undiscretize_in_bounds_all :
  forallb (fun i => match _undiscretize_grind i with
                    | Ok g => g =? i + 1
                    | Raise _ => false
                    end) (indices 30) = true /\
  forallb (fun i => match _undiscretize_volume i with
                    | Ok v => (25.0 <=? v)%float && (v <=? 50.0)%float
                    | Raise _ => false
                    end) (indices 10) = true /\
  forallb (fun i => match _undiscretize_dose i with
                    | Ok d => (15.0 <=? d)%float && (d <=? 25.0)%float
                    | Raise _ => false
                    end) (indices 10) = true.
Proof. repeat split; vm_compute; reflexivity. Qed.

Lemma action_from_indices_in_bounds (g v d : Z) :
  0 <= g < 30 -> 0 <= v < 10 -> 0 <= d < 10 ->
  exists action,
    action_from_indices g v d = Ok action /\ in_bounds action /\
    grind_size action = g + 1.
Proof.
  intros Rg Hv Hd. pose proof Rg as Hg.
  apply (in_indices 30) in Hg. apply (in_indices 10) in Hv, Hd.
  destruct undiscretize_in_bounds_all as (Ag & Av & Ad).
  pose proof (forallb_In _ _ _ Ag Hg) as Bg. cbv beta in Bg.
  pose proof (forallb_In _ _ _ Av Hv) as Bv. cbv beta in Bv.
  pose proof (forallb_In _ _ _ Ad Hd) as Bd. cbv beta in Bd.
  unfold action_from_indices.
  destruct (_undiscretize_grind g) as [g'|]; [|discriminate].
  destruct (_undiscretize_volume v) as [v'|]; [|discriminate].
  destruct (_undiscretize_dose d) as [d'|]; [|discriminate].
  apply Z.eqb_eq in Bg. apply andb_true_iff in Bv, Bd.
  destruct Bv as [Bv1 Bv2], Bd as [Bd1 Bd2].
  eexists. split; [reflexivity|]. unfold in_bounds. cbn.
  repeat split; try assumption; lia.
Qed.

(** X2. For every valid index triple, action_from_indices returns an
    action within the bounds of the environment: the grind setting is the
    grind index plus one, the volume lies in [25.0, 50.0] and the dose in
    [15.0, 25.0]. *)
Theorem X2_action_from_indices_within_bounds (g v d : Z) :
  0 <= g < 30 -> 0 <= v < 10 -> 0 <= d < 10 ->
  exists action,
    action_from_indices g v d = Ok action /\
    grind_size action = g + 1 /\ 1 <= grind_size action <= 30 /\
    (25.0 <=? brew_volume action)%float = true /\
    (brew_volume action <=? 50.0)%float = true /\
    (15.0 <=? coffee_dose action)%float = true /\
    (coffee_dose action <=? 25.0)%float = true.
Proof.
  intros Hg Hv Hd.
  destruct (action_from_indices_in_bounds g v d Hg Hv Hd)
    as (action & E & (B1 & B2 & B3 & B4 & B5) & G).
  exists action. auto 10.
Qed.

Lemma X2_action_from_indices_within_bounds_witness :
  exists action,
    action_from_indices 29 9 0 = Ok action /\
    grind_size action = 29 + 1 /\ 1 <= grind_size action <= 30 /\
    (25.0 <=? brew_volume action)%float = true /\
    (brew_volume action <=? 50.0)%float = true /\
    (15.0 <=? coffee_dose action)%float = true /\
    (coffee_dose action <=? 25.0)%float = true.
Proof. apply (X2_action_from_indices_within_bounds 29 9 0); lia. Defined.

End ValidKeys.

(* ===================================================================== *)
(** ** What a suggestion does to the agent                               *)
(* ===================================================================== *)

Section Suggestion.

Lemma get_best_action_run (state_key : string) (state : BrewState) self :
  _get_best_action state_key state self
  = (match selected_key (default [] (q_table self !! state_key)) with
     | None => Ok (get_baseline_action state)
     | Some key =>
         try_except_ValueError (action_of_key key) (Ok (get_baseline_action state))
     end,
     set_q_table (<[state_key := default [] (q_table self !! state_key)]>
                    (q_table self)) self).
Proof.
  unfold _get_best_action, bind. rewrite q_table_getitem_run.
  unfold selected_key. destruct (map fst (default [] (q_table self !! state_key)));
    reflexivity.
Qed.

Lemma suggest_action_run (state : BrewState) (rnd : draws) self :
  suggest_action state rnd self
  = match chosen state rnd self with
    | (Raise e, s1) => (Raise e, s1)
    | (Ok action, s1) =>
        match action_to_key action with
        | Raise e => (Raise e, set_last_state_key (Some (state_to_key state)) s1)
        | Ok key =>
            (Ok action,
             set_last_action_key (Some key)
               (set_last_state_key (Some (state_to_key state)) s1))
        end
    end.
Proof.
  unfold suggest_action, chosen, bind at 1, get. unfold bind at 1.
  destruct (draw_random rnd <? epsilon self)%float.
  - unfold ret, bind, modify, lift.
    destruct (action_to_key (get_random_action rnd)); reflexivity.
  - destruct (_get_best_action (state_to_key state) state self) as [[action|e] s1];
      [|reflexivity].
    unfold ret, bind, modify, lift. destruct (action_to_key action); reflexivity.
Qed.

Lemma chosen_table (state : BrewState) (rnd : draws) self :
  snd (chosen state rnd self) = self \/
  snd (chosen state rnd self)
  = set_q_table (<[state_to_key state := default [] (q_table self !! state_to_key state)]>
                   (q_table self)) self.
Proof.
  unfold chosen. destruct (draw_random rnd <? epsilon self)%float; [left; reflexivity|].
  right. rewrite get_best_action_run. reflexivity.
Qed.

Lemma q_lookup_vivified (t : gmap string row) (sk s a : string) :
  Spec.q_lookup (<[sk := default [] (t !! sk)]> t) s a = Spec.q_lookup t s a.
Proof.
  destruct (t !! sk) as [r|] eqn:E; cbn [from_option]; unfold id.
  - rewrite insert_id by exact E. reflexivity.
  - apply q_lookup_insert_empty. exact E.
Qed.

Lemma lookup_vivified (t : gmap string row) (sk s : string) (r : row) :
  t !! s = Some r -> <[sk := default [] (t !! sk)]> t !! s = Some r.
Proof.
  intros H. destruct (decide (sk = s)) as [->|N].
  - rewrite lookup_insert_eq, H. reflexivity.
  - rewrite lookup_insert_ne by exact N. exact H.
Qed.

(** X3. Whatever branch it takes and whether it returns or raises,
    suggest_action changes no stored value, no existing row, neither
    epsilon nor any other setting: every pair reads as before, with 0.0
    for an unseen one; and when it explores the table is left exactly as
    it was. *)
Theorem X3_suggest_action_frame (state : BrewState) (rnd : draws) (self : BrewingAgent) :
  (forall s a,
     Spec.q_lookup (q_table (snd (suggest_action state rnd self))) s a
     = Spec.q_lookup (q_table self) s a) /\
  (forall s r, q_table self !! s = Some r ->
     q_table (snd (suggest_action state rnd self)) !! s = Some r) /\
  epsilon (snd (suggest_action state rnd self)) = epsilon self /\
  learning_rate (snd (suggest_action state rnd self)) = learning_rate self /\
  epsilon_decay (snd (suggest_action state rnd self)) = epsilon_decay self /\
  min_epsilon (snd (suggest_action state rnd self)) = min_epsilon self /\
  ((draw_random rnd <? epsilon self)%float = true ->
   q_table (snd (suggest_action state rnd self)) = q_table self).
Proof.
  rewrite suggest_action_run.
  assert (T : q_table (snd (chosen state rnd self)) = q_table self \/
              q_table (snd (chosen state rnd self))
              = <[state_to_key state := default [] (q_table self !! state_to_key state)]>
                  (q_table self)).
  { destruct (chosen_table state rnd self) as [-> | ->]; [left|right]; reflexivity. }
  assert (C : epsilon (snd (chosen state rnd self)) = epsilon self /\
              learning_rate (snd (chosen state rnd self)) = learning_rate self /\
              epsilon_decay (snd (chosen state rnd self)) = epsilon_decay self /\
              min_epsilon (snd (chosen state rnd self)) = min_epsilon self).
  { destruct (chosen_table state rnd self) as [-> | ->]; repeat split. }
  assert (E : (draw_random rnd <? epsilon self)%float = true ->
              q_table (snd (chosen state rnd self)) = q_table self).
  { intros H. unfold chosen. rewrite H. reflexivity. }
  destruct (chosen state rnd self) as [[action|e] s1]; cbn [snd] in *.
  - assert (Q : forall s a, Spec.q_lookup (q_table s1) s a = Spec.q_lookup (q_table self) s a).
    { intros s a. destruct T as [-> | ->]; [reflexivity|apply q_lookup_vivified]. }
    assert (R : forall s r, q_table self !! s = Some r -> q_table s1 !! s = Some r).
    { intros s r H. destruct T as [-> | ->]; [exact H|apply lookup_vivified; exact H]. }
    destruct (action_to_key action); cbn [snd q_table set_last_action_key
      set_last_state_key epsilon learning_rate epsilon_decay min_epsilon]; tauto.
  - assert (Q : forall s a, Spec.q_lookup (q_table s1) s a = Spec.q_lookup (q_table self) s a).
    { intros s a. destruct T as [-> | ->]; [reflexivity|apply q_lookup_vivified]. }
    assert (R : forall s r, q_table self !! s = Some r -> q_table s1 !! s = Some r).
    { intros s r H. destruct T as [-> | ->]; [exact H|apply lookup_vivified; exact H]. }
    tauto.
Qed.

End Suggestion.

(* ===================================================================== *)
(** ** The agent writes only valid keys                                  *)
(* ===================================================================== *)

Section KeysInvariant.

Lemma table_valid_insert (t : gmap string row) (s : string) (r : row) :
  table_keys_valid t -> Forall (fun kv => valid_key (fst kv)) r ->
  table_keys_valid (<[s := r]> t).
Proof.
  intros T R s' r' H. destruct (decide (s = s')) as [<-|N].
  - rewrite lookup_insert_eq in H. injection H as <-. exact R.
  - rewrite lookup_insert_ne in H by exact N. exact (T _ _ H).
Qed.

Lemma table_valid_row (t : gmap string row) (s : string) :
  table_keys_valid t ->
  Forall (fun kv => valid_key (fst kv)) (default [] (t !! s)).
Proof.
  intros T. destruct (t !! s) as [r|] eqn:E; [exact (T _ _ E)|constructor].
Qed.

Lemma row_setitem_valid (r : row) (k : string) (v : float) :
  Forall (fun kv => valid_key (fst kv)) r -> valid_key k ->
  Forall (fun kv => valid_key (fst kv)) (row_setitem r k v).
Proof.
  intros R K. induction R as [|[k' v'] tl Hk Htl IH]; cbn [row_setitem].
  - constructor; [exact K|constructor].
  - destruct (String.eqb k' k); constructor; assumption.
Qed.

Lemma row_getitem_valid (r : row) (k : string) :
  Forall (fun kv => valid_key (fst kv)) r -> valid_key k ->
  Forall (fun kv => valid_key (fst kv)) (snd (row_getitem r k)).
Proof.
  intros R K. unfold row_getitem. destruct (row_get r k); [exact R|].
  cbn [snd]. apply Forall_app. split; [exact R|]. constructor; [exact K|constructor].
Qed.

Lemma keys_valid_chosen (state : BrewState) (rnd : draws) self :
  keys_valid self -> keys_valid (snd (chosen state rnd self)).
Proof.
  intros [T C]. destruct (chosen_table state rnd self) as [-> | ->]; [split; assumption|].
  split; [|exact C]. cbn [q_table set_q_table].
  apply table_valid_insert; [exact T|]. apply table_valid_row. exact T.
Qed.

Lemma keys_valid_suggest (state : BrewState) (rnd : draws) self :
  keys_valid self -> keys_valid (snd (suggest_action state rnd self)).
Proof.
  intros K. rewrite suggest_action_run.
  pose proof (keys_valid_chosen state rnd self K) as [T C].
  destruct (chosen state rnd self) as [[action|e] s1]; cbn [snd] in *;
    [|split; assumption].
  destruct (action_to_key action) as [key|e] eqn:A; cbn [snd].
  - split; [exact T|]. intros k [= <-]. apply (action_to_key_valid action). exact A.
  - split; assumption.
Qed.

Lemma learn_cases (e : BrewEvaluation) self :
  snd (learn_from_evaluation e self) = self \/
  exists sk ak r, pending self sk ak /\
    snd (learn_from_evaluation e self) = learned self sk ak r.
Proof.
  destruct (last_state_key self) as [sk|] eqn:S;
    [|left; rewrite learn_idle by (left; exact S); reflexivity].
  destruct (last_action_key self) as [ak|] eqn:A;
    [|left; rewrite learn_idle by (right; exact A); reflexivity].
  destruct (calculate_reward e) as [r|x] eqn:R.
  - right. exists sk, ak, r. split; [split; assumption|].
    rewrite (learn_pending self sk ak e r) by (try split; assumption). reflexivity.
  - left. unfold learn_from_evaluation, bind at 1, get. rewrite S, A.
    unfold bind at 1, lift. rewrite R. reflexivity.
Qed.

Lemma keys_valid_learn (e : BrewEvaluation) self :
  keys_valid self -> keys_valid (snd (learn_from_evaluation e self)).
Proof.
  intros [T C]. destruct (learn_cases e self) as [-> | (sk & ak & r & [S A] & ->)];
    [split; assumption|].
  split; [|exact C]. unfold learned. cbn [q_table].
  apply table_valid_insert; [exact T|].
  apply row_setitem_valid; [|exact (C _ A)].
  apply row_getitem_valid; [|exact (C _ A)].
  apply table_valid_row. exact T.
Qed.

Lemma recommendations_state (state : BrewState) (top_k : Z) self :
  snd (get_action_recommendations state top_k self)
  = set_q_table (<[state_to_key state := default [] (q_table self !! state_to_key state)]>
                   (q_table self)) self.
Proof.
  unfold get_action_recommendations, bind at 1. rewrite q_table_getitem_run.
  destruct (default [] (q_table self !! state_to_key state)) as [|kv tl]; [reflexivity|].
  unfold bind, lift.
  destruct (collect_recommendations _) as [[|rec recs]|x]; reflexivity.
Qed.

Lemma keys_valid_recommendations (state : BrewState) (top_k : Z) self :
  keys_valid self -> keys_valid (snd (get_action_recommendations state top_k self)).
Proof.
  intros [T C]. rewrite recommendations_state. split; [|exact C].
  cbn [q_table set_q_table].
  apply table_valid_insert; [exact T|]. apply table_valid_row. exact T.
Qed.

Lemma keys_valid_setitem (sk ak : string) (v : float) self :
  keys_valid self -> valid_key ak ->
  keys_valid (snd (q_value_setitem sk ak v self)).
Proof.
  intros [T C] K. rewrite q_value_setitem_run. split; [|exact C].
  cbn [snd q_table set_q_table].
  apply table_valid_insert; [exact T|].
  apply row_setitem_valid; [|exact K]. apply table_valid_row. exact T.
Qed.

Lemma keys_valid_load_row (sk : string) (actions : row) :
  Forall (fun kv => valid_key (fst kv)) actions ->
  forall self, keys_valid self -> keys_valid (snd (load_row sk actions self)).
Proof.
  induction 1 as [|[ak v] tl Hk Htl IH]; intros self K; [exact K|].
  cbn [load_row fold_right]. unfold bind at 1.
  pose proof (keys_valid_setitem sk ak v self K Hk) as K'.
  rewrite q_value_setitem_run in *. cbn [snd] in K'. apply IH. exact K'.
Qed.

Lemma keys_valid_load (data : list (string * row)) self :
  data_valid data -> keys_valid self ->
  keys_valid (snd (load_q_table data self)).
Proof.
  intros D [T C]. unfold load_q_table, bind at 1, modify.
  assert (K : keys_valid (set_q_table ∅ self)).
  { split; [|exact C]. intros s r H. cbn [q_table set_q_table] in H.
    rewrite lookup_empty in H. discriminate. }
  revert K. generalize (set_q_table ∅ self). clear T C self.
  induction D as [|[sk actions] tl Hr Htl IH]; intros self K; [exact K|].
  cbn [fold_right]. unfold bind at 1.
  pose proof (keys_valid_load_row sk actions Hr self K) as K'.
  pose proof (load_row_ok sk actions self) as L.
  destruct (load_row sk actions self) as [r self']. cbn [fst snd] in *. subst r.
  apply IH. exact K'.
Qed.

Lemma keys_valid_reset self :
  keys_valid self -> keys_valid (snd (reset_last_action self)).
Proof.
  intros [T C]. split; [exact T|]. intros k H. discriminate H.
Qed.

Lemma keys_valid_run_call (c : call) self :
  call_valid c -> keys_valid self -> keys_valid (snd (run_call c self)).
Proof.
  intros V K. destruct c; unfold run_call, answer; cbn [snd].
  - apply keys_valid_suggest. exact K.
  - apply keys_valid_learn. exact K.
  - apply keys_valid_recommendations. exact K.
  - exact K.
  - apply keys_valid_load; assumption.
  - apply keys_valid_reset. exact K.
Qed.

Lemma keys_valid_run_calls (cs : list call) :
  Forall call_valid cs ->
  forall self, keys_valid self -> keys_valid (snd (run_calls cs self)).
Proof.
  induction 1 as [|c rest Hc Hrest IH]; intros self K; [exact K|].
  cbn [run_calls]. pose proof (keys_valid_run_call c self Hc K) as K'.
  destruct (run_call c self) as [r self']. cbn [snd] in K'.
  specialize (IH self' K'). destruct (run_calls rest self') as [rs self''].
  exact IH.
Qed.

Lemma keys_valid_init lr df eps dec mn : keys_valid (__init__ lr df eps dec mn).
Proof.
  split.
  - intros s r H. cbn in H. rewrite lookup_empty in H. discriminate.
  - intros k H. discriminate H.
Qed.

(** X4. The agent never writes a malformed key.  Starting from an agent
    whose table keys and cursor all name valid indices (a new agent is
    one), any sequence of suggest_action, learn_from_evaluation,
    get_action_recommendations, get_q_table and reset_last_action calls,
    and of load_q_table calls whose data hold only valid keys, leaves an
    agent of which the same is true: malformed keys can only come from
    restored data. *)
Theorem X4_only_valid_keys_are_written (cs : list call) (self : BrewingAgent) :
  keys_valid self -> Forall call_valid cs ->
  keys_valid (snd (run_calls cs self)) /\
  (forall s r k v,
     q_table (snd (run_calls cs self)) !! s = Some r -> In (k, v) r ->
     ~ malformed k).
Proof.
  intros K V. pose proof (keys_valid_run_calls cs V self K) as K'.
  split; [exact K'|]. intros s r k v H I M.
  destruct K' as [T _]. specialize (T s r H).
  rewrite Forall_forall in T. specialize (T (k, v)).
  assert (Vk : valid_key k) by (apply T; apply list_elem_of_In; exact I).
  destruct Vk as (g & vi & d & P & _). apply malformed_parse in M. congruence.
Qed.

Lemma X4_only_valid_keys_are_written_witness :
  keys_valid
    (snd (run_calls
            [SuggestAction (mkBrewState false 3) (mkDraws 0.5 7 30 20);
             LearnFromEvaluation (mkBrewEvaluation None None None (Some 9) None None)]
            default_agent)).
Proof.
  apply (X4_only_valid_keys_are_written
           [SuggestAction (mkBrewState false 3) (mkDraws 0.5 7 30 20);
            LearnFromEvaluation (mkBrewEvaluation None None None (Some 9) None None)]
           default_agent).
  - apply keys_valid_init.
  - repeat constructor.
Defined.

End KeysInvariant.

(* ===================================================================== *)
(** ** Exploiting a table of valid keys                                  *)
(* ===================================================================== *)

Section Exploit.

Lemma max_by_in (f : string -> float) (keys : list string) :
  forall best, In (max_by f best keys) (best :: keys).
Proof.
  induction keys as [|k tl IH]; intros best; cbn [max_by]; [left; reflexivity|].
  destruct (f best <? f k)%float.
  - right. apply IH.
  - destruct (IH best) as [H|H]; [left; exact H|right; right; exact H].
Qed.

Lemma selected_key_in (r : row) (key : string) :
  selected_key r = Some key -> exists v, In (key, v) r.
Proof.
  unfold selected_key. destruct (map fst r) as [|k0 keys] eqn:E; [discriminate|].
  intros [= <-].
  pose proof (max_by_in (fun k => default 0.0%float (row_get r k)) keys k0) as I.
  rewrite <- E in I. apply in_map_iff in I. destruct I as ([k v] & K & I).
  cbn [fst] in K. subst k. exists v. exact I.
Qed.

Lemma selected_key_empty (r : row) : selected_key r = None <-> r = [].
Proof.
  unfold selected_key. destruct r as [|[k v] tl]; cbn [map]; split;
    intros H; try reflexivity; discriminate.
Qed.

Lemma rediscretize_ok_all :
  forallb (fun i => is_ok (let* g := _undiscretize_grind i in _discretize_grind g))
    (indices 30) = true /\
  forallb (fun i => is_ok (let* v := _undiscretize_volume i in _discretize_volume v))
    (indices 10) = true /\
  forallb (fun i => is_ok (let* d := _undiscretize_dose i in _discretize_dose d))
    (indices 10) = true.
Proof. repeat split; vm_compute; reflexivity. Qed.

Lemma action_of_valid_key (key : string) :
  valid_key key ->
  exists action key',
    action_of_key key = Ok action /\ in_bounds action /\
    action_to_key action = Ok key'.
Proof.
  intros (g & v & d & P & Hg & Hv & Hd).
  destruct (action_from_indices_in_bounds g v d Hg Hv Hd) as (action & E & B & _).
  apply (in_indices 30) in Hg. apply (in_indices 10) in Hv, Hd.
  destruct rediscretize_ok_all as (Ag & Av & Ad).
  pose proof (forallb_In _ _ _ Ag Hg) as Bg. cbv beta in Bg.
  pose proof (forallb_In _ _ _ Av Hv) as Bv. cbv beta in Bv.
  pose proof (forallb_In _ _ _ Ad Hd) as Bd. cbv beta in Bd.
  unfold action_of_key. rewrite P. cbn [rbind]. rewrite E.
  assert (K : exists key', action_to_key action = Ok key').
  { unfold action_from_indices in E.
    destruct (_undiscretize_grind g) as [g'|]; [|discriminate].
    destruct (_undiscretize_volume v) as [v'|]; [|discriminate].
    destruct (_undiscretize_dose d) as [d'|]; [|discriminate].
    cbn [rbind] in *. injection E as <-.
    unfold action_to_key. cbn [grind_size brew_volume coffee_dose].
    destruct (_discretize_grind g') as [ig|]; [|discriminate].
    destruct (_discretize_volume v') as [iv|]; [|discriminate].
    destruct (_discretize_dose d') as [id|]; [|discriminate].
    cbn [rbind]. eexists. reflexivity. }
  destruct K as (key' & K). exists action, key'. auto.
Qed.

Lemma baseline_in_bounds (state : BrewState) : in_bounds (get_baseline_action state).
Proof. repeat split; vm_compute; try reflexivity; discriminate. Qed.

(** X5. On an agent whose table keys all name valid indices, a
    suggest_action call that exploits always returns: with the baseline
    action when the row of the context is empty or missing, otherwise
    with the action of the key it selected in the row, never through the
    malformed-key fallback.  The returned action is within bounds and the
    cursor is left on a valid key. *)
Theorem X5_exploit_returns_in_bounds
    (state : BrewState) (rnd : draws) (self : BrewingAgent) :
  keys_valid self ->
  (draw_random rnd <? epsilon self)%float = false ->
  exists action key,
    fst (suggest_action state rnd self) = Ok action /\
    in_bounds action /\
    action_to_key action = Ok key /\ valid_key key /\
    pending (snd (suggest_action state rnd self)) (state_to_key state) key /\
    match selected_key (default [] (q_table self !! state_to_key state)) with
    | None => action = get_baseline_action state
    | Some selected => action_of_key selected = Ok action
    end.
Proof.
  intros [T C] E. rewrite suggest_action_run. unfold chosen. rewrite E.
  rewrite get_best_action_run.
  pose proof (table_valid_row (q_table self) (state_to_key state) T) as R.
  destruct (selected_key (default [] (q_table self !! state_to_key state)))
    as [selected|] eqn:S.
  - destruct (selected_key_in _ _ S) as (v & I).
    rewrite Forall_forall in R. specialize (R (selected, v)).
    assert (V : valid_key selected) by (apply R; apply list_elem_of_In; exact I).
    destruct (action_of_valid_key selected V) as (action & key & A & B & K).
    rewrite A. cbn [try_except_ValueError]. rewrite K.
    exists action, key. cbn [fst snd].
    split; [reflexivity|]. split; [exact B|]. split; [exact K|].
    split; [apply (action_to_key_valid action); exact K|].
    split; [split; reflexivity|reflexivity].
  - rewrite baseline_action_key.
    exists (get_baseline_action state), "14_5_2". cbn [fst snd].
    split; [reflexivity|]. split; [apply baseline_in_bounds|].
    split; [apply baseline_action_key|].
    split; [apply (action_to_key_valid (get_baseline_action state));
            apply baseline_action_key|].
    split; [split; reflexivity|reflexivity].
Qed.

Lemma restored_with_valid (g v d : Z) :
  0 <= g < 30 -> 0 <= v < 10 -> 0 <= d < 10 -> keys_valid (restored_with g v d).
Proof.
  intros Hg Hv Hd. split.
  - intros s r H. unfold restored_with in H. cbn [q_table set_q_table] in H.
    destruct (decide ("False_0" = s)) as [<-|N].
    + rewrite lookup_insert_eq in H. injection H as <-.
      constructor; [|constructor]. cbn [fst]. exists g, v, d.
      split; [apply parse_format_key; lia|auto].
    + rewrite lookup_insert_ne, lookup_empty in H by exact N. discriminate.
  - intros k H. injection H as <-. exists 14, 5, 2.
    split; [reflexivity|lia].
Qed.

Lemma X5_exploit_returns_in_bounds_witness :
  exists action key,
    fst (suggest_action (mkBrewState false 0) (mkDraws 0.5 7 30 20) (restored_with 1 2 3))
    = Ok action /\
    in_bounds action /\
    action_to_key action = Ok key /\ valid_key key /\
    pending (snd (suggest_action (mkBrewState false 0) (mkDraws 0.5 7 30 20)
                    (restored_with 1 2 3)))
      (state_to_key (mkBrewState false 0)) key /\
    match selected_key
            (default [] (q_table (restored_with 1 2 3)
                         !! state_to_key (mkBrewState false 0))) with
    | None => action = get_baseline_action (mkBrewState false 0)
    | Some selected => action_of_key selected = Ok action
    end.
Proof.
  apply (X5_exploit_returns_in_bounds (mkBrewState false 0) (mkDraws 0.5 7 30 20)
           (restored_with 1 2 3)).
  - apply restored_with_valid; lia.
  - reflexivity.
Defined.

End Exploit.

(* ===================================================================== *)
(** ** Repeated learning and recommendations                             *)
(* ===================================================================== *)

Section Repeated.

Lemma learn_all_values (es : list BrewEvaluation) :
  forall self sk ak,
    pending self sk ak -> Forall Spec.valid es ->
    exists self',
      learn_all es self = (Ok tt, self') /\ pending self' sk ak /\
      learning_rate self' = learning_rate self /\
      Spec.q_lookup (q_table self') sk ak
      = fold_left (fun q e => q_update (learning_rate self) (Spec.reward e) q) es
          (Spec.q_lookup (q_table self) sk ak) /\
      (forall s a, (s, a) <> (sk, ak) ->
         Spec.q_lookup (q_table self') s a = Spec.q_lookup (q_table self) s a).
Proof.
  induction es as [|e rest IH]; intros self sk ak P V.
  - exists self. cbn [learn_all fold_left]. auto.
  - inversion V as [|? ? Ve Vrest]; subst.
    destruct (valid_reward e Ve) as (Hr & _).
    pose proof (learn_pending self sk ak e _ P Hr) as L.
    assert (P' : pending (learned self sk ak (Spec.reward e)) sk ak) by exact P.
    destruct (IH _ sk ak P' Vrest) as (self' & R & Q & Hl & Hv & Hf).
    exists self'. cbn [learn_all]. unfold bind at 1. rewrite L.
    split; [exact R|]. split; [exact Q|]. split; [exact Hl|]. split.
    + rewrite Hv, learned_q_lookup. reflexivity.
    + intros s a N. rewrite (Hf s a N). apply learned_q_lookup_other. exact N.
Qed.

(** X6. learn_from_evaluation does not clear the cursor: successive calls
    with valid evaluations all return normally, keep the same cursor, and
    each applies the update rule once more to the entry at the cursor,
    with the reward of its own evaluation; no other entry is read
    differently afterwards. *)
Theorem X6_repeated_learn_reapplies_update
    (es : list BrewEvaluation) (self : BrewingAgent) (sk ak : string) :
  pending self sk ak -> Forall Spec.valid es ->
  exists self',
    learn_all es self = (Ok tt, self') /\ pending self' sk ak /\
    Spec.q_lookup (q_table self') sk ak
    = fold_left (fun q e => q_update (learning_rate self) (Spec.reward e) q) es
        (Spec.q_lookup (q_table self) sk ak) /\
    (forall s a, (s, a) <> (sk, ak) ->
       Spec.q_lookup (q_table self') s a = Spec.q_lookup (q_table self) s a).
Proof.
  intros P V.
  destruct (learn_all_values es self sk ak P V) as (self' & R & Q & _ & Hv & Hf).
  exists self'. auto.
Qed.

Lemma X6_repeated_learn_reapplies_update_witness :
  exists self',
    learn_all [mkBrewEvaluation None None None (Some 9) None None;
               mkBrewEvaluation None None None (Some 2) None None] pending_example
    = (Ok tt, self') /\ pending self' "False_3" "14_5_2" /\
    Spec.q_lookup (q_table self') "False_3" "14_5_2"
    = fold_left (fun q e => q_update (learning_rate pending_example) (Spec.reward e) q)
        [mkBrewEvaluation None None None (Some 9) None None;
         mkBrewEvaluation None None None (Some 2) None None]
        (Spec.q_lookup (q_table pending_example) "False_3" "14_5_2") /\
    (forall s a, (s, a) <> ("False_3", "14_5_2") ->
       Spec.q_lookup (q_table self') s a = Spec.q_lookup (q_table pending_example) s a).
Proof.
  apply (X6_repeated_learn_reapplies_update
           [mkBrewEvaluation None None None (Some 9) None None;
            mkBrewEvaluation None None None (Some 2) None None]
           pending_example "False_3" "14_5_2").
  - split; reflexivity.
  - repeat constructor.
Defined.

Lemma insert_desc_in (x y : string * float) (l : row) :
  In y (insert_desc x l) -> y = x \/ In y l.
Proof.
  induction l as [|z tl IH]; cbn [insert_desc].
  - intros [H|[]]. left. congruence.
  - destruct (snd x <? snd z)%float.
    + intros [H|H]; [right; left; exact H|].
      destruct (IH H) as [E|I]; [left; exact E|right; right; exact I].
    + intros [H|H]; [left; congruence|right; exact H].
Qed.

Lemma sorted_desc_in (x : string * float) (l : row) :
  In x (sorted_desc l) -> In x l.
Proof.
  induction l as [|y tl IH]; cbn [sorted_desc fold_right]; [tauto|].
  intros H. apply insert_desc_in in H. destruct H as [->|H]; [left; reflexivity|].
  right. apply IH. exact H.
Qed.

Lemma firstn_in {A} (n : nat) (l : list A) (x : A) :
  In x (firstn n l) -> In x l.
Proof.
  intros H. rewrite <- (firstn_skipn n l). apply in_or_app. left. exact H.
Qed.

Lemma slice_to_in {A} (k : Z) (l : list A) (x : A) :
  In x (slice_to k l) -> In x l.
Proof.
  unfold slice_to. destruct (0 <=? k); intros H; exact (firstn_in _ _ _ H).
Qed.

Lemma slice_to_length {A} (k : Z) (l : list A) :
  0 <= k -> (length (slice_to k l) <= Z.to_nat k)%nat.
Proof.
  intros H. unfold slice_to. apply Z.leb_le in H. rewrite H.
  rewrite length_firstn. lia.
Qed.

Lemma collect_sound (l : row) (recs : list (BrewAction * float)) :
  collect_recommendations l = Ok recs ->
  (length recs <= length l)%nat /\
  Forall (fun rec => exists key, In (key, snd rec) l /\
                       action_of_key key = Ok (fst rec)) recs.
Proof.
  revert recs. induction l as [|[key v] tl IH]; intros recs; cbn [collect_recommendations].
  - intros [= <-]. split; [reflexivity|constructor].
  - destruct (action_of_key key) as [action|x] eqn:A; cbn [rbind try_except_ValueError].
    + destruct (collect_recommendations tl) as [others|]; [|discriminate].
      cbn [rbind]. intros [= <-]. destruct (IH others eq_refl) as [L F].
      split; [cbn [app length]; lia|]. cbn [app]. constructor.
      * exists key. split; [left; reflexivity|exact A].
      * eapply Forall_impl; [exact F|]. intros rec (k & I & E).
        exists k. split; [right; exact I|exact E].
    + destruct x; cbn [rbind]; try discriminate.
      destruct (collect_recommendations tl) as [others|]; [|discriminate].
      cbn [rbind app]. intros [= <-]. destruct (IH others eq_refl) as [L F].
      split; [cbn [length]; lia|].
      eapply Forall_impl; [exact F|]. intros rec (k & I & E).
      exists k. split; [right; exact I|exact E].
Qed.

(** X7. When get_action_recommendations returns, the list is never empty
    and, for top_k >= 0, has at most max(1, top_k) entries; it is either
    the single baseline entry with value 0.0, or every entry pairs a value
    stored in the row of the context with the action of its key. *)
Theorem X7_recommendations_bounded
    (state : BrewState) (top_k : Z) (self : BrewingAgent)
    (recs : list (BrewAction * float)) :
  fst (get_action_recommendations state top_k self) = Ok recs ->
  recs <> [] /\
  (0 <= top_k -> (length recs <= Z.to_nat (Z.max 1 top_k))%nat) /\
  (recs = [(get_baseline_action state, 0.0%float)] \/
   Forall (fun rec =>
             exists key,
               In (key, snd rec) (default [] (q_table self !! state_to_key state)) /\
               action_of_key key = Ok (fst rec)) recs).
Proof.
  unfold get_action_recommendations, bind at 1. rewrite q_table_getitem_run.
  destruct (default [] (q_table self !! state_to_key state)) as [|kv tl] eqn:R.
  - cbn [fst ret]. intros [= <-]. split; [discriminate|]. split; [|left; reflexivity].
    intros H. cbn [length]. lia.
  - unfold bind, lift.
    destruct (collect_recommendations (slice_to top_k (sorted_desc (kv :: tl))))
      as [[|rec recs']|x] eqn:C; cbn [fst ret]; intros [= <-].
    + split; [discriminate|]. split; [|left; reflexivity].
      intros H. cbn [length]. lia.
    + destruct (collect_sound _ _ C) as [L F]. split; [discriminate|]. split.
      * intros H. pose proof (slice_to_length top_k (sorted_desc (kv :: tl)) H). lia.
      * right. eapply Forall_impl; [exact F|]. intros r (k & I & E).
        exists k. split; [|exact E].
        apply sorted_desc_in. eapply slice_to_in. exact I.
Qed.

Lemma X7_recommendations_bounded_witness :
  [(mkBrewAction 2 30.555555555555557 18.333333333333332, 0.5%float)] <> [] /\
  (0 <= 3 ->
   (length [(mkBrewAction 2 30.555555555555557 18.333333333333332, 0.5%float)]
    <= Z.to_nat (Z.max 1 3))%nat) /\
  ([(mkBrewAction 2 30.555555555555557 18.333333333333332, 0.5%float)]
   = [(get_baseline_action (mkBrewState false 0), 0.0%float)] \/
   Forall (fun rec =>
             exists key,
               In (key, snd rec)
                 (default [] (q_table restored !! state_to_key (mkBrewState false 0))) /\
               action_of_key key = Ok (fst rec))
     [(mkBrewAction 2 30.555555555555557 18.333333333333332, 0.5%float)]).
Proof.
  apply (X7_recommendations_bounded (mkBrewState false 0) 3 restored).
  vm_compute. reflexivity.
Defined.

End Repeated.

(* ===================================================================== *)
(** ** Restoring a table                                                 *)
(* ===================================================================== *)

Section Restore.

Lemma row_setitem_new (r : row) (k : string) (v : float) :
  row_get r k = None -> row_setitem r k v = r ++ [(k, v)].
Proof.
  induction r as [|[k' v'] tl IH]; cbn [row_get row_setitem app]; [reflexivity|].
  destruct (String.eqb k' k); [discriminate|]. intros H. rewrite (IH H). reflexivity.
Qed.

Lemma row_get_none (r : row) (k : string) :
  ~ In k (map fst r) -> row_get r k = None.
Proof.
  induction r as [|[k' v'] tl IH]; cbn [row_get map fst]; [reflexivity|].
  intros H. destruct (String.eqb k' k) eqn:E.
  - apply String.eqb_eq in E. subst k'. exfalso. apply H. left. reflexivity.
  - apply IH. intros I. apply H. right. exact I.
Qed.

Lemma NoDup_cons_In {A} (x : A) (l : list A) :
  NoDup (x :: l) -> ~ In x l /\ NoDup l.
Proof.
  intros H. apply NoDup_cons in H. destruct H as [N D]. split; [|exact D].
  intros I. apply N. apply list_elem_of_In. exact I.
Qed.

Lemma load_row_run (sk : string) (actions : row) :
  NoDup (map fst actions) ->
  forall self,
    (forall k, In k (map fst actions) ->
       row_get (default [] (q_table self !! sk)) k = None) ->
    load_row sk actions self
    = (Ok tt,
       match actions with
       | [] => self
       | _ => set_q_table
                (<[sk := default [] (q_table self !! sk) ++ actions]> (q_table self))
                self
       end).
Proof.
  induction actions as [|[k v] tl IH]; intros D self F; [reflexivity|].
  cbn [map fst] in D. apply NoDup_cons_In in D. destruct D as [Nk D].
  cbn [load_row fold_right]. unfold bind at 1. rewrite q_value_setitem_run.
  rewrite row_setitem_new by (apply F; left; reflexivity).
  fold (load_row sk tl). rewrite (IH D).
  - f_equal. destruct tl as [|kv tl']; [reflexivity|].
    cbn [q_table set_q_table]. rewrite lookup_insert_eq. cbn [from_option]. unfold id.
    rewrite insert_insert_eq, <- app_assoc. reflexivity.
  - intros k' I. cbn [q_table set_q_table]. rewrite lookup_insert_eq.
    cbn [from_option]. unfold id.
    rewrite row_get_app_new by (apply F; left; reflexivity).
    destruct (String.eqb k k') eqn:E.
    + apply String.eqb_eq in E. subst k'. contradiction.
    + apply F. right. exact I.
Qed.

Lemma assoc_none (s : string) (data : list (string * row)) :
  ~ In s (map fst data) -> assoc s data = None.
Proof.
  induction data as [|[s' r] tl IH]; cbn [assoc map fst]; [reflexivity|].
  intros H. destruct (String.eqb s' s) eqn:E.
  - apply String.eqb_eq in E. subst s'. exfalso. apply H. left. reflexivity.
  - apply IH. intros I. apply H. right. exact I.
Qed.

Lemma load_all_run (data : list (string * row)) :
  dict_like data ->
  forall self,
    (forall s, In s (map fst data) -> q_table self !! s = None) ->
    exists t,
      fold_right (fun '(state_key, actions) rest => load_row state_key actions ;; rest)
        (ret tt) data self
      = (Ok tt, set_q_table t self) /\
      forall s, t !! s = match nonempty_row (assoc s data) with
                         | Some r => Some r
                         | None => q_table self !! s
                         end.
Proof.
  induction data as [|[sk actions] tl IH]; intros [D R] self F.
  - exists (q_table self). split; [destruct self; reflexivity|]. reflexivity.
  - cbn [map fst] in D. apply NoDup_cons_In in D. destruct D as [Nsk D].
    inversion R as [|? ? Rrow Rtl]; subst. cbn [snd] in Rrow.
    cbn [fold_right]. unfold bind at 1.
    rewrite (load_row_run sk actions Rrow)
      by (intros k _; rewrite F by (left; reflexivity); reflexivity).
    rewrite F by (left; reflexivity). cbn [from_option app].
    set (self1 := match actions with
                  | [] => self
                  | _ => set_q_table (<[sk := actions]> (q_table self)) self
                  end).
    assert (T1 : q_table self1 = match actions with
                                 | [] => q_table self
                                 | _ => <[sk := actions]> (q_table self)
                                 end).
    { unfold self1. destruct actions; reflexivity. }
    assert (S1 : forall t, set_q_table t self1 = set_q_table t self).
    { intros t. unfold self1. destruct actions; reflexivity. }
    assert (F1 : forall s, In s (map fst tl) -> q_table self1 !! s = None).
    { intros s I. rewrite T1.
      assert (N : sk <> s) by (intros ->; contradiction).
      destruct actions; [|rewrite lookup_insert_ne by exact N];
        apply F; right; exact I. }
    destruct (IH (conj D Rtl) self1 F1) as (t & E & L).
    exists t. split; [rewrite E, S1; reflexivity|].
    intros s. rewrite L. cbn [assoc]. destruct (String.eqb sk s) eqn:Es.
    + apply String.eqb_eq in Es. subst s. rewrite (assoc_none sk tl Nsk).
      cbn [nonempty_row]. rewrite T1.
      destruct actions as [|kv rest]; [reflexivity|].
      cbn [nonempty_row]. apply lookup_insert_eq.
    + destruct (nonempty_row (assoc s tl)); [reflexivity|].
      rewrite T1. assert (N : sk <> s).
      { intros ->. rewrite String.eqb_refl in Es. discriminate. }
      destruct actions; [reflexivity|]. apply lookup_insert_ne. exact N.
Qed.

Lemma load_q_table_run (data : list (string * row)) self :
  dict_like data ->
  exists t,
    load_q_table data self = (Ok tt, set_q_table t self) /\
    forall s, t !! s = nonempty_row (assoc s data).
Proof.
  intros D. unfold load_q_table, bind at 1, modify.
  destruct (load_all_run data D (set_q_table ∅ self)) as (t & E & L).
  { intros s _. apply lookup_empty. }
  exists t. split; [rewrite E; reflexivity|].
  intros s. rewrite L. cbn [q_table set_q_table]. rewrite lookup_empty.
  destruct (nonempty_row (assoc s data)); reflexivity.
Qed.

(** X8. Restoring the items of a dict of dicts returns normally and
    replaces the table: afterwards a state key is bound to exactly the row
    the data give it, in the same order, except that a state key whose row
    is empty is not stored, and nothing of the former table remains.  The
    cursor and epsilon are left as they were: restoring does not reset a
    pending suggestion. *)
Theorem X8_load_replaces_table (data : list (string * row)) (self : BrewingAgent) :
  dict_like data ->
  fst (load_q_table data self) = Ok tt /\
  (forall s, q_table (snd (load_q_table data self)) !! s = nonempty_row (assoc s data)) /\
  last_state_key (snd (load_q_table data self)) = last_state_key self /\
  last_action_key (snd (load_q_table data self)) = last_action_key self /\
  epsilon (snd (load_q_table data self)) = epsilon self.
Proof.
  intros D. destruct (load_q_table_run data self D) as (t & E & L).
  rewrite E. cbn [fst snd]. split; [reflexivity|]. split; [exact L|].
  repeat split.
Qed.

Lemma X8_load_replaces_table_witness :
  fst (load_q_table [("False_0", [("0_3_0", 1.0%float)]); ("True_2", [])] pending_example)
  = Ok tt /\
  (forall s,
     q_table (snd (load_q_table [("False_0", [("0_3_0", 1.0%float)]); ("True_2", [])]
                     pending_example)) !! s
     = nonempty_row (assoc s [("False_0", [("0_3_0", 1.0%float)]); ("True_2", [])])) /\
  last_state_key (snd (load_q_table [("False_0", [("0_3_0", 1.0%float)]); ("True_2", [])]
                         pending_example))
  = last_state_key pending_example /\
  last_action_key (snd (load_q_table [("False_0", [("0_3_0", 1.0%float)]); ("True_2", [])]
                          pending_example))
  = last_action_key pending_example /\
  epsilon (snd (load_q_table [("False_0", [("0_3_0", 1.0%float)]); ("True_2", [])]
                  pending_example))
  = epsilon pending_example.
Proof.
  apply (X8_load_replaces_table
           [("False_0", [("0_3_0", 1.0%float)]); ("True_2", [])] pending_example).
  split.
  - apply (bool_decide_unpack (NoDup _)). vm_compute. exact I.
  - repeat constructor. intros H. inversion H.
Defined.

End Restore.

(* ===================================================================== *)
(** ** Snapshot and restore                                              *)
(* ===================================================================== *)

Section SnapshotRestore.

Lemma map_fst_fmap (data : list (string * row)) : map fst data = data.*1.
Proof. induction data as [|x tl IH]; [reflexivity|]. cbn. rewrite IH. reflexivity. Qed.

Lemma assoc_in (s : string) (r : row) (data : list (string * row)) :
  NoDup (map fst data) -> In (s, r) data -> assoc s data = Some r.
Proof.
  induction data as [|[s' r'] tl IH]; cbn [assoc map fst]; [intros _ []|].
  intros D I. apply NoDup_cons_In in D. destruct D as [N D].
  destruct (String.eqb s' s) eqn:E.
  - apply String.eqb_eq in E. subst s'. destruct I as [I|I]; [congruence|].
    exfalso. apply N. apply in_map_iff. exists (s, r). split; [reflexivity|exact I].
  - destruct I as [I|I]; [|apply IH; assumption].
    injection I as -> ->. rewrite String.eqb_refl in E. discriminate.
Qed.

Lemma assoc_some_in (s : string) (r : row) (data : list (string * row)) :
  assoc s data = Some r -> In (s, r) data.
Proof.
  induction data as [|[s' r'] tl IH]; cbn [assoc]; [discriminate|].
  destruct (String.eqb s' s) eqn:E.
  - apply String.eqb_eq in E. subst s'. intros [= ->]. left. reflexivity.
  - intros H. right. apply IH. exact H.
Qed.

Lemma assoc_map_to_list (t : gmap string row) (s : string) :
  assoc s (map_to_list t) = t !! s.
Proof.
  assert (D : NoDup (map fst (map_to_list t))).
  { rewrite map_fst_fmap. apply NoDup_fst_map_to_list. }
  destruct (t !! s) as [r|] eqn:E.
  - apply assoc_in; [exact D|]. apply list_elem_of_In.
    apply elem_of_map_to_list. exact E.
  - destruct (assoc s (map_to_list t)) as [r|] eqn:A; [|reflexivity].
    apply assoc_some_in in A. apply list_elem_of_In in A.
    apply elem_of_map_to_list in A. congruence.
Qed.

Lemma dict_like_map_to_list (t : gmap string row) :
  rows_distinct t -> dict_like (map_to_list t).
Proof.
  intros R. split.
  - rewrite map_fst_fmap. apply NoDup_fst_map_to_list.
  - apply Forall_forall. intros [s r] I. cbn [snd].
    apply elem_of_map_to_list in I. exact (R s r I).
Qed.

Lemma q_lookup_nonempty_row (t t' : gmap string row) :
  (forall s, t' !! s = nonempty_row (t !! s)) ->
  forall s a, Spec.q_lookup t' s a = Spec.q_lookup t s a.
Proof.
  intros H s a. unfold Spec.q_lookup. rewrite H.
  destruct (t !! s) as [[|kv tl]|]; reflexivity.
Qed.

Lemma keys_row_setitem (r : row) (k : string) (v : float) :
  map fst (row_setitem r k v)
  = if existsb (String.eqb k) (map fst r) then map fst r else map fst r ++ [k].
Proof.
  induction r as [|[k' v'] tl IH]; cbn [row_setitem map fst existsb app]; [reflexivity|].
  rewrite (String.eqb_sym k k'). destruct (String.eqb k' k) eqn:E; cbn [orb map fst].
  - reflexivity.
  - rewrite IH. destruct (existsb _ _); reflexivity.
Qed.

Lemma NoDup_snoc (l : list string) (k : string) :
  NoDup l -> existsb (String.eqb k) l = false -> NoDup (l ++ [k]).
Proof.
  intros D E. apply NoDup_app. split; [exact D|]. split.
  - intros x I J. apply list_elem_of_In in I. apply list_elem_of_In in J.
    destruct J as [<-|[]].
    assert (X : existsb (String.eqb k) l = true).
    { apply existsb_exists. exists k. split; [exact I|apply String.eqb_refl]. }
    congruence.
  - apply NoDup_singleton.
Qed.

Lemma row_setitem_distinct (r : row) (k : string) (v : float) :
  NoDup (map fst r) -> NoDup (map fst (row_setitem r k v)).
Proof.
  intros D. rewrite keys_row_setitem.
  destruct (existsb (String.eqb k) (map fst r)) eqn:E; [exact D|].
  apply NoDup_snoc; assumption.
Qed.

Lemma row_getitem_distinct (r : row) (k : string) :
  NoDup (map fst r) -> NoDup (map fst (snd (row_getitem r k))).
Proof.
  intros D. unfold row_getitem. destruct (row_get r k) eqn:G; [exact D|].
  cbn [snd]. rewrite <- (row_setitem_new r k 0.0%float G).
  apply row_setitem_distinct. exact D.
Qed.

Lemma rows_distinct_insert (t : gmap string row) (s : string) (r : row) :
  rows_distinct t -> NoDup (map fst r) -> rows_distinct (<[s := r]> t).
Proof.
  intros T R s' r' H. destruct (decide (s = s')) as [<-|N].
  - rewrite lookup_insert_eq in H. injection H as <-. exact R.
  - rewrite lookup_insert_ne in H by exact N. exact (T _ _ H).
Qed.

Lemma rows_distinct_row (t : gmap string row) (s : string) :
  rows_distinct t -> NoDup (map fst (default [] (t !! s))).
Proof.
  intros T. destruct (t !! s) as [r|] eqn:E; [exact (T _ _ E)|apply NoDup_nil_2].
Qed.

Lemma rows_distinct_load_row (sk : string) (actions : row) :
  forall self, rows_distinct (q_table self) ->
    rows_distinct (q_table (snd (load_row sk actions self))).
Proof.
  induction actions as [|[ak v] tl IH]; intros self K; [exact K|].
  cbn [load_row fold_right]. unfold bind at 1. rewrite q_value_setitem_run.
  apply IH. cbn [q_table set_q_table]. apply rows_distinct_insert; [exact K|].
  apply row_setitem_distinct. apply rows_distinct_row. exact K.
Qed.

Lemma rows_distinct_load (data : list (string * row)) self :
  rows_distinct (q_table (snd (load_q_table data self))).
Proof.
  unfold load_q_table, bind at 1, modify.
  assert (K : rows_distinct (q_table (set_q_table ∅ self))).
  { intros s r H. cbn [q_table set_q_table] in H. rewrite lookup_empty in H.
    discriminate. }
  revert K. generalize (set_q_table ∅ self). clear self.
  induction data as [|[sk actions] tl IH]; intros self K; [exact K|].
  cbn [fold_right]. unfold bind at 1.
  pose proof (rows_distinct_load_row sk actions self K) as K'.
  pose proof (load_row_ok sk actions self) as L.
  destruct (load_row sk actions self) as [r self']. cbn [fst snd] in *. subst r.
  apply IH. exact K'.
Qed.

(** The rows of an agent never hold an action key twice, whatever is
    called and whatever is loaded. *)
Lemma rows_distinct_run_calls (cs : list call) :
  forall self, rows_distinct (q_table self) ->
    rows_distinct (q_table (snd (run_calls cs self))).
Proof.
  induction cs as [|c rest IH]; intros self K; [exact K|].
  cbn [run_calls].
  assert (K' : rows_distinct (q_table (snd (run_call c self)))).
  { destruct c; unfold run_call, answer; cbn [snd].
    - rewrite suggest_action_run.
      assert (C : rows_distinct (q_table (snd (chosen state rnd self)))).
      { destruct (chosen_table state rnd self) as [-> | ->]; [exact K|].
        cbn [q_table set_q_table]. apply rows_distinct_insert; [exact K|].
        apply rows_distinct_row. exact K. }
      destruct (chosen state rnd self) as [[action|e] s1]; cbn [snd] in *; [|exact C].
      destruct (action_to_key action); exact C.
    - destruct (learn_cases evaluation self) as [-> | (sk & ak & r & _ & ->)];
        [exact K|].
      unfold learned. cbn [q_table]. apply rows_distinct_insert; [exact K|].
      apply row_setitem_distinct, row_getitem_distinct, rows_distinct_row. exact K.
    - rewrite recommendations_state. cbn [q_table set_q_table].
      apply rows_distinct_insert; [exact K|]. apply rows_distinct_row. exact K.
    - exact K.
    - apply rows_distinct_load.
    - exact K. }
  destruct (run_call c self) as [r self']. cbn [snd] in K'.
  specialize (IH self' K'). destruct (run_calls rest self') as [rs self''].
  exact IH.
Qed.

(** X9. Restoring the snapshot of an agent brings back its table up to
    empty rows: in any agent that loads the items of get_q_table's
    result, every state key is bound to the same row as in the original,
    except that the keys the original binds to an empty row are absent;
    so every pair reads the same value in both. *)
Theorem X9_snapshot_restore_round_trip (a b : BrewingAgent) :
  rows_distinct (q_table a) ->
  exists snapshot,
    get_q_table a = (Ok snapshot, a) /\
    fst (load_q_table (map_to_list snapshot) b) = Ok tt /\
    (forall s,
       q_table (snd (load_q_table (map_to_list snapshot) b)) !! s
       = nonempty_row (q_table a !! s)) /\
    (forall s k,
       Spec.q_lookup (q_table (snd (load_q_table (map_to_list snapshot) b))) s k
       = Spec.q_lookup (q_table a) s k).
Proof.
  intros R. exists (q_table a). split; [reflexivity|].
  destruct (load_q_table_run (map_to_list (q_table a)) b (dict_like_map_to_list _ R))
    as (t & E & L).
  rewrite E. cbn [fst snd q_table set_q_table].
  assert (L' : forall s, t !! s = nonempty_row (q_table a !! s)).
  { intros s. rewrite L, assoc_map_to_list. reflexivity. }
  split; [reflexivity|]. split; [exact L'|].
  apply q_lookup_nonempty_row. exact L'.
Qed.

Lemma X9_snapshot_restore_round_trip_witness :
  exists snapshot,
    get_q_table restored = (Ok snapshot, restored) /\
    fst (load_q_table (map_to_list snapshot) pending_example) = Ok tt /\
    (forall s,
       q_table (snd (load_q_table (map_to_list snapshot) pending_example)) !! s
       = nonempty_row (q_table restored !! s)) /\
    (forall s k,
       Spec.q_lookup (q_table (snd (load_q_table (map_to_list snapshot) pending_example))) s k
       = Spec.q_lookup (q_table restored) s k).
Proof.
  apply (X9_snapshot_restore_round_trip restored pending_example).
  apply rows_distinct_load.
Defined.

End SnapshotRestore.


(* ===================================================================== *)
(** ** The reward follows the ratings                                    *)
(* ===================================================================== *)

Section RewardOrder.

(** The reward reads an evaluation through its overall rating, the two
    adjustments and, without an overall rating, the taste contributions. *)
Lemma calculate_reward_congr (e e' : BrewEvaluation) :
  overall_experience e = overall_experience e' ->
  (overall_experience e = None -> taste_metrics e = taste_metrics e') ->
  _calculate_channeling_bonus e = _calculate_channeling_bonus e' ->
  _calculate_brew_time_bonus e = _calculate_brew_time_bonus e' ->
  calculate_reward e = calculate_reward e'.
Proof.
  intros Ho Hm Hc Hb. unfold calculate_reward, _calculate_metrics_reward.
  rewrite <- Ho, <- Hc, <- Hb. destruct (overall_experience e) as [o|].
  - reflexivity.
  - rewrite (Hm eq_refl). reflexivity.
Qed.

Lemma channeling_class_in (c : Z) : In (channeling_class c) channeling_classes.
Proof.
  unfold channeling_class, channeling_classes.
  destruct (c <=? _); [simpl; auto|]. destruct (_ <=? c); simpl; auto.
Qed.

Lemma channeling_class_bonus (e : BrewEvaluation) (c : Z) :
  _calculate_channeling_bonus (set_channeling (Some c) e)
  = _calculate_channeling_bonus (set_channeling (Some (channeling_class c)) e).
Proof.
  unfold _calculate_channeling_bonus, set_channeling, channeling_class,
    LOW_CHANNELING_THRESHOLD, HIGH_CHANNELING_THRESHOLD.
  cbn [channeling]. destruct (c <=? 3) eqn:L; [reflexivity|].
  destruct (7 <=? c) eqn:H; reflexivity.
Qed.

Lemma channeling_class_mono (c c' : Z) :
  c <= c' -> channeling_class c <= channeling_class c'.
Proof.
  unfold channeling_class, LOW_CHANNELING_THRESHOLD, HIGH_CHANNELING_THRESHOLD.
  intros H. destruct (Z.leb_spec c 3), (Z.leb_spec c' 3), (Z.leb_spec 7 c),
    (Z.leb_spec 7 c'); lia.
Qed.

(** Every evaluation has the reward of one of the enumerated ones. *)
Lemma reward_representative (e : BrewEvaluation) :
  exists b a t bt,
    In b metric_classes /\ In a metric_classes /\ In t metric_classes /\
    In bt brew_times /\
    (overall_experience e <> None -> b = None /\ a = None /\ t = None) /\
    forall o c,
      (o = None <-> overall_experience e = None) ->
      calculate_reward (set_overall o (set_channeling c e))
      = calculate_reward (mkBrewEvaluation b a t o bt c).
Proof.
  destruct (brew_time_bonus_cases e) as (bt & Hbt & Eb).
  destruct (overall_experience e) as [o0|] eqn:Ho.
  - exists None, None, None, bt.
    split; [left; reflexivity|]. split; [left; reflexivity|].
    split; [left; reflexivity|]. split; [exact Hbt|].
    split; [intros _; auto|].
    intros o c [Hn _]. apply calculate_reward_congr.
    + reflexivity.
    + cbn [overall_experience set_overall]. intros Eo.
      specialize (Hn Eo). discriminate.
    + reflexivity.
    + exact Eb.
  - destruct (metric_class (bitterness e)) as (b & Hb & Eb').
    destruct (metric_class (acidity e)) as (a & Ha & Ea).
    destruct (metric_class (taste_strength e)) as (t & Ht & Et).
    exists b, a, t, bt. repeat (split; [assumption|]).
    split; [intros N; contradiction|].
    intros o c _. apply calculate_reward_congr.
    + reflexivity.
    + intros _. unfold taste_metrics, set_overall, set_channeling.
      cbn [bitterness acidity taste_strength]. rewrite Eb', Ea, Et. reflexivity.
    + reflexivity.
    + exact Eb.
Qed.

Lemma overall_order_all :
  forallb (fun o => forallb (fun o' => forallb (fun c => forallb (fun bt =>
    rewards (overall_order o o')
      (mkBrewEvaluation None None None (Some o) bt c)
      (mkBrewEvaluation None None None (Some o') bt c))
  brew_times) ratings) overall_values) overall_values = true.
Proof. vm_compute. reflexivity. Qed.

Lemma overall_value_in (o : Z) : 1 <= o <= 10 -> In o overall_values.
Proof.
  intros H. unfold overall_values.
  assert (K : o = 1 \/ o = 2 \/ o = 3 \/ o = 4 \/ o = 5 \/ o = 6 \/
              o = 7 \/ o = 8 \/ o = 9 \/ o = 10) by lia.
  simpl. intuition.
Qed.

(** One channeling rating of the validation range for each bonus. *)
Lemma channeling_rating (c : option Z) (e : BrewEvaluation) :
  exists c', In c' ratings /\
    _calculate_channeling_bonus (set_channeling c e)
    = _calculate_channeling_bonus (set_channeling c' e).
Proof.
  destruct c as [c|]; [|exists None; split; [left|]; reflexivity].
  exists (Some (channeling_class c)). split; [|apply channeling_class_bonus].
  unfold channeling_class, ratings.
  destruct (c <=? _); [simpl; auto 12|]. destruct (_ <=? c); simpl; auto 12.
Qed.

Lemma rewards_spec (cmp : float -> float -> bool) (e e' : BrewEvaluation) :
  rewards cmp e e' = true ->
  exists r r', calculate_reward e = Ok r /\ calculate_reward e' = Ok r' /\
               cmp r r' = true.
Proof.
  unfold rewards. destruct (calculate_reward e) as [r|]; [|discriminate].
  destruct (calculate_reward e') as [r'|]; [|discriminate].
  intros H. exists r, r'. auto.
Qed.

(** X10. A better overall rating never lowers the reward: between two
    evaluations that differ in their overall rating only, both from 1 to
    10, the one with the higher rating has a reward at least as large,
    and a strictly larger one unless that reward is clamped at -1.0; the
    other fields may hold anything. *)
Theorem X10_reward_grows_with_overall (e : BrewEvaluation) (o o' : Z) :
  1 <= o -> o <= o' -> o' <= 10 ->
  exists r r',
    calculate_reward (set_overall (Some o) e) = Ok r /\
    calculate_reward (set_overall (Some o') e) = Ok r' /\
    (r <=? r')%float = true /\
    (o < o' -> (r <? r')%float = true \/ r' = (-1.0)%float).
Proof.
  intros H1 H2 H3.
  assert (R : forall o1, calculate_reward (set_overall (Some o1) e)
          = calculate_reward (set_overall (Some o1)
              (set_channeling (channeling e) (set_overall (Some 0) e)))).
  { intros o1. destruct e; reflexivity. }
  rewrite (R o), (R o'). clear R.
  destruct (reward_representative (set_overall (Some 0) e))
    as (b & a & t & bt & _ & _ & _ & Hbt & N & E).
  destruct N as (-> & -> & ->); [discriminate|].
  assert (S : forall o1, (Some o1 = None :> option Z)
                <-> overall_experience (set_overall (Some 0) e) = None).
  { intros o1. split; discriminate. }
  destruct (channeling_rating (channeling e)
              (mkBrewEvaluation None None None (Some 0) bt None)) as (c & Hc & Ec).
  assert (C : forall o1,
            calculate_reward (mkBrewEvaluation None None None (Some o1) bt (channeling e))
            = calculate_reward (mkBrewEvaluation None None None (Some o1) bt c)).
  { intros o1. apply calculate_reward_congr; try reflexivity. exact Ec. }
  rewrite (E (Some o) _ (S o)), (E (Some o') _ (S o')), (C o), (C o').
  pose proof (forallb_In _ _ o overall_order_all (overall_value_in o ltac:(lia))) as A.
  cbv beta in A.
  pose proof (forallb_In _ _ o' A (overall_value_in o' ltac:(lia))) as B.
  cbv beta in B.
  pose proof (forallb_In _ _ c B Hc) as D. cbv beta in D.
  pose proof (forallb_In _ _ bt D Hbt) as F. cbv beta in F.
  apply rewards_spec in F. destruct F as (r & r' & Er & Er' & O).
  exists r, r'. split; [exact Er|]. split; [exact Er'|].
  unfold overall_order in O. apply orb_true_iff in O.
  destruct O as [O|O]; [apply Z.ltb_lt in O; lia|].
  apply andb_true_iff in O. destruct O as [O1 O2]. split; [exact O1|].
  intros L. apply orb_true_iff in O2. destruct O2 as [O2|O2].
  - apply orb_true_iff in O2. destruct O2 as [O2|O2].
    + apply Z.eqb_eq in O2. lia.
    + left. exact O2.
  - right. apply FloatAxioms.Leibniz.eqb_spec. exact O2.
Qed.

Lemma X10_reward_grows_with_overall_witness :
  exists r r',
    calculate_reward
      (set_overall (Some 6) (mkBrewEvaluation (Some 5) None (Some 9) None
                               (Some 50.0%float) (Some 8))) = Ok r /\
    calculate_reward
      (set_overall (Some 8) (mkBrewEvaluation (Some 5) None (Some 9) None
                               (Some 50.0%float) (Some 8))) = Ok r' /\
    (r <=? r')%float = true /\
    (6 < 8 -> (r <? r')%float = true \/ r' = (-1.0)%float).
Proof.
  apply (X10_reward_grows_with_overall
           (mkBrewEvaluation (Some 5) None (Some 9) None (Some 50.0%float) (Some 8))
           6 8); lia.
Defined.

Lemma channeling_order_with_overall_all :
  forallb (fun o => forallb (fun bt => forallb (fun k => forallb (fun k' =>
    (k' <? k) ||
    rewards (fun r r' => (r' <=? r)%float)
      (mkBrewEvaluation None None None (Some o) bt (Some k))
      (mkBrewEvaluation None None None (Some o) bt (Some k')))
  channeling_classes) channeling_classes) brew_times) overall_values = true.
Proof. vm_compute. reflexivity. Qed.

Lemma channeling_order_without_overall_all :
  forallb (fun b => forallb (fun a => forallb (fun t =>
  forallb (fun bt => forallb (fun k => forallb (fun k' =>
    (k' <? k) ||
    rewards (fun r r' => (r' <=? r)%float)
      (mkBrewEvaluation b a t None bt (Some k))
      (mkBrewEvaluation b a t None bt (Some k')))
  channeling_classes) channeling_classes) brew_times)
  metric_classes) metric_classes) metric_classes = true.
Proof. vm_compute. reflexivity. Qed.

Lemma channeling_order_class (b a t o : option Z) (bt : option float) (k k' : Z) :
  In b metric_classes -> In a metric_classes -> In t metric_classes ->
  (o <> None -> b = None /\ a = None /\ t = None) ->
  rating_rejected o = false ->
  In bt brew_times -> In k channeling_classes -> In k' channeling_classes ->
  k <= k' ->
  rewards (fun r r' => (r' <=? r)%float)
    (mkBrewEvaluation b a t o bt (Some k))
    (mkBrewEvaluation b a t o bt (Some k')) = true.
Proof.
  intros Hb Ha Ht N Ho Hbt Hk Hk' L.
  assert (G : forall x : bool, (k' <? k) || x = true -> x = true).
  { intros x H. apply orb_true_iff in H. destruct H as [H|H]; [|exact H].
    apply Z.ltb_lt in H. lia. }
  destruct o as [o|].
  - destruct N as (-> & -> & ->); [discriminate|].
    assert (Io : In o overall_values).
    { apply overall_value_in. unfold rating_rejected, MIN_RATING, MAX_RATING in Ho.
      apply negb_false_iff, andb_true_iff in Ho. destruct Ho as [X Y].
      apply Z.leb_le in X, Y. lia. }
    pose proof (forallb_In _ _ o channeling_order_with_overall_all Io) as A.
    cbv beta in A.
    pose proof (forallb_In _ _ bt A Hbt) as B. cbv beta in B.
    pose proof (forallb_In _ _ k B Hk) as C. cbv beta in C.
    pose proof (forallb_In _ _ k' C Hk') as D. cbv beta in D.
    exact (G _ D).
  - pose proof (forallb_In _ _ b channeling_order_without_overall_all Hb) as A.
    cbv beta in A.
    pose proof (forallb_In _ _ a A Ha) as B. cbv beta in B.
    pose proof (forallb_In _ _ t B Ht) as C. cbv beta in C.
    pose proof (forallb_In _ _ bt C Hbt) as D. cbv beta in D.
    pose proof (forallb_In _ _ k D Hk) as E. cbv beta in E.
    pose proof (forallb_In _ _ k' E Hk') as F. cbv beta in F.
    exact (G _ F).
Qed.

(** X11. More channeling never raises the reward: between two evaluations
    that differ in their channeling rating only, the one with the higher
    rating has a reward at most as large, whatever the taste ratings and
    the brew time are, as long as the overall rating is absent or from 1
    to 10. *)
Theorem X11_reward_falls_with_channeling (e : BrewEvaluation) (c c' : Z) :
  rating_rejected (overall_experience e) = false ->
  c <= c' ->
  exists r r',
    calculate_reward (set_channeling (Some c) e) = Ok r /\
    calculate_reward (set_channeling (Some c') e) = Ok r' /\
    (r' <=? r)%float = true.
Proof.
  intros Ho L.
  destruct (reward_representative e) as (b & a & t & bt & Hb & Ha & Ht & Hbt & N & E).
  assert (R : forall c1, calculate_reward (set_channeling (Some c1) e)
          = calculate_reward (mkBrewEvaluation b a t (overall_experience e) bt
                                (Some (channeling_class c1)))).
  { intros c1.
    transitivity (calculate_reward
                    (set_overall (overall_experience e) (set_channeling (Some c1) e))).
    { destruct e; reflexivity. }
    rewrite (calculate_reward_congr _
               (set_overall (overall_experience e)
                  (set_channeling (Some (channeling_class c1)) e))).
    - apply E. tauto.
    - reflexivity.
    - reflexivity.
    - apply (channeling_class_bonus e c1).
    - reflexivity. }
  rewrite (R c), (R c'). apply rewards_spec.
  apply channeling_order_class; try assumption.
  - apply channeling_class_in.
  - apply channeling_class_in.
  - apply channeling_class_mono. exact L.
Qed.

Lemma X11_reward_falls_with_channeling_witness :
  exists r r',
    calculate_reward
      (set_channeling (Some 2) (mkBrewEvaluation (Some 5) (Some 4) None None
                                  (Some 30.0%float) None)) = Ok r /\
    calculate_reward
      (set_channeling (Some 9) (mkBrewEvaluation (Some 5) (Some 4) None None
                                  (Some 30.0%float) None)) = Ok r' /\
    (r' <=? r)%float = true.
Proof.
  apply (X11_reward_falls_with_channeling
           (mkBrewEvaluation (Some 5) (Some 4) None None (Some 30.0%float) None)
           2 9); [reflexivity|lia].
Defined.

End RewardOrder.




(* ===================================================================== *)
(** ** Exploiting picks the best entry                                   *)
(* ===================================================================== *)

Section Greedy.

Lemma max_by_split (f : string -> float) (rest : list string) :
  forall (pre : list string) (best : string) (mid : list string),
    Forall (fun k => is_nan (f k) = false) (best :: rest) ->
    Forall (fun k => (f k <? f best)%float = true) pre ->
    Forall (fun k => (f k <=? f best)%float = true) mid ->
    exists l1 l2,
      pre ++ best :: mid ++ rest = l1 ++ max_by f best rest :: l2 /\
      Forall (fun k => (f k <? f (max_by f best rest))%float = true) l1 /\
      Forall (fun k => (f k <=? f (max_by f best rest))%float = true) l2.
Proof.
  induction rest as [|k tl IH]; intros pre best mid N P M; cbn [max_by].
  - exists pre, mid. rewrite app_nil_r. auto.
  - apply Forall_cons in N. destruct N as [Nb N].
    apply Forall_cons in N. destruct N as [Nk N].
    destruct (f best <? f k)%float eqn:E.
    + destruct (IH (pre ++ best :: mid) k []) as (l1 & l2 & Eq & L1 & L2).
      * apply Forall_cons. split; assumption.
      * apply Forall_app. split; [|apply Forall_cons; split].
        -- eapply Forall_impl; [exact P|]. intros x Hx. cbv beta in *.
           exact (float_lt_trans _ _ _ Hx E).
        -- exact E.
        -- eapply Forall_impl; [exact M|]. intros x Hx. cbv beta in *.
           exact (float_le_lt_trans _ _ _ Hx E).
      * constructor.
      * exists l1, l2. split; [|split; assumption].
        rewrite <- Eq. rewrite <- !app_assoc. reflexivity.
    + destruct (IH pre best (mid ++ [k])) as (l1 & l2 & Eq & L1 & L2).
      * apply Forall_cons. split; assumption.
      * exact P.
      * apply Forall_app. split; [exact M|]. apply Forall_cons.
        split; [|constructor]. apply float_not_lt_le; assumption.
      * exists l1, l2. split; [|split; assumption].
        rewrite <- Eq. rewrite <- !app_assoc. reflexivity.
Qed.

Lemma row_get_in (r : row) (k : string) (v : float) :
  row_get r k = Some v -> In (k, v) r.
Proof.
  induction r as [|[k' v'] tl IH]; cbn [row_get]; [discriminate|].
  destruct (String.eqb k' k) eqn:E.
  - apply String.eqb_eq in E. subst k'. intros [= <-]. left. reflexivity.
  - intros H. right. apply IH. exact H.
Qed.

Lemma nan_free_lookup (r : row) (k : string) :
  nan_free r -> is_nan (default 0.0%float (row_get r k)) = false.
Proof.
  intros N. destruct (row_get r k) as [v|] eqn:G; [|reflexivity].
  apply row_get_in in G. unfold nan_free in N. rewrite Forall_forall in N.
  apply (N (k, v)). apply list_elem_of_In. exact G.
Qed.

(** X12. On a non-empty row without NaN, _get_best_action decodes the
    first key of greatest stored value: every key before it in the row
    has a strictly smaller value, every key after it a value that is not
    larger; the table is left as it was. *)
Theorem X12_exploit_selects_first_maximum
    (state_key : string) (state : BrewState) (self : BrewingAgent) (r : row) :
  q_table self !! state_key = Some r -> r <> [] -> nan_free r ->
  exists l1 key l2,
    map fst r = l1 ++ key :: l2 /\
    Forall (fun k => (Spec.q_lookup (q_table self) state_key k
                      <? Spec.q_lookup (q_table self) state_key key)%float = true) l1 /\
    Forall (fun k => (Spec.q_lookup (q_table self) state_key k
                      <=? Spec.q_lookup (q_table self) state_key key)%float = true) l2 /\
    _get_best_action state_key state self
    = (try_except_ValueError (action_of_key key) (Ok (get_baseline_action state)),
       self).
Proof.
  intros H N F. rewrite (get_best_action_row _ _ _ _ H).
  unfold selected_key, Spec.q_lookup. rewrite H.
  destruct (map fst r) as [|k0 keys] eqn:K.
  { destruct r; [contradiction|discriminate]. }
  destruct (max_by_split (fun k => default 0.0%float (row_get r k)) keys [] k0 [])
    as (l1 & l2 & Eq & L1 & L2).
  - apply Forall_forall. intros k _. apply nan_free_lookup. exact F.
  - constructor.
  - constructor.
  - exists l1, (max_by (fun k => default 0.0%float (row_get r k)) k0 keys), l2.
    cbn [app] in Eq. auto.
Qed.

Lemma X12_exploit_selects_first_maximum_witness :
  exists l1 key l2,
    map fst [("bad", 1.0%float); ("1_2_3", 0.5%float)] = l1 ++ key :: l2 /\
    Forall (fun k => (Spec.q_lookup (q_table restored) "False_0" k
                      <? Spec.q_lookup (q_table restored) "False_0" key)%float = true) l1 /\
    Forall (fun k => (Spec.q_lookup (q_table restored) "False_0" k
                      <=? Spec.q_lookup (q_table restored) "False_0" key)%float = true) l2 /\
    _get_best_action "False_0" (mkBrewState false 0) restored
    = (try_except_ValueError (action_of_key key)
         (Ok (get_baseline_action (mkBrewState false 0))),
       restored).
Proof.
  apply (X12_exploit_selects_first_maximum "False_0" (mkBrewState false 0) restored
           [("bad", 1.0%float); ("1_2_3", 0.5%float)]).
  - reflexivity.
  - discriminate.
  - repeat constructor.
Defined.

End Greedy.


(* ===================================================================== *)
(** ** Recommendations list the best entries                             *)
(* ===================================================================== *)

Section Ranking.

Lemma insert_desc_perm (x : string * float) (l : row) :
  Permutation (insert_desc x l) (x :: l).
Proof.
  induction l as [|y tl IH]; cbn [insert_desc]; [reflexivity|].
  destruct (snd x <? snd y)%float; [|reflexivity].
  rewrite IH. apply perm_swap.
Qed.

Lemma sorted_desc_perm (l : row) : Permutation (sorted_desc l) l.
Proof.
  induction l as [|x tl IH]; cbn [sorted_desc fold_right]; [reflexivity|].
  rewrite insert_desc_perm. apply perm_skip. exact IH.
Qed.

Lemma insert_desc_descending (x : string * float) (l : row) :
  is_nan (snd x) = false -> nan_free l ->
  descending (map snd l) -> descending (map snd (insert_desc x l)).
Proof.
  intros Nx. induction l as [|y tl IH]; intros N D; cbn [insert_desc map descending].
  - split; constructor.
  - apply Forall_cons in N. destruct N as [Ny N].
    cbn [map descending] in D. destruct D as [Dy D].
    destruct (snd x <? snd y)%float eqn:E; cbn [map descending].
    + split; [|apply IH; assumption].
      apply Forall_forall. intros v Hv. apply list_elem_of_In, in_map_iff in Hv.
      destruct Hv as (kv & <- & I). apply insert_desc_in in I.
      destruct I as [->|I]; [apply float_lt_le; exact E|].
      rewrite Forall_forall in Dy. apply Dy, list_elem_of_In, in_map. exact I.
    + assert (L : (snd y <=? snd x)%float = true)
        by (apply float_not_lt_le; assumption).
      split; [|split; assumption].
      apply Forall_cons. split; [exact L|].
      eapply Forall_impl; [exact Dy|]. intros v Hv. cbv beta in *.
      exact (float_le_trans _ _ _ Hv L).
Qed.

Lemma sorted_desc_nan_free (l : row) : nan_free l -> nan_free (sorted_desc l).
Proof.
  unfold nan_free. rewrite !Forall_forall. intros N kv I.
  apply N. apply list_elem_of_In. apply sorted_desc_in.
  apply list_elem_of_In. exact I.
Qed.

Lemma sorted_desc_descending (l : row) :
  nan_free l -> descending (map snd (sorted_desc l)).
Proof.
  induction l as [|x tl IH]; intros N; cbn [sorted_desc fold_right]; [exact I|].
  apply Forall_cons in N. destruct N as [Nx N].
  apply insert_desc_descending; [exact Nx|apply sorted_desc_nan_free; exact N|].
  apply IH. exact N.
Qed.

Lemma collect_valid (l : row) :
  Forall (fun kv => valid_key (fst kv)) l ->
  exists recs,
    collect_recommendations l = Ok recs /\
    Forall2 (fun rec kv => action_of_key (fst kv) = Ok (fst rec) /\
                           snd rec = snd kv /\ in_bounds (fst rec)) recs l.
Proof.
  induction l as [|[key v] tl IH]; intros V; cbn [collect_recommendations].
  - exists []. split; [reflexivity|constructor].
  - apply Forall_cons in V. destruct V as [Vk V]. cbn [fst] in Vk.
    destruct (action_of_valid_key key Vk) as (action & key' & A & B & _).
    destruct (IH V) as (recs & C & F).
    rewrite A, C. cbn [rbind try_except_ValueError app].
    exists ((action, v) :: recs). split; [reflexivity|].
    constructor; [|exact F]. cbn [fst snd]. auto.
Qed.

(** X13. On a row of valid keys without NaN and for a positive top_k,
    get_action_recommendations returns without raising and without
    touching the agent; the row splits into the entries it lists and the
    others so that, listed first, they run from the largest value to the
    smallest; it lists min(top_k, size of the row) of them, each with its
    stored value and the action of its key, which is within bounds. *)
Theorem X13_recommendations_are_top_entries
    (state : BrewState) (top_k : Z) (self : BrewingAgent) (r : row) :
  q_table self !! state_to_key state = Some r -> r <> [] ->
  Forall (fun kv => valid_key (fst kv)) r -> nan_free r -> 0 < top_k ->
  exists best others recs,
    Permutation r (best ++ others) /\
    descending (map snd (best ++ others)) /\
    length best = Nat.min (Z.to_nat top_k) (length r) /\
    Forall2 (fun rec kv => action_of_key (fst kv) = Ok (fst rec) /\
                           snd rec = snd kv /\ in_bounds (fst rec)) recs best /\
    get_action_recommendations state top_k self = (Ok recs, self).
Proof.
  intros H N V F K.
  assert (S : slice_to top_k (sorted_desc r)
              = firstn (Z.to_nat top_k) (sorted_desc r)).
  { unfold slice_to. destruct (Z.leb_spec 0 top_k); [reflexivity|lia]. }
  destruct (collect_valid (firstn (Z.to_nat top_k) (sorted_desc r)))
    as (recs & C & F2).
  { apply Forall_forall. intros kv I. rewrite Forall_forall in V. apply V.
    apply list_elem_of_In. apply sorted_desc_in. eapply firstn_in.
    apply list_elem_of_In. exact I. }
  assert (L : length (firstn (Z.to_nat top_k) (sorted_desc r))
              = Nat.min (Z.to_nat top_k) (length r)).
  { rewrite length_firstn, (Permutation_length (sorted_desc_perm r)). reflexivity. }
  exists (firstn (Z.to_nat top_k) (sorted_desc r)),
         (skipn (Z.to_nat top_k) (sorted_desc r)), recs.
  rewrite firstn_skipn. split; [symmetry; apply sorted_desc_perm|].
  split; [apply sorted_desc_descending; exact F|].
  split; [exact L|]. split; [exact F2|].
  rewrite (recommendations_row _ _ _ _ H N), S, C.
  destruct recs as [|rec recs]; [|reflexivity].
  apply Forall2_length in F2. rewrite L in F2. cbn [length] in F2.
  destruct r; [contradiction|]. cbn [length] in F2. lia.
Qed.

Lemma X13_recommendations_are_top_entries_witness :
  exists best others recs,
    Permutation [("1_2_3", 0.5%float); ("29_9_9", 0.75%float); ("0_0_0", (-1.0)%float)]
                (best ++ others) /\
    descending (map snd (best ++ others)) /\
    length best
    = Nat.min (Z.to_nat 2)
        (length [("1_2_3", 0.5%float); ("29_9_9", 0.75%float); ("0_0_0", (-1.0)%float)]) /\
    Forall2 (fun rec kv => action_of_key (fst kv) = Ok (fst rec) /\
                           snd rec = snd kv /\ in_bounds (fst rec)) recs best /\
    get_action_recommendations (mkBrewState false 0) 2
      (set_q_table
         (<[state_to_key (mkBrewState false 0) :=
              [("1_2_3", 0.5%float); ("29_9_9", 0.75%float); ("0_0_0", (-1.0)%float)]]> ∅)
         default_agent)
    = (Ok recs,
       set_q_table
         (<[state_to_key (mkBrewState false 0) :=
              [("1_2_3", 0.5%float); ("29_9_9", 0.75%float); ("0_0_0", (-1.0)%float)]]> ∅)
         default_agent).
Proof.
  apply (X13_recommendations_are_top_entries (mkBrewState false 0) 2
           (set_q_table
              (<[state_to_key (mkBrewState false 0) :=
                   [("1_2_3", 0.5%float); ("29_9_9", 0.75%float);
                    ("0_0_0", (-1.0)%float)]]> ∅)
              default_agent)
           [("1_2_3", 0.5%float); ("29_9_9", 0.75%float); ("0_0_0", (-1.0)%float)]).
  - apply lookup_insert_eq.
  - discriminate.
  - repeat constructor; cbn [fst].
    + exists 1, 2, 3. split; [reflexivity|lia].
    + exists 29, 9, 9. split; [reflexivity|lia].
    + exists 0, 0, 0. split; [reflexivity|lia].
  - repeat constructor.
  - lia.
Defined.

End Ranking.


(* ===================================================================== *)
(** ** The reward follows the brew time                                  *)
(* ===================================================================== *)

Section BrewTimeOrder.

Lemma brew_time_order_with_overall_all :
  forallb (fun o => forallb (fun c => forallb (fun bt => forallb (fun bt' =>
    (brew_time_rank bt' <? brew_time_rank bt) ||
    rewards (fun r r' => (r <=? r')%float)
      (mkBrewEvaluation None None None (Some o) bt c)
      (mkBrewEvaluation None None None (Some o) bt' c))
  brew_times) brew_times) ratings) overall_values = true.
Proof. vm_compute. reflexivity. Qed.

Lemma brew_time_order_without_overall_all :
  forallb (fun b => forallb (fun a => forallb (fun t =>
  forallb (fun c => forallb (fun bt => forallb (fun bt' =>
    (brew_time_rank bt' <? brew_time_rank bt) ||
    rewards (fun r r' => (r <=? r')%float)
      (mkBrewEvaluation b a t None bt c)
      (mkBrewEvaluation b a t None bt' c))
  brew_times) brew_times) ratings)
  metric_classes) metric_classes) metric_classes = true.
Proof. vm_compute. reflexivity. Qed.

Lemma brew_time_order_class (b a t o c : option Z) (bt bt' : option float) :
  In b metric_classes -> In a metric_classes -> In t metric_classes ->
  (o <> None -> b = None /\ a = None /\ t = None) ->
  rating_rejected o = false -> In c ratings ->
  In bt brew_times -> In bt' brew_times ->
  brew_time_rank bt <= brew_time_rank bt' ->
  rewards (fun r r' => (r <=? r')%float)
    (mkBrewEvaluation b a t o bt c) (mkBrewEvaluation b a t o bt' c) = true.
Proof.
  intros Hb Ha Ht N Ho Hc Hbt Hbt' L.
  assert (G : forall x : bool,
            (brew_time_rank bt' <? brew_time_rank bt) || x = true -> x = true).
  { intros x H. apply orb_true_iff in H. destruct H as [H|H]; [|exact H].
    apply Z.ltb_lt in H. lia. }
  destruct o as [o|].
  - destruct N as (-> & -> & ->); [discriminate|].
    assert (Io : In o overall_values).
    { apply overall_value_in. unfold rating_rejected, MIN_RATING, MAX_RATING in Ho.
      apply negb_false_iff, andb_true_iff in Ho. destruct Ho as [X Y].
      apply Z.leb_le in X, Y. lia. }
    pose proof (forallb_In _ _ o brew_time_order_with_overall_all Io) as A.
    cbv beta in A.
    pose proof (forallb_In _ _ c A Hc) as B. cbv beta in B.
    pose proof (forallb_In _ _ bt B Hbt) as C. cbv beta in C.
    pose proof (forallb_In _ _ bt' C Hbt') as D. cbv beta in D.
    exact (G _ D).
  - pose proof (forallb_In _ _ b brew_time_order_without_overall_all Hb) as A.
    cbv beta in A.
    pose proof (forallb_In _ _ a A Ha) as B. cbv beta in B.
    pose proof (forallb_In _ _ t B Ht) as C. cbv beta in C.
    pose proof (forallb_In _ _ c C Hc) as D. cbv beta in D.
    pose proof (forallb_In _ _ bt D Hbt) as E. cbv beta in E.
    pose proof (forallb_In _ _ bt' E Hbt') as F. cbv beta in F.
    exact (G _ F).
Qed.

(** Every evaluation has, at each brew time, the reward of an enumerated
    evaluation with its overall rating; the ratings chosen do not depend
    on the brew time. *)
Lemma reward_classes (e : BrewEvaluation) :
  exists b a t c,
    In b metric_classes /\ In a metric_classes /\ In t metric_classes /\
    In c ratings /\
    (overall_experience e <> None -> b = None /\ a = None /\ t = None) /\
    forall x y,
      _calculate_brew_time_bonus (set_brew_time x e)
      = _calculate_brew_time_bonus (set_brew_time y e) ->
      calculate_reward (set_brew_time x e)
      = calculate_reward (mkBrewEvaluation b a t (overall_experience e) y c).
Proof.
  destruct (channeling_rating (channeling e) e) as (c & Hc & Ec).
  destruct (overall_experience e) as [o|] eqn:Ho.
  - exists None, None, None, c.
    split; [left; reflexivity|]. split; [left; reflexivity|].
    split; [left; reflexivity|]. split; [exact Hc|]. split; [intros _; auto|].
    intros x y E. apply calculate_reward_congr.
    + exact Ho.
    + cbn [overall_experience set_brew_time]. rewrite Ho. discriminate.
    + exact Ec.
    + exact E.
  - destruct (metric_class (bitterness e)) as (b & Hb & Eb).
    destruct (metric_class (acidity e)) as (a & Ha & Ea).
    destruct (metric_class (taste_strength e)) as (t & Ht & Et).
    exists b, a, t, c. repeat (split; [assumption|]).
    split; [intros N; contradiction|].
    intros x y E. apply calculate_reward_congr.
    + exact Ho.
    + intros _. unfold taste_metrics, set_brew_time.
      cbn [bitterness acidity taste_strength]. rewrite Eb, Ea, Et. reflexivity.
    + exact Ec.
    + exact E.
Qed.

Lemma ideal_brew_time_bonus (e : BrewEvaluation) (t : float) :
  ideal_brew_time t ->
  _calculate_brew_time_bonus (set_brew_time (Some t) e)
  = _calculate_brew_time_bonus (set_brew_time (Some 30.0%float) e).
Proof.
  intros [L U]. unfold _calculate_brew_time_bonus, set_brew_time.
  cbn [brew_time]. rewrite L, U. reflexivity.
Qed.

Lemma poor_brew_time_bonus (e : BrewEvaluation) (t : float) :
  poor_brew_time t ->
  _calculate_brew_time_bonus (set_brew_time (Some t) e)
  = _calculate_brew_time_bonus (set_brew_time (Some 10.0%float) e).
Proof.
  intros P. unfold _calculate_brew_time_bonus, set_brew_time. cbn [brew_time].
  assert (N : ((fl IDEAL_BREW_TIME_MIN <=? t) && (t <=? fl IDEAL_BREW_TIME_MAX))%float
              = false).
  { destruct P as [P|P].
    - apply andb_false_iff. left.
      destruct (fl IDEAL_BREW_TIME_MIN <=? t)%float eqn:L; [|reflexivity].
      assert (K : (fl MIN_BREW_TIME <=? t)%float = true).
      { apply (float_le_trans _ (fl IDEAL_BREW_TIME_MIN)); [reflexivity|exact L]. }
      rewrite (float_lt_not_le _ _ P) in K. discriminate.
    - apply andb_false_iff. right.
      destruct (t <=? fl IDEAL_BREW_TIME_MAX)%float eqn:U; [|reflexivity].
      assert (K : (t <=? fl MAX_BREW_TIME)%float = true).
      { apply (float_le_trans _ (fl IDEAL_BREW_TIME_MAX)); [exact U|reflexivity]. }
      rewrite (float_lt_not_le _ _ P) in K. discriminate. }
  rewrite N.
  assert (Q : ((t <? fl MIN_BREW_TIME) || (fl MAX_BREW_TIME <? t))%float = true).
  { apply orb_true_iff. exact P. }
  rewrite Q. reflexivity.
Qed.

Lemma brew_time_rank_bounds (bt : option float) :
  In bt brew_times -> 0 <= brew_time_rank bt <= 2.
Proof.
  unfold brew_times. intros [<-|[<-|[<-|[]]]]; vm_compute; split; discriminate.
Qed.

(** X14. The brew time moves the reward in one direction only: with the
    other fields fixed (the overall rating absent or from 1 to 10), the
    reward with a brew time below 20 or above 45 seconds is at most the
    reward with any brew time or none, which is at most the reward with a
    brew time in the ideal window of 25 to 35 seconds. *)
Theorem X14_brew_time_ranks_reward
    (e : BrewEvaluation) (poor ideal : float) (bt : option float) :
  rating_rejected (overall_experience e) = false ->
  poor_brew_time poor -> ideal_brew_time ideal ->
  exists r_poor r r_ideal,
    calculate_reward (set_brew_time (Some poor) e) = Ok r_poor /\
    calculate_reward (set_brew_time bt e) = Ok r /\
    calculate_reward (set_brew_time (Some ideal) e) = Ok r_ideal /\
    (r_poor <=? r)%float = true /\ (r <=? r_ideal)%float = true.
Proof.
  intros Ho P I.
  destruct (reward_classes e) as (b & a & m & c & Hb & Ha & Hm & Hc & N & E).
  destruct (brew_time_bonus_cases (set_brew_time bt e)) as (bt1 & Hbt1 & E1).
  change (set_brew_time bt1 (set_brew_time bt e)) with (set_brew_time bt1 e) in E1.
  rewrite (E bt bt1 E1).
  rewrite (E (Some ideal) (Some 30.0%float) (ideal_brew_time_bonus e ideal I)).
  rewrite (E (Some poor) (Some 10.0%float) (poor_brew_time_bonus e poor P)).
  pose proof (brew_time_rank_bounds bt1 Hbt1) as R.
  assert (A : rewards (fun r r' => (r <=? r')%float)
                (mkBrewEvaluation b a m (overall_experience e) (Some 10.0%float) c)
                (mkBrewEvaluation b a m (overall_experience e) bt1 c) = true).
  { apply brew_time_order_class; try assumption.
    - right. left. reflexivity.
    - change (brew_time_rank (Some 10.0%float)) with 0. lia. }
  assert (B : rewards (fun r r' => (r <=? r')%float)
                (mkBrewEvaluation b a m (overall_experience e) bt1 c)
                (mkBrewEvaluation b a m (overall_experience e) (Some 30.0%float) c)
              = true).
  { apply brew_time_order_class; try assumption.
    - left. reflexivity.
    - change (brew_time_rank (Some 30.0%float)) with 2. lia. }
  apply rewards_spec in A. destruct A as (r_poor & r & Ep & Er & Lp).
  apply rewards_spec in B. destruct B as (r0 & r_ideal & Er0 & Ei & Li).
  rewrite Er in Er0. injection Er0 as <-.
  exists r_poor, r, r_ideal. auto.
Qed.

Lemma X14_brew_time_ranks_reward_witness :
  exists r_poor r r_ideal,
    calculate_reward
      (set_brew_time (Some 52.0%float)
         (mkBrewEvaluation (Some 4) None (Some 6) None None (Some 2))) = Ok r_poor /\
    calculate_reward
      (set_brew_time (Some 41.0%float)
         (mkBrewEvaluation (Some 4) None (Some 6) None None (Some 2))) = Ok r /\
    calculate_reward
      (set_brew_time (Some 28.5%float)
         (mkBrewEvaluation (Some 4) None (Some 6) None None (Some 2))) = Ok r_ideal /\
    (r_poor <=? r)%float = true /\ (r <=? r_ideal)%float = true.
Proof.
  apply (X14_brew_time_ranks_reward
           (mkBrewEvaluation (Some 4) None (Some 6) None None (Some 2))
           52.0%float 28.5%float (Some 41.0%float)).
  - reflexivity.
  - right. reflexivity.
  - split; reflexivity.
Defined.

End BrewTimeOrder.


(* ===================================================================== *)
(** ** The context of a roast date                                       *)
(* ===================================================================== *)

Section RoastDate.

Lemma state_key_in_state_keys_inv (s : BrewState) :
  In (state_to_key s) state_keys -> 0 <= days_since_roast s.
Proof.
  unfold state_keys. intros H. apply in_flat_map in H.
  destruct H as (flag & _ & H). apply in_map_iff in H.
  destruct H as (days & E & I). apply state_to_key_inj in E.
  cbn [is_first_brew days_since_roast] in E. destruct E as [_ E].
  unfold indices in I. apply in_map_iff in I. destruct I as (n & <- & I).
  apply in_seq in I. lia.
Qed.

(** X15. from_roast_date counts the whole days elapsed since the roast
    date, rounding down also when the roast date lies ahead: the count is
    negative exactly for a roast date later than now, and the key of the
    context it builds is one of the 62 keys of the contexts with 0 to 30
    days exactly when the roast date is not later than now. *)
Theorem X15_context_of_roast_date (now roast_date : Z) (first : bool) :
  is_first_brew (from_roast_date now roast_date first) = first /\
  days_since_roast (from_roast_date now roast_date first) * MICROSECONDS_PER_DAY
    <= now - roast_date
    < (days_since_roast (from_roast_date now roast_date first) + 1)
      * MICROSECONDS_PER_DAY /\
  (days_since_roast (from_roast_date now roast_date first) < 0 <-> now < roast_date) /\
  (In (state_to_key (from_roast_date now roast_date first)) state_keys
   <-> roast_date <= now).
Proof.
  assert (B : days_since_roast (from_roast_date now roast_date first)
              * MICROSECONDS_PER_DAY
              <= now - roast_date
              < (days_since_roast (from_roast_date now roast_date first) + 1)
                * MICROSECONDS_PER_DAY).
  { unfold from_roast_date, timedelta_days, MICROSECONDS_PER_DAY.
    cbn [days_since_roast].
    pose proof (Z.div_mod (now - roast_date) 86400000000 ltac:(lia)) as D.
    pose proof (Z.mod_pos_bound (now - roast_date) 86400000000 ltac:(lia)) as M.
    lia. }
  assert (S : days_since_roast (from_roast_date now roast_date first) < 0
              <-> now < roast_date).
  { unfold MICROSECONDS_PER_DAY in B. lia. }
  split; [reflexivity|]. split; [exact B|]. split; [exact S|].
  split.
  - intros H. apply state_key_in_state_keys_inv in H. lia.
  - intros H. apply state_key_in_state_keys. lia.
Qed.

End RoastDate.


(* ===================================================================== *)
(** ** Keys that parse and still cannot be used                          *)
(* ===================================================================== *)

Section Overflow.

(** X16. The fallback of _get_best_action covers ValueError only: when
    suggest_action exploits and decoding the selected key raises anything
    else (an index too large for a float raises OverflowError), the
    exception leaves suggest_action, and the agent, cursor included, is as
    before the call. *)
Theorem X16_exploit_propagates_overflow
    (state : BrewState) (rnd : draws) (self : BrewingAgent)
    (r : row) (key : string) (e : exn) :
  (draw_random rnd <? epsilon self)%float = false ->
  q_table self !! state_to_key state = Some r ->
  selected_key r = Some key ->
  action_of_key key = Raise e -> e <> ValueError ->
  suggest_action state rnd self = (Raise e, self).
Proof.
  intros E H S A N. rewrite suggest_action_run. unfold chosen. rewrite E.
  rewrite (get_best_action_row _ _ _ _ H), S, A.
  destruct e; try reflexivity. contradiction.
Qed.

Lemma X16_exploit_propagates_overflow_witness :
  suggest_action (mkBrewState false 0) (mkDraws 0.5 1 30.0 20.0)
    (restored_with 0 (10 ^ 400) 0)
  = (Raise OverflowError, restored_with 0 (10 ^ 400) 0).
Proof.
  apply (X16_exploit_propagates_overflow (mkBrewState false 0)
           (mkDraws 0.5 1 30.0 20.0) (restored_with 0 (10 ^ 400) 0)
           [(format_key 0 (10 ^ 400) 0, 1.0%float)] (format_key 0 (10 ^ 400) 0)).
  - reflexivity.
  - reflexivity.
  - vm_compute. reflexivity.
  - vm_compute. reflexivity.
  - discriminate.
Defined.

(** X17. suggest_action writes the two halves of the cursor around the
    computation of the action key: when it exploits a key that decodes to
    an action whose key cannot be computed (an index that makes the
    volume infinite), it raises with the state half already written and
    the action half still the old one, so that the next
    learn_from_evaluation credits the old action in the new context. *)
Theorem X17_failed_exploit_splits_cursor
    (state : BrewState) (rnd : draws) (self : BrewingAgent)
    (r : row) (key old : string) (action : BrewAction) (e : exn)
    (evaluation : BrewEvaluation) (reward : float) :
  (draw_random rnd <? epsilon self)%float = false ->
  q_table self !! state_to_key state = Some r ->
  selected_key r = Some key ->
  action_of_key key = Ok action -> action_to_key action = Raise e ->
  last_action_key self = Some old ->
  calculate_reward evaluation = Ok reward ->
  suggest_action state rnd self
  = (Raise e, set_last_state_key (Some (state_to_key state)) self) /\
  learn_from_evaluation evaluation (snd (suggest_action state rnd self))
  = (Ok tt,
     learned (set_last_state_key (Some (state_to_key state)) self)
       (state_to_key state) old reward).
Proof.
  intros E H S A K O R.
  assert (G : suggest_action state rnd self
              = (Raise e, set_last_state_key (Some (state_to_key state)) self)).
  { rewrite suggest_action_run. unfold chosen. rewrite E.
    rewrite (get_best_action_row _ _ _ _ H), S, A.
    cbn [try_except_ValueError]. rewrite K. reflexivity. }
  split; [exact G|]. rewrite G. cbn [snd].
  apply learn_pending; [|exact R]. split; [reflexivity|exact O].
Qed.

Lemma X17_failed_exploit_splits_cursor_witness :
  suggest_action (mkBrewState false 0) (mkDraws 0.5 1 30.0 20.0)
    (restored_with 0 (10 ^ 308) 0)
  = (Raise OverflowError,
     set_last_state_key (Some (state_to_key (mkBrewState false 0)))
       (restored_with 0 (10 ^ 308) 0)) /\
  learn_from_evaluation (mkBrewEvaluation None None None (Some 7) None None)
    (snd (suggest_action (mkBrewState false 0) (mkDraws 0.5 1 30.0 20.0)
            (restored_with 0 (10 ^ 308) 0)))
  = (Ok tt,
     learned (set_last_state_key (Some (state_to_key (mkBrewState false 0)))
                (restored_with 0 (10 ^ 308) 0))
       (state_to_key (mkBrewState false 0)) "14_5_2"
       ((7 - 5.5) / 4.5)%float).
Proof.
  apply (X17_failed_exploit_splits_cursor (mkBrewState false 0)
           (mkDraws 0.5 1 30.0 20.0) (restored_with 0 (10 ^ 308) 0)
           [(format_key 0 (10 ^ 308) 0, 1.0%float)] (format_key 0 (10 ^ 308) 0)
           "14_5_2" (mkBrewAction 1 infinity 15.0%float) OverflowError).
  - reflexivity.
  - reflexivity.
  - vm_compute. reflexivity.
  - vm_compute. reflexivity.
  - vm_compute. reflexivity.
  - reflexivity.
  - vm_compute. reflexivity.
Defined.

End Overflow.


(* ===================================================================== *)
(** ** The evaluation read at the prompt                                 *)
(* ===================================================================== *)

Section Prompt.

(** X18. _get_rating reads lines until the first one that is blank or
    holds a rating from 1 to 10; it answers a blank line with the default
    and a rating with that rating, leaves the lines after it unread, and
    fails (EOFError) exactly when every line left makes it ask again. *)
Theorem X18_get_rating_reads_first_answer (default : option Z) (inputs : list string) :
  match _get_rating default inputs with
  | None => Forall asked_again inputs
  | Some (rating, rest) =>
      exists skipped line,
        inputs = skipped ++ line :: rest /\ Forall asked_again skipped /\
        (strip line = EmptyString /\ rating = default \/
         exists v, int_of_text (strip line) = Ok v /\
                   MIN_RATING <= v <= MAX_RATING /\ rating = Some v)
  end.
Proof.
  induction inputs as [|line rest IH]; cbn [_get_rating]; [constructor|].
  assert (G : asked_again line ->
    match _get_rating default rest with
    | Some (rating, rest0) =>
        exists skipped line0,
          line :: rest = skipped ++ line0 :: rest0 /\ Forall asked_again skipped /\
          (strip line0 = EmptyString /\ rating = default \/
           exists v, int_of_text (strip line0) = Ok v /\
                     MIN_RATING <= v <= MAX_RATING /\ rating = Some v)
    | None => Forall asked_again (line :: rest)
    end).
  { intros A. destruct (_get_rating default rest) as [[rating rest0]|].
    - destruct IH as (skipped & line0 & E & F & R).
      exists (line :: skipped), line0. split; [rewrite E; reflexivity|].
      split; [constructor; assumption|exact R].
    - constructor; assumption. }
  destruct (strip line) as [|c tl] eqn:S.
  - exists [], line. split; [reflexivity|]. split; [constructor|].
    left. split; [exact S|reflexivity].
  - destruct (int_of_text (String c tl)) as [v|e] eqn:P.
    + destruct ((MIN_RATING <=? v) && (v <=? MAX_RATING)) eqn:B.
      * apply andb_true_iff in B. destruct B as [B1 B2].
        apply Z.leb_le in B1, B2.
        exists [], line. split; [reflexivity|]. split; [constructor|].
        right. exists v. rewrite S. auto.
      * apply G. split; [rewrite S; discriminate|].
        intros v' P' [B1 B2]. rewrite S, P in P'. injection P' as <-.
        apply andb_false_iff in B. destruct B as [B|B]; apply Z.leb_gt in B; lia.
    + apply G. split; [rewrite S; discriminate|].
      intros v' P'. rewrite S, P in P'. discriminate.
Qed.

Lemma get_rating_accepted (default rating : option Z) (inputs rest : list string) :
  _get_rating default inputs = Some (rating, rest) ->
  rating_rejected default = false ->
  rating_rejected rating = false /\ (default <> None -> rating <> None).
Proof.
  revert rating rest. induction inputs as [|line tl IH]; intros rating rest;
    cbn [_get_rating]; [discriminate|].
  intros H D. destruct (strip line) as [|c s].
  - injection H as <- <-. auto.
  - destruct (int_of_text (String c s)) as [v|e]; [|exact (IH _ _ H D)].
    destruct ((MIN_RATING <=? v) && (v <=? MAX_RATING)) eqn:B; [|exact (IH _ _ H D)].
    injection H as <- <-. unfold rating_rejected. rewrite B.
    split; [reflexivity|discriminate].
Qed.

(** The reward of an evaluation whose ratings are in range, whatever its
    brew time. *)
Lemma rated_reward_facts (e : BrewEvaluation) :
  rating_rejected (bitterness e) = false -> rating_rejected (acidity e) = false ->
  rating_rejected (taste_strength e) = false ->
  rating_rejected (overall_experience e) = false ->
  rating_rejected (channeling e) = false ->
  reward_facts e = true.
Proof.
  intros Vb Va Vt Vo Vc.
  apply rating_in_ratings in Vb, Va, Vt, Vo, Vc.
  destruct (brew_time_bonus_cases e) as (bt & Hbt & E).
  apply calculate_reward_set_brew_time in E. rewrite <- E. clear E.
  destruct e as [b a t o bt0 ch]; unfold set_brew_time.
  cbn [bitterness acidity taste_strength overall_experience channeling] in *.
  destruct o as [o|].
  - rewrite reward_facts_overall. apply reward_facts_with_overall; assumption.
  - apply reward_facts_without_overall; assumption.
Qed.

(** X19. The evaluation do_evaluate assembles holds five ratings that
    pass the range check of __post_init__, the first four never absent,
    and a brew time that nothing has checked: the evaluation would pass
    __post_init__ exactly when that brew time is not <= 0.  Its reward is
    computed all the same and lies in [-1,1]. *)
Theorem X19_prompted_evaluation_skips_brew_time_check
    (float_of_text : string -> option float) (inputs rest : list string)
    (e : BrewEvaluation) :
  do_evaluate_evaluation float_of_text inputs = Some (e, rest) ->
  check_ratings [bitterness e; acidity e; taste_strength e;
                 overall_experience e; channeling e] = Ok tt /\
  bitterness e <> None /\ acidity e <> None /\ taste_strength e <> None /\
  overall_experience e <> None /\
  (exists t, brew_time e = Some t /\
             (__post_init__ e = Ok tt <-> (t <=? 0)%float = false)) /\
  exists r, calculate_reward e = Ok r /\
            (-1 <=? r)%float = true /\ (r <=? 1)%float = true.
Proof.
  unfold do_evaluate_evaluation. intros H.
  destruct (_get_rating (Some 5) inputs) as [[b i1]|] eqn:Gb; [|discriminate].
  cbn [mbind option_bind] in H.
  destruct (_get_rating (Some 5) i1) as [[a i2]|] eqn:Ga; [|discriminate].
  cbn [mbind option_bind] in H.
  destruct (_get_rating (Some 6) i2) as [[t i3]|] eqn:Gt; [|discriminate].
  cbn [mbind option_bind] in H.
  destruct (_get_rating (Some 7) i3) as [[o i4]|] eqn:Go; [|discriminate].
  cbn [mbind option_bind] in H.
  destruct (_get_rating None i4) as [[c i5]|] eqn:Gc; [|discriminate].
  cbn [mbind option_bind] in H.
  destruct i5 as [|line rest']; [discriminate|]. injection H as <- <-.
  destruct (get_rating_accepted _ _ _ _ Gb eq_refl) as [Vb Nb].
  destruct (get_rating_accepted _ _ _ _ Ga eq_refl) as [Va Na].
  destruct (get_rating_accepted _ _ _ _ Gt eq_refl) as [Vt Nt].
  destruct (get_rating_accepted _ _ _ _ Go eq_refl) as [Vo No].
  destruct (get_rating_accepted _ _ _ _ Gc eq_refl) as [Vc _].
  cbn [bitterness acidity taste_strength overall_experience channeling brew_time].
  split.
  { cbn [check_ratings]. rewrite Vb, Va, Vt, Vo, Vc. reflexivity. }
  split; [apply Nb; discriminate|]. split; [apply Na; discriminate|].
  split; [apply Nt; discriminate|]. split; [apply No; discriminate|].
  split.
  - eexists. split; [reflexivity|]. rewrite post_init_ok.
    cbn [bitterness acidity taste_strength overall_experience channeling brew_time
         brew_time_rejected].
    tauto.
  - match goal with |- exists r, calculate_reward ?ev = _ /\ _ =>
      pose proof (rated_reward_facts ev Vb Va Vt Vo Vc) as F;
      unfold reward_facts in F; destruct (calculate_reward ev) as [r|];
      [|discriminate]
    end.
    repeat (apply andb_true_iff in F; destruct F as [F ?]).
    exists r. auto.
Qed.

Lemma X19_prompted_evaluation_skips_brew_time_check_witness :
  check_ratings [bitterness (mkBrewEvaluation (Some 5) (Some 3) (Some 6) (Some 7)
                               (Some (-5)%float) None);
                 acidity (mkBrewEvaluation (Some 5) (Some 3) (Some 6) (Some 7)
                            (Some (-5)%float) None);
                 taste_strength (mkBrewEvaluation (Some 5) (Some 3) (Some 6) (Some 7)
                                   (Some (-5)%float) None);
                 overall_experience (mkBrewEvaluation (Some 5) (Some 3) (Some 6) (Some 7)
                                       (Some (-5)%float) None);
                 channeling (mkBrewEvaluation (Some 5) (Some 3) (Some 6) (Some 7)
                               (Some (-5)%float) None)] = Ok tt /\
  bitterness (mkBrewEvaluation (Some 5) (Some 3) (Some 6) (Some 7)
                (Some (-5)%float) None) <> None /\
  acidity (mkBrewEvaluation (Some 5) (Some 3) (Some 6) (Some 7)
             (Some (-5)%float) None) <> None /\
  taste_strength (mkBrewEvaluation (Some 5) (Some 3) (Some 6) (Some 7)
                    (Some (-5)%float) None) <> None /\
  overall_experience (mkBrewEvaluation (Some 5) (Some 3) (Some 6) (Some 7)
                        (Some (-5)%float) None) <> None /\
  (exists t, brew_time (mkBrewEvaluation (Some 5) (Some 3) (Some 6) (Some 7)
                          (Some (-5)%float) None) = Some t /\
             (__post_init__ (mkBrewEvaluation (Some 5) (Some 3) (Some 6) (Some 7)
                               (Some (-5)%float) None) = Ok tt
              <-> (t <=? 0)%float = false)) /\
  exists r, calculate_reward (mkBrewEvaluation (Some 5) (Some 3) (Some 6) (Some 7)
                                (Some (-5)%float) None) = Ok r /\
            (-1 <=? r)%float = true /\ (r <=? 1)%float = true.
Proof.
  apply (X19_prompted_evaluation_skips_brew_time_check float_of_integer_text
           [""; " 3 "; "12"; "six"; "6"; ""; ""; "-5"; "next command"]
           ["next command"]).
  vm_compute. reflexivity.
Defined.

End Prompt.

(* ===================================================================== *)
(** ** The records file                                                  *)
(* ===================================================================== *)

Section Records.

Lemma record_eta (record : Persistence.BrewRecord) (action : BrewAction)
    (state : BrewState) :
  action = Persistence.action record -> state = Persistence.state record ->
  Persistence.mkBrewRecord
    (mkBrewAction (grind_size action) (brew_volume action) (coffee_dose action))
    (mkBrewState (is_first_brew state) (days_since_roast state))
    (Persistence.timestamp record) (Persistence.evaluation record)
  = record.
Proof.
  intros -> ->. destruct record as [[g v d] [f n] ts ev]. reflexivity.
Qed.

Lemma dict_to_record_to_dict (record : Persistence.BrewRecord) :
  Persistence._dict_to_record (Persistence._record_to_dict record)
  = match Persistence.evaluation record with
    | None => Ok record
    | Some e => let* _ := __post_init__ e in Ok record
    end.
Proof.
  unfold Persistence._dict_to_record, Persistence._record_to_dict.
  destruct record as [[g v d] [f n] ts [e|]]; [|reflexivity].
  cbn -[__post_init__]. unfold BrewEvaluation_init.
  destruct e as [b a t o bt c]. cbn -[__post_init__].
  destruct (__post_init__ _) as [[]|x]; reflexivity.
Qed.

(** X20. What the records file gives back: the record saved last comes
    back as it was when it holds no evaluation; an evaluation written
    into it by update_last_brew_evaluation replaces the stored one, and
    reading the record then validates that evaluation again, so that it
    comes back with it when the evaluation passes __post_init__ and
    get_last_brew_record raises ValueError when it does not.  On an empty
    file there is no last record and nothing to update. *)
Theorem X20_last_record_is_validated_again
    (records : list Persistence.record_dict) (record : Persistence.BrewRecord)
    (e : BrewEvaluation) :
  Persistence.get_last_brew_record
    (Persistence.save_brew_record (Persistence.set_evaluation None record) records)
  = Ok (Some (Persistence.set_evaluation None record)) /\
  Persistence.update_last_brew_evaluation e
    (Persistence.save_brew_record record records)
  = (true,
     Persistence.save_brew_record (Persistence.set_evaluation (Some e) record) records) /\
  Persistence.get_last_brew_record
    (snd (Persistence.update_last_brew_evaluation e
            (Persistence.save_brew_record record records)))
  = match __post_init__ e with
    | Ok _ => Ok (Some (Persistence.set_evaluation (Some e) record))
    | Raise _ => Raise ValueError
    end /\
  Persistence.get_last_brew_record [] = Ok None /\
  Persistence.update_last_brew_evaluation e [] = (false, []).
Proof.
  assert (U : Persistence.update_last_brew_evaluation e
                (Persistence.save_brew_record record records)
              = (true,
                 Persistence.save_brew_record
                   (Persistence.set_evaluation (Some e) record) records)).
  { unfold Persistence.update_last_brew_evaluation, Persistence.save_brew_record.
    rewrite last_snoc, removelast_last. reflexivity. }
  assert (G : forall r,
            Persistence.get_last_brew_record (Persistence.save_brew_record r records)
            = let* r' := Persistence._dict_to_record (Persistence._record_to_dict r) in
              Ok (Some r')).
  { intros r. unfold Persistence.get_last_brew_record, Persistence.save_brew_record.
    rewrite last_snoc. reflexivity. }
  split; [|split; [exact U|split; [|split; reflexivity]]].
  - rewrite G, dict_to_record_to_dict. reflexivity.
  - rewrite U. cbn [snd]. rewrite G, dict_to_record_to_dict.
    cbn [Persistence.evaluation Persistence.set_evaluation].
    destruct (post_init_cases e) as [H|H]; rewrite H; reflexivity.
Qed.

End Records.


(* ===================================================================== *)
(** ** The floor of epsilon                                              *)
(* ===================================================================== *)

Section EpsilonFloor.

Lemma load_row_shape (sk : string) (actions : row) :
  forall self, exists t, snd (load_row sk actions self) = set_q_table t self.
Proof.
  induction actions as [|[ak v] tl IH]; intros self.
  - exists (q_table self). destruct self; reflexivity.
  - cbn [load_row fold_right]. unfold bind at 1. rewrite q_value_setitem_run.
    destruct (IH (set_q_table
                    (<[sk := row_setitem (default [] (q_table self !! sk)) ak v]>
                       (q_table self)) self)) as (t & E).
    exists t. unfold load_row in E. rewrite E. reflexivity.
Qed.

Lemma load_q_table_shape (data : list (string * row)) self :
  exists t, snd (load_q_table data self) = set_q_table t self.
Proof.
  unfold load_q_table, bind at 1, modify.
  assert (G : forall s0, (exists t0, s0 = set_q_table t0 self) ->
            exists t,
              snd (fold_right
                     (fun '(state_key, actions) rest => load_row state_key actions ;; rest)
                     (ret tt) data s0) = set_q_table t self).
  { induction data as [|[sk actions] tl IH]; intros s0 (t0 & ->).
    - exists t0. reflexivity.
    - cbn [fold_right]. unfold bind at 1.
      destruct (load_row_shape sk actions (set_q_table t0 self)) as (t1 & E1).
      pose proof (load_row_ok sk actions (set_q_table t0 self)) as L.
      destruct (load_row sk actions (set_q_table t0 self)) as [r s1].
      cbn [fst snd] in *. subst r s1. apply IH. exists t1. reflexivity. }
  apply G. exists ∅. reflexivity.
Qed.

(** What a call can do to the settings: nothing, except that learning
    decays epsilon once. *)
Lemma run_call_settings (c : call) (self : BrewingAgent) :
  learning_rate (snd (run_call c self)) = learning_rate self /\
  epsilon_decay (snd (run_call c self)) = epsilon_decay self /\
  min_epsilon (snd (run_call c self)) = min_epsilon self /\
  (epsilon (snd (run_call c self)) = epsilon self \/
   epsilon (snd (run_call c self))
   = Py.max (min_epsilon self) (epsilon self * epsilon_decay self)%float).
Proof.
  destruct c; unfold run_call, answer; cbn [snd].
  - rewrite suggest_action_run.
    assert (C : exists t, snd (chosen state rnd self) = set_q_table t self).
    { destruct (chosen_table state rnd self) as [E|E]; rewrite E.
      - exists (q_table self). destruct self; reflexivity.
      - eexists. reflexivity. }
    destruct C as (t & C).
    destruct (chosen state rnd self) as [[action|e] s1]; cbn [snd] in C; subst s1.
    + destruct (action_to_key action); cbn [snd]; auto.
    + cbn [snd]. auto.
  - destruct (learn_cases evaluation self) as [-> | (sk & ak & r & _ & ->)].
    + auto.
    + unfold learned. cbn [learning_rate epsilon_decay min_epsilon epsilon]. auto.
  - rewrite recommendations_state. auto.
  - auto.
  - destruct (load_q_table_shape q_table_data self) as (t & ->). auto.
  - auto.
Qed.

(** X21. Epsilon never falls below its floor: on an agent whose
    min_epsilon is not NaN and whose epsilon is at least min_epsilon, any
    sequence of calls leaves epsilon at least min_epsilon, and
    learning_rate, epsilon_decay and min_epsilon as they were. *)
Theorem X21_epsilon_stays_above_floor (cs : list call) (self : BrewingAgent) :
  is_nan (min_epsilon self) = false ->
  (min_epsilon self <=? epsilon self)%float = true ->
  (min_epsilon self <=? epsilon (snd (run_calls cs self)))%float = true /\
  learning_rate (snd (run_calls cs self)) = learning_rate self /\
  epsilon_decay (snd (run_calls cs self)) = epsilon_decay self /\
  min_epsilon (snd (run_calls cs self)) = min_epsilon self.
Proof.
  revert self. induction cs as [|c rest IH]; intros self N F; cbn [run_calls].
  - auto.
  - destruct (run_call_settings c self) as (L & D & M & E).
    destruct (run_call c self) as [r self'] eqn:R. cbn [snd] in *.
    assert (F' : (min_epsilon self' <=? epsilon self')%float = true).
    { rewrite M. destruct E as [->| ->]; [exact F|].
      unfold Py.max.
      destruct (min_epsilon self <? epsilon self * epsilon_decay self)%float eqn:C.
      - apply float_lt_le. exact C.
      - apply float_le_refl. exact N. }
    specialize (IH self'). rewrite M in IH. specialize (IH N).
    rewrite M in F'. specialize (IH F').
    destruct (run_calls rest self') as [rs self'']. cbn [snd] in *.
    destruct IH as (I1 & I2 & I3 & I4).
    rewrite I2, I3, I4, L, D. auto.
Qed.

Lemma X21_epsilon_stays_above_floor_witness :
  (min_epsilon default_agent
   <=? epsilon (snd (run_calls learning_session default_agent)))%float = true /\
  learning_rate (snd (run_calls learning_session default_agent))
  = learning_rate default_agent /\
  epsilon_decay (snd (run_calls learning_session default_agent))
  = epsilon_decay default_agent /\
  min_epsilon (snd (run_calls learning_session default_agent))
  = min_epsilon default_agent.
Proof.
  apply (X21_epsilon_stays_above_floor learning_session default_agent); reflexivity.
Defined.

End EpsilonFloor.

(* ===================================================================== *)
(** ** Feedback goes to the suggestion                                   *)
(* ===================================================================== *)

Section Feedback.

(** X22. Suggest, then learn: when suggest_action has returned an action,
    a following learn_from_evaluation with a valid evaluation returns
    normally and applies the update rule once, with the reward of the
    evaluation, to the entry of the suggested action's key in the context
    the suggestion was made for; every other pair reads as before the
    suggestion, and the cursor stays on that entry. *)
Theorem X22_feedback_credits_suggestion
    (state : BrewState) (rnd : draws) (self : BrewingAgent)
    (action : BrewAction) (e : BrewEvaluation) :
  fst (suggest_action state rnd self) = Ok action -> Spec.valid e ->
  exists key self',
    action_to_key action = Ok key /\
    learn_from_evaluation e (snd (suggest_action state rnd self)) = (Ok tt, self') /\
    pending self' (state_to_key state) key /\
    Spec.q_lookup (q_table self') (state_to_key state) key
    = q_update (learning_rate self) (Spec.reward e)
        (Spec.q_lookup (q_table self) (state_to_key state) key) /\
    (forall s a, (s, a) <> (state_to_key state, key) ->
       Spec.q_lookup (q_table self') s a = Spec.q_lookup (q_table self) s a).
Proof.
  intros S V. destruct (valid_reward e V) as (R & _).
  rewrite suggest_action_run in S |- *.
  assert (C : snd (chosen state rnd self) = self \/
              snd (chosen state rnd self)
              = set_q_table (<[state_to_key state :=
                                 default [] (q_table self !! state_to_key state)]>
                               (q_table self)) self) by apply chosen_table.
  destruct (chosen state rnd self) as [[a0|x] s1]; [|discriminate].
  destruct (action_to_key a0) as [key|x] eqn:K; [|discriminate].
  cbn [fst snd] in *. injection S as ->.
  assert (Q : forall s a, Spec.q_lookup (q_table s1) s a = Spec.q_lookup (q_table self) s a).
  { intros s a. destruct C as [->| ->]; [reflexivity|].
    cbn [q_table set_q_table]. apply q_lookup_vivified. }
  assert (L : learning_rate s1 = learning_rate self).
  { destruct C as [->| ->]; reflexivity. }
  exists key.
  exists (learned (set_last_action_key (Some key)
                     (set_last_state_key (Some (state_to_key state)) s1))
            (state_to_key state) key (Spec.reward e)).
  split; [exact K|]. split.
  { apply learn_pending; [split; reflexivity|exact R]. }
  split; [split; reflexivity|]. split.
  - rewrite learned_q_lookup. cbn [q_table set_last_action_key set_last_state_key
                                   learning_rate].
    rewrite Q, L. reflexivity.
  - intros s a N. rewrite learned_q_lookup_other by exact N.
    cbn [q_table set_last_action_key set_last_state_key]. apply Q.
Qed.

Lemma X22_feedback_credits_suggestion_witness :
  exists key self',
    action_to_key (mkBrewAction 7 30.0 20.0) = Ok key /\
    learn_from_evaluation (mkBrewEvaluation (Some 5) None None (Some 8) (Some 28.0%float) None)
      (snd (suggest_action (mkBrewState true 12) (mkDraws 0.05 7 30.0 20.0) default_agent))
    = (Ok tt, self') /\
    pending self' (state_to_key (mkBrewState true 12)) key /\
    Spec.q_lookup (q_table self') (state_to_key (mkBrewState true 12)) key
    = q_update (learning_rate default_agent)
        (Spec.reward (mkBrewEvaluation (Some 5) None None (Some 8) (Some 28.0%float) None))
        (Spec.q_lookup (q_table default_agent) (state_to_key (mkBrewState true 12)) key) /\
    (forall s a, (s, a) <> (state_to_key (mkBrewState true 12), key) ->
       Spec.q_lookup (q_table self') s a = Spec.q_lookup (q_table default_agent) s a).
Proof.
  apply (X22_feedback_credits_suggestion (mkBrewState true 12)
           (mkDraws 0.05 7 30.0 20.0) default_agent (mkBrewAction 7 30.0 20.0)
           (mkBrewEvaluation (Some 5) None None (Some 8) (Some 28.0%float) None)).
  - vm_compute. reflexivity.
  - reflexivity.
Defined.

End Feedback.
